(** * NL2SQL assistant: safety gate, history protocol and session loop

    A shallow embedding of the Python sources [NL2SQL.py] (console front
    end with history), [nl2sql.py] (the earlier single-shot console
    variant, which shares [get_schema], [WRITE_REGEX], [is_safe_select]
    and [run_query] verbatim) and [app.py] (the web form), followed by
    the properties of the safety gate, the history context, the slug
    function, schema introspection and the per-turn error handling. *)

From Stdlib Require Import String Ascii DecimalString.
From Stdlib Require Import List NArith ZArith Bool Lia Sorted Permutation.
Import ListNotations.

Local Open Scope N_scope.

(* ================================================================== *)
(** * Part I: the embedding *)
(* ================================================================== *)

(** ** Python strings

    A Python [str] is a sequence of Unicode code points. *)

Definition char := N.
Definition str := list char.

(** String literals of the sources, written as Rocq strings. *)
Definition lit (s : string) : str := map N_of_ascii (list_ascii_of_string s).

Definition ch_semicolon : char := 59.
Definition ch_dash : char := 45.
Definition ch_underscore : char := 95.
Definition ch_newline : char := 10.

(** The ASCII range of the character tables. *)
Definition is_ascii (c : char) : bool := c <? 128.
Definition ascii_opt (o : option char) : bool :=
  match o with Some c => is_ascii c | None => true end.
Definition ascii_isupper (c : char) : bool := (65 <=? c) && (c <=? 90).
Definition ascii_islower (c : char) : bool := (97 <=? c) && (c <=? 122).
Definition ascii_isdigit (c : char) : bool := (48 <=? c) && (c <=? 57).
Definition ascii_isalpha (c : char) : bool := ascii_isupper c || ascii_islower c.
Definition ascii_isalnum (c : char) : bool := ascii_isalpha c || ascii_isdigit c.
(** [str.strip()] without argument removes, in the ASCII range, the
    characters TAB..CR, FS..US and the space. *)
Definition ascii_isspace (c : char) : bool :=
  ((9 <=? c) && (c <=? 13)) || ((28 <=? c) && (c <=? 32)).
(** A character of the ASCII range that is neither alphanumeric nor the
    underscore. *)
Definition is_separator (c : char) : bool :=
  is_ascii c && negb (ascii_isalnum c) && negb (c =? ch_underscore).
Definition ascii_upper (c : char) : char := if ascii_islower c then c - 32 else c.
Definition ascii_lower (c : char) : char := if ascii_isupper c then c + 32 else c.

(** The Unicode character database the interpreter consults.  It is not
    part of the repository, so it is an interface: the fields are the
    table lookups the sources trigger, the laws fix them on the ASCII
    range, where they are known.

    - [isspace]: the whitespace test of [str.strip()];
    - [isalnum]: the alphanumeric test behind the word class of [\b];
    - [upper_of]: the full upper-case mapping of one code point, which
      [str.upper()] applies code point by code point (it may expand);
    - [lower]: [str.lower()] on a whole string (it is context sensitive
      outside ASCII);
    - [ignorecase_eq p c]: the test the regular-expression engine makes
      for a pattern literal [p] against a subject character [c] under
      [re.IGNORECASE]. *)
Class Unicode : Type := {
  isspace : char -> bool;
  isalnum : char -> bool;
  upper_of : char -> str;
  lower : str -> str;
  ignorecase_eq : char -> char -> bool;
  isspace_ascii : forall c, c < 128 -> isspace c = ascii_isspace c;
  isalnum_ascii : forall c, c < 128 -> isalnum c = ascii_isalnum c;
  upper_of_ascii : forall c, c < 128 -> upper_of c = [ascii_upper c];
  lower_ascii : forall s, forallb is_ascii s = true -> lower s = map ascii_lower s;
  ignorecase_eq_ascii : forall p c,
    ascii_isalpha p = true -> c < 128 ->
    ignorecase_eq p c = (ascii_lower c =? ascii_lower p)
}.

(** ** Sequence operations of Python *)

(** [l[:stop]] *)
Definition slice_to {A : Type} (stop : Z) (l : list A) : list A :=
  let n := Z.of_nat (length l) in
  firstn (Z.to_nat (if (stop <? 0)%Z then Z.max 0 (stop + n) else stop)) l.

(** [l[start:]] *)
Definition slice_from {A : Type} (start : Z) (l : list A) : list A :=
  let n := Z.of_nat (length l) in
  skipn (Z.to_nat (if (start <? 0)%Z then Z.max 0 (start + n) else start)) l.

(** [c in s] for a one-character string [c]. *)
Definition contains_char (c : char) (s : str) : bool := existsb (N.eqb c) s.

(** [s.startswith(prefix)] *)
Fixpoint startswith (s prefix : str) : bool :=
  match prefix, s with
  | [], _ => true
  | p :: prefix', c :: s' => (c =? p) && startswith s' prefix'
  | _ :: _, [] => false
  end.

(** [s.lstrip(..)], [s.rstrip(..)] and [s.strip(..)], for a set of
    characters given by its membership test. *)
Fixpoint lstrip_by (p : char -> bool) (s : str) : str :=
  match s with
  | [] => []
  | c :: s' => if p c then lstrip_by p s' else s
  end.

Definition rstrip_by (p : char -> bool) (s : str) : str :=
  rev (lstrip_by p (rev s)).

Definition strip_by (p : char -> bool) (s : str) : str :=
  rstrip_by p (lstrip_by p s).

(** [x or y] on strings: the empty string is falsy. *)
Definition str_or (x y : str) : str :=
  match x with [] => y | _ :: _ => x end.

(** ["sep".join(parts)] *)
Fixpoint join (sep : str) (parts : list str) : str :=
  match parts with
  | [] => []
  | [p] => p
  | p :: rest => p ++ sep ++ join sep rest
  end.

Section Gate.
Context {U : Unicode}.

(** [s.strip()] and [s.upper()] *)
Definition strip (s : str) : str := strip_by isspace s.
Definition upper (s : str) : str := flat_map upper_of s.

(** ** The safety gate ([NL2SQL.py] 59-69, [nl2sql.py] 67-77) *)

(** The alternatives of [WRITE_REGEX]. *)
Definition WRITE_KEYWORDS : list str :=
  map lit ["INSERT"; "UPDATE"; "DELETE"; "ALTER"; "DROP"; "TRUNCATE";
           "CREATE"; "REPLACE"; "ATTACH"; "DETACH"; "PRAGMA"]%string.

(** The word class [\w]: alphanumeric or underscore. *)
Definition isword (c : char) : bool := isalnum c || (c =? ch_underscore).

Definition isword_opt (o : option char) : bool :=
  match o with Some c => isword c | None => false end.

(** [\b] between the character before the current position ([None] at
    the start of the text) and the rest of the text: exactly one of
    the two sides is a word character. *)
Definition word_boundary (prev : option char) (rest : str) : bool :=
  xorb (isword_opt prev) (isword_opt (hd_error rest)).

(** One alternative, a literal matched ignoring case at the head of
    [rest]; the result is the last character consumed and the text
    that follows it. *)
Fixpoint match_literal (pat : str) (prev : option char) (rest : str)
  : option (option char * str) :=
  match pat with
  | [] => Some (prev, rest)
  | p :: pat' =>
      match rest with
      | [] => None
      | c :: rest' =>
          if ignorecase_eq p c then match_literal pat' (Some c) rest'
          else None
      end
  end.

(** [\b(INSERT|...|PRAGMA)\b] anchored at the current position: the
    alternatives are tried in order and each is followed by the
    closing [\b]. *)
Definition write_regex_match_at (prev : option char) (rest : str) : bool :=
  word_boundary prev rest &&
  existsb (fun kw =>
             match match_literal kw prev rest with
             | Some (prev', rest') => word_boundary prev' rest'
             | None => false
             end) WRITE_KEYWORDS.

(** [WRITE_REGEX.search]: the first position at which the pattern
    matches, as a truth value. *)
Fixpoint write_regex_search_from (prev : option char) (rest : str) : bool :=
  write_regex_match_at prev rest ||
  match rest with
  | [] => false
  | c :: rest' => write_regex_search_from (Some c) rest'
  end.

Definition WRITE_REGEX_search (sql : str) : bool :=
  write_regex_search_from None sql.

Definition is_safe_select (sql : str) : bool :=
  if contains_char ch_semicolon (slice_to (-1) (strip sql)) then false
  else if WRITE_REGEX_search sql then false
  else startswith (upper (strip sql)) (lit "SELECT").

End Gate.

(** ** Exceptions

    The exceptions (subclasses of [Exception]) the collaborators of the
    program raise, and computations that return or raise. *)

Inductive exn : Type :=
| RuntimeError (msg : str)
| APIError (msg : str)
| DatabaseError (msg : str)
| TypeError (msg : str)
| ValueError (msg : str)
| OSError (msg : str)
| AssertionError (msg : str)
| EOFError.

Definition exn_message (e : exn) : str :=
  match e with
  | RuntimeError m | APIError m | DatabaseError m | TypeError m | ValueError m
  | OSError m | AssertionError m => m
  | EOFError => []
  end.

Inductive result (A : Type) : Type :=
| Ok (a : A)
| Raise (e : exn).
Arguments Ok {A} a.
Arguments Raise {A} e.

Definition bind {A B : Type} (r : result A) (k : A -> result B) : result B :=
  match r with
  | Ok a => k a
  | Raise e => Raise e
  end.

Notation "x <- r ;; k" := (bind r (fun x => k))
  (at level 61, r at next level, right associativity).

Fixpoint mapM {A B : Type} (f : A -> result B) (l : list A) : result (list B) :=
  match l with
  | [] => Ok []
  | a :: l' => b <- f a ;; bs <- mapM f l' ;; Ok (b :: bs)
  end.

(** ** Rows

    The values [sqlite3] hands back: [None], [int], [float] (its 64 bits),
    [str] and [bytes]; a row is a tuple of them. *)

Inductive sql_value : Type :=
| SqlNull
| SqlInteger (z : Z)
| SqlReal (bits : N)
| SqlText (s : str)
| SqlBlob (b : list N).

Definition row := list sql_value.

(** ** History ([NL2SQL.py] 71-87)

    An item of the history list is the dict
    [{"q": .., "sql": .., "preview": [..]}]; every item is created with
    the three keys, so the defaults of [h.get] never apply. *)

Record hist_item : Type := {
  turn_q : str;
  turn_sql : str;
  turn_preview : list row
}.

Definition MAX_HISTORY_TURNS : Z := 15.

(** [enumerate(l, start)] *)
Fixpoint enumerate {A : Type} (start : Z) (l : list A) : list (Z * A) :=
  match l with
  | [] => []
  | a :: l' => (start, a) :: enumerate (start + 1) l'
  end.

(** The values interpolated into the chunk of one turn: its number, the
    question, the SQL and the preview rows handed to [json.dumps]. *)
Record chunk : Type := {
  chunk_no : Z;
  chunk_q : str;
  chunk_sql : str;
  chunk_preview : list row
}.

Definition history_chunks (history : list hist_item) : list chunk :=
  map (fun ih : Z * hist_item =>
         let (i, h) := ih in
         {| chunk_no := i;
            chunk_q := turn_q h;
            chunk_sql := turn_sql h;
            chunk_preview := slice_to 3 (turn_preview h) |})
      (enumerate 1 (slice_from (- MAX_HISTORY_TURNS) history)).

(** [str(i)] for an integer. *)
Definition int_str (i : Z) : str :=
  lit (DecimalString.NilZero.string_of_int (Z.to_int i)).

Section History.
(** [json.dumps(.., ensure_ascii=False)]: a library function, which
    raises [TypeError] on values it cannot serialise. *)
Variable json_dumps : list row -> result str.

Definition chunk_text (c : chunk) : result str :=
  preview_json <- json_dumps (chunk_preview c) ;;
  Ok (lit "Turn " ++ int_str (chunk_no c) ++ lit ":" ++ [ch_newline] ++
      lit "Q: " ++ chunk_q c ++ [ch_newline] ++
      lit "SQL: " ++ chunk_sql c ++ [ch_newline] ++
      lit "PreviewRows: " ++ preview_json ++ [ch_newline]).

Definition build_history_context (history : list hist_item) : result str :=
  match history with
  | [] => Ok []
  | _ :: _ =>
      chunks <- mapM chunk_text (history_chunks history) ;;
      Ok (join [ch_newline] chunks)
  end.
End History.

(** The argument [app.py] (line 73) passes to [build_history_context]:
    [history[-max_hist:] if max_hist else []]. *)
Definition app_history_arg (max_hist : Z) (history : list hist_item)
  : list hist_item :=
  if (max_hist =? 0)%Z then [] else slice_from (- max_hist) history.

(** ** Slug ([NL2SQL.py] 152-154) *)

(** [re.sub(r"[^a-zA-Z0-9]+", "-", s)]: scanning from the left, every
    maximal run of characters outside the class becomes one ["-"];
    [in_run] tells that the run under the cursor is already replaced. *)
Fixpoint sub_non_alnum_runs (in_run : bool) (s : str) : str :=
  match s with
  | [] => []
  | c :: s' =>
      if ascii_isalnum c then c :: sub_non_alnum_runs false s'
      else if in_run then sub_non_alnum_runs true s'
      else ch_dash :: sub_non_alnum_runs true s'
  end.

Definition is_dash (c : char) : bool := c =? ch_dash.

Section Slug.
Context {U : Unicode}.

Definition slugify_maxlen (text : str) (maxlen : Z) : str :=
  let s := lower (strip_by is_dash (sub_non_alnum_runs false (strip text))) in
  strip_by is_dash (str_or (slice_to maxlen s) (lit "query")).

(** Both call sites use the default [maxlen = 40]. *)
Definition slugify (text : str) : str := slugify_maxlen text 40.
End Slug.

(** ** String comparison *)

Fixpoint str_eqb (a b : str) : bool :=
  match a, b with
  | [], [] => true
  | x :: a', y :: b' => (x =? y) && str_eqb a' b'
  | _, _ => false
  end.

(** The order of the [BINARY] collation: code point by code point. *)
Fixpoint str_leb (a b : str) : bool :=
  match a, b with
  | [], _ => true
  | _ :: _, [] => false
  | x :: a', y :: b' =>
      if x <? y then true else if y <? x then false else str_leb a' b'
  end.

(** ** The database connection

    What the program asks of [sqlite3]: the rows of the catalog table
    [sqlite_master] (their [type] and [name] columns), the answer to
    [PRAGMA table_info(<text>)] for the text spliced into the statement,
    and the cursor of any other statement (its [description], absent for
    a statement that is not a query, and the rows of [fetchall]).

    The record holds the answers of the database; its catalog is taken
    as readable, and a failure while the schema is read is one of
    [PRAGMA table_info].  The statements that
    [run_query] sends to it are recorded, in the order sent, in the
    state of the front end that sends them ([executed] for the console,
    [ss_executed] for the web form), so that a statement sent and the
    same statement not sent leave different states. *)

Record master_row : Type := {
  m_type : str;
  m_name : str
}.

Record table_info_row : Type := {
  cid : Z;
  ti_name : str;
  ti_type : str;
  ti_notnull : Z;
  ti_dflt_value : sql_value;
  ti_pk : Z
}.

Record cursor : Type := {
  description : option (list str);
  fetchall : list row
}.

Record connection : Type := {
  sqlite_master : list master_row;
  pragma_table_info : str -> result (list table_info_row);
  execute : str -> result cursor
}.

(** [ORDER BY name] *)
Fixpoint insert_by_name (x : str) (l : list str) : list str :=
  match l with
  | [] => [x]
  | y :: l' => if str_leb x y then x :: l else y :: insert_by_name x l'
  end.

Definition order_by_name (l : list str) : list str :=
  fold_right insert_by_name [] l.

(** [SELECT name FROM sqlite_master WHERE type='table' ORDER BY name;] *)
Definition select_table_names (conn : connection) : list str :=
  order_by_name
    (map m_name
         (filter (fun r => str_eqb (m_type r) (lit "table"))
                 (sqlite_master conn))).

(** ** Schema introspection ([NL2SQL.py] 29-44, [nl2sql.py] 22-38) *)

(** The dict [{"name": .., "type": ..}] of one column. *)
Record column : Type := {
  col_name : str;
  col_type : str
}.

(** A Python dict keeps its keys in insertion order; assigning to a key
    that is present replaces the value in place. *)
Definition dict (V : Type) : Type := list (str * V).

Fixpoint dict_set {V : Type} (k : str) (v : V) (d : dict V) : dict V :=
  match d with
  | [] => [(k, v)]
  | (k', v') :: d' =>
      if str_eqb k k' then (k', v) :: d' else (k', v') :: dict_set k v d'
  end.

Fixpoint dict_get {V : Type} (k : str) (d : dict V) : option V :=
  match d with
  | [] => None
  | (k', v') :: d' => if str_eqb k k' then Some v' else dict_get k d'
  end.

Definition schema_t : Type := dict (list column).

Fixpoint get_schema_loop (conn : connection) (tables : list str)
  (schema : schema_t) : result schema_t :=
  match tables with
  | [] => Ok schema
  | t :: tables' =>
      cols <- pragma_table_info conn t ;;
      get_schema_loop conn tables'
        (dict_set t
           (map (fun c => {| col_name := ti_name c; col_type := ti_type c |})
                cols)
           schema)
  end.

Definition get_schema (conn : connection) : result schema_t :=
  get_schema_loop conn (select_table_names conn) [].

Definition schema_as_text (schema : schema_t) : str :=
  join [ch_newline]
    (map (fun tc : str * list column =>
            let (t, cols) := tc in
            lit "- " ++ t ++ lit "(" ++
            join (lit ", ")
                 (map (fun c => col_name c ++ lit " " ++ col_type c) cols) ++
            lit ")")
         schema).

(** [run_query] ([NL2SQL.py] 123-127): iterating over an absent
    [description] raises [TypeError]. *)
Definition run_query (conn : connection) (sql : str)
  : result (list str * list row) :=
  cur <- execute conn sql ;;
  match description cur with
  | None => Raise (TypeError (lit "'NoneType' object is not iterable"))
  | Some cols => Ok (cols, fetchall cur)
  end.

(** ** The text-generation service and the rest of the environment *)

Record chat_request : Type := {
  req_model : str;
  req_temperature : str;
  req_system : str;
  req_user : str
}.

(** The module globals and library calls of the process:
    - [MODEL], read from the environment, and the text of [SYS_PROMPT];
    - [client], [None] when the SDK could not be set up; a client
      answers a request with the [content] of the first choice;
    - [json_dumps], see above;
    - [tabulate], [tabulate(rows, headers=cols, tablefmt="github")]: the
      table as a text, or the exception the library raises on rows it
      cannot lay out;
    - [DataFrame], [pd.DataFrame(rows, columns=cols)], which may raise,
      and [st_dataframe], the widget [st.dataframe(df, ..)], which may
      raise on a frame it cannot display;
    - [write_exports], the directory and file writes of [export_run] for
      a slug, question, SQL text, result and explanation;
    - [db_exists], the test [Path(DB_PATH).exists()]. *)
Record world : Type := {
  MODEL : str;
  SYS_PROMPT : str;
  client : option (chat_request -> result str);
  json_dumps : list row -> result str;
  tabulate : list row -> list str -> result str;
  DataFrame : list row -> list str -> result unit;
  st_dataframe : list str -> list row -> result unit;
  write_exports : str -> str -> str -> list str -> list row -> str -> result unit;
  db_exists : bool
}.

(** ** What the front ends show

    [Print] is a text written by [print]; the [St..] events are the
    widgets of the web page. *)

Inductive output : Type :=
| Print (text : str)
| PrintHistoryEntry (i : Z) (h : hist_item) (shown : list row)
| StWarning (text : str)
| StError (text : str)
| StSuccess (text : str)
| StCode (text : str)
| StDataframe (cols : list str) (rows : list row)
| StExplanation (text : str)
| StToast (text : str)
| StCaption (text : str)
| StHistoryPanel (items : list (Z * hist_item)).

(** ** Stateful computations that may raise

    The state survives an exception, as the mutations of a Python
    program do. *)

Definition M (S A : Type) : Type := S -> result A * S.

Definition ret {S A : Type} (a : A) : M S A := fun s => (Ok a, s).

Definition bindM {S A B : Type} (c : M S A) (k : A -> M S B) : M S B :=
  fun s =>
    match c s with
    | (Ok a, s') => k a s'
    | (Raise e, s') => (Raise e, s')
    end.

Definition lift {S A : Type} (r : result A) : M S A := fun s => (r, s).

(** [try: body / except Exception as e: handler] *)
Definition try_except {S A : Type} (body : M S A) (handler : exn -> M S A)
  : M S A :=
  fun s =>
    match body s with
    | (Ok a, s') => (Ok a, s')
    | (Raise e, s') => handler e s'
    end.

Notation "x <~ c ;; k" := (bindM c (fun x => k))
  (at level 61, c at next level, right associativity).
Notation "c ;;; k" := (bindM c (fun _ => k))
  (at level 61, right associativity).

Definition nonempty {A : Type} (l : list A) : bool :=
  match l with [] => false | _ :: _ => true end.

Definition nl : str := [ch_newline].

Definition drop_prefix (prefix s : str) : option str :=
  if startswith s prefix then Some (skipn (length prefix) s) else None.

Definition endswith (s suffix : str) : bool := startswith (rev s) (rev suffix).

Section Services.
Context {U : Unicode}.
Variable w : world.

(** ** SQL generation ([NL2SQL.py] 89-106) *)

Definition fence : str := lit "```".

(** [re.sub(r"^```(?:sql)?\s*|\s*```$", "", sql)] on a text without
    surrounding whitespace: an opening fence with its optional tag and
    the whitespace after it, then a closing fence with the whitespace
    before it. *)
Definition strip_code_fences (sql : str) : str :=
  let opened :=
    match drop_prefix fence sql with
    | Some r =>
        lstrip_by isspace
          match drop_prefix (lit "sql") r with
          | Some r' => r'
          | None => r
          end
    | None => sql
    end in
  if endswith opened fence
  then rstrip_by isspace (firstn (length opened - 3) opened)
  else opened.

Definition llm_sql (question schema_txt history_txt : str) : result str :=
  match client w with
  | None =>
      Raise (RuntimeError
               (lit "OpenAI SDK not available. `pip install openai` and set OPENAI_API_KEY in .env"))
  | Some create =>
      let user_content :=
        lit "Schema:" ++ nl ++ schema_txt ++ nl ++ nl ++
        (if nonempty history_txt
         then lit "History (use for context if relevant):" ++ nl ++
              history_txt ++ nl ++ nl
         else []) ++
        lit "Question: " ++ question ++ nl ++ lit "SQL:" in
      content <- create {| req_model := MODEL w;
                           req_temperature := lit "0.1";
                           req_system := SYS_PROMPT w;
                           req_user := user_content |} ;;
      Ok (strip (strip_code_fences (strip content)))
  end.

(** ** Explanation ([NL2SQL.py] 108-121) *)

Definition explain_results (question sql : str) (rows_preview : list row)
  : result str :=
  match client w with
  | None => Ok []
  | Some create =>
      preview <- json_dumps w (slice_to 5 rows_preview) ;;
      content <- create {| req_model := MODEL w;
                           req_temperature := lit "0.2";
                           req_system :=
                             lit "Explain query results briefly for a business user in one or two sentences.";
                           req_user :=
                             lit "Question: " ++ question ++ nl ++
                             lit "SQL: " ++ sql ++ nl ++
                             lit "Preview rows: " ++ preview |} ;;
      Ok (strip content)
  end.

(** ** Export ([NL2SQL.py] 129-150) *)

Definition ENABLE_EXPORTS : bool := true.

Definition export_run (slug question sql : str) (cols : list str)
  (rows : list row) (explanation : str) : result unit :=
  if negb ENABLE_EXPORTS then Ok tt
  else write_exports w slug question sql cols rows explanation.

(** [preview = rows[:3] if rows else []] *)
Definition preview_of (rows : list row) : list row :=
  match rows with [] => [] | _ :: _ => slice_to 3 rows end.

(** ** The console loop ([NL2SQL.py] 156-244) *)

(** The state of the console program: the history list, the lines of
    the standard input not read yet, what has been printed, whether the
    connection is open, and the statements [run_query] has passed to
    [conn.execute], oldest first. *)
Record console : Type := {
  history : list hist_item;
  stdin : list str;
  stdout : list output;
  conn_open : bool;
  executed : list str
}.

Inductive control : Type := Continue | Break.

Definition print (o : output) : M console unit :=
  fun st => (Ok tt, {| history := history st; stdin := stdin st;
                       stdout := stdout st ++ [o];
                       conn_open := conn_open st;
                       executed := executed st |}).

Fixpoint print_all (os : list output) : M console unit :=
  match os with
  | [] => ret tt
  | o :: os' => print o ;;; print_all os'
  end.

(** [input(..)]: the next line of the standard input, [EOFError] when
    it is exhausted.  The prompt it writes is not recorded, nor are the
    blank lines and the indentation of the printed texts. *)
Definition input : M console str :=
  fun st =>
    match stdin st with
    | [] => (Raise EOFError, st)
    | line :: rest =>
        (Ok line, {| history := history st; stdin := rest;
                     stdout := stdout st; conn_open := conn_open st;
      executed := executed st |})
    end.

Definition get_history : M console (list hist_item) :=
  fun st => (Ok (history st), st).

Definition set_history (h : list hist_item) : M console unit :=
  fun st => (Ok tt, {| history := h; stdin := stdin st;
                       stdout := stdout st; conn_open := conn_open st;
      executed := executed st |}).

Definition close_conn : M console unit :=
  fun st => (Ok tt, {| history := history st; stdin := stdin st;
                       stdout := stdout st; conn_open := false;
                       executed := executed st |}).

(** The call [run_query(conn, sql)] of [main]: the statement reaches
    the database, which is recorded, and the answer of [run_query], or
    the exception it raises, comes back. *)
Definition console_run_query (conn : connection) (sql : str)
  : M console (list str * list row) :=
  fun st =>
    (run_query conn sql,
     {| history := history st; stdin := stdin st; stdout := stdout st;
        conn_open := conn_open st; executed := executed st ++ [sql] |}).

(** One pass through the body of [while True]. *)
Definition console_iteration (conn : connection) (schema_txt : str)
  : M console control :=
  line <~ input ;;
  let question := strip line in
  let low := lower question in
  if existsb (str_eqb low) [lit "exit"; lit "quit"; lit "q"] then
    print (Print (lit "Exiting. Goodbye!")) ;;; ret Break
  else if str_eqb low (lit ":history") then
    h <~ get_history ;;
    match h with
    | [] => print (Print (lit "(no history)"))
    | _ :: _ =>
        print (Print (lit "--- History (last turns) ---")) ;;;
        print_all
          (map (fun ih : Z * hist_item =>
                  PrintHistoryEntry (fst ih) (snd ih)
                    (slice_to 2 (turn_preview (snd ih))))
               (enumerate 1 (slice_from (- MAX_HISTORY_TURNS) h)))
    end ;;;
    ret Continue
  else if str_eqb low (lit ":clear") then
    set_history [] ;;; print (Print (lit "History cleared.")) ;;;
    ret Continue
  else if str_eqb low (lit ":schema") then
    print (Print (lit "Schema:")) ;;; print (Print schema_txt) ;;;
    ret Continue
  else if negb (nonempty question) then
    print (Print (lit "No question provided. Try again.")) ;;;
    ret Continue
  else
    h <~ get_history ;;
    history_txt <~ lift (build_history_context (json_dumps w) h) ;;
    sql <~ lift (llm_sql question schema_txt history_txt) ;;
    print (Print (lit "--- Generated SQL ---")) ;;;
    print (Print sql) ;;;
    if negb (is_safe_select sql) then
      print (Print (lit "[BLOCKED] The generated SQL is not a single safe SELECT statement.")) ;;;
      ret Continue
    else
      answer <~ input ;;
      let ok := lower (strip answer) in
      if nonempty ok && negb (str_eqb ok (lit "y")) then
        print (Print (lit "Canceled.")) ;;; ret Continue
      else
        cr <~ console_run_query conn sql ;;
        let cols := fst cr in
        let rows := snd cr in
        print (Print (lit "--- Results ---")) ;;;
        (if nonempty rows
         then table <~ lift (tabulate w rows cols) ;; print (Print table)
         else print (Print (lit "(no rows)"))) ;;;
        expl <~ try_except
                  (e <~ lift (explain_results question sql (slice_to 5 rows)) ;;
                   (if nonempty e
                    then print (Print (lit "--- Explanation ---")) ;;;
                         print (Print e)
                    else ret tt) ;;;
                   ret e)
                  (fun _ => ret []) ;;
        h' <~ get_history ;;
        set_history (h' ++ [{| turn_q := question; turn_sql := sql;
                               turn_preview := preview_of rows |}]) ;;;
        try_except
          (lift (export_run (slugify question) question sql cols rows expl))
          (fun _ => ret tt) ;;;
        ret Continue.

(** [while True]: [None] when the fuel runs out before the loop ends. *)
Fixpoint console_loop (fuel : nat) (conn : connection) (schema_txt : str)
  (st : console) : option (result unit * console) :=
  match fuel with
  | O => None
  | S fuel' =>
      match console_iteration conn schema_txt st with
      | (Ok Break, st') => Some (Ok tt, st')
      | (Ok Continue, st') => console_loop fuel' conn schema_txt st'
      | (Raise e, st') => Some (Raise e, st')
      end
  end.

(** [main]: the outcome is what leaves [main], after the [finally]
    clause has closed the connection. *)
Definition main (fuel : nat) (conn : connection) (lines : list str)
  : option (result unit * console) :=
  let st0 := {| history := []; stdin := lines; stdout := [];
                conn_open := true; executed := [] |} in
  if negb (db_exists w) then
    Some (Raise (AssertionError
                   (lit "Chinook_Sqlite.sqlite not found. Run from the folder that contains it.")),
          {| history := []; stdin := lines; stdout := [];
             conn_open := false; executed := [] |})
  else
    match get_schema conn with
    | Raise e => Some (Raise e, snd (close_conn st0))
    | Ok schema =>
        let schema_txt := schema_as_text schema in
        let st1 :=
          snd ((print (Print (lit "Loaded schema:")) ;;;
                print (Print schema_txt) ;;;
                print (Print (lit "Ask questions (e.g., 'Top 5 countries by revenue', 'Which albums have the most tracks?', 'Total revenue by year').")) ;;;
                print (Print (lit "Type ':history' to view history, ':clear' to clear, ':schema' to reprint schema, or 'exit'/'quit' to stop.")))
                 st0) in
        match console_loop fuel conn schema_txt st1 with
        | None => None
        | Some (r, st') => Some (r, snd (close_conn st'))
        end
    end.

(** ** The web form ([app.py])

    The script runs once per interaction, on the session state kept
    between the runs and the values of the widgets. *)

Record web_session : Type := {
  ss_schema_txt : option str;
  ss_history : list hist_item;
  page : list output;
  ss_executed : list str
}.

Record web_inputs : Type := {
  export_enabled : bool;
  max_hist : Z;
  clear_clicked : bool;
  question_input : str;
  run_clicked : bool
}.

Definition show (o : output) : M web_session unit :=
  fun st => (Ok tt, {| ss_schema_txt := ss_schema_txt st;
                       ss_history := ss_history st;
                       page := page st ++ [o];
                       ss_executed := ss_executed st |}).

Definition web_history : M web_session (list hist_item) :=
  fun st => (Ok (ss_history st), st).

Definition set_web_history (h : list hist_item) : M web_session unit :=
  fun st => (Ok tt, {| ss_schema_txt := ss_schema_txt st;
                       ss_history := h; page := page st;
                       ss_executed := ss_executed st |}).

Definition new_page : M web_session unit :=
  fun st => (Ok tt, {| ss_schema_txt := ss_schema_txt st;
                       ss_history := ss_history st; page := [];
                       ss_executed := ss_executed st |}).

(** The call [run_query(st.session_state.conn, sql)]: as in the
    console, the statement sent is recorded. *)
Definition web_run_query (conn : connection) (sql : str)
  : M web_session (list str * list row) :=
  fun st =>
    (run_query conn sql,
     {| ss_schema_txt := ss_schema_txt st; ss_history := ss_history st;
        page := page st; ss_executed := ss_executed st ++ [sql] |}).

(** Lines 32-40: the schema text is computed on the first run. *)
Definition load_schema_txt (conn : connection) : M web_session str :=
  fun st =>
    match ss_schema_txt st with
    | Some txt => (Ok txt, st)
    | None =>
        if db_exists w then
          match get_schema conn with
          | Ok schema =>
              let txt := schema_as_text schema in
              (Ok txt, {| ss_schema_txt := Some txt;
                          ss_history := ss_history st; page := page st;
                          ss_executed := ss_executed st |})
          | Raise e => (Raise e, st)
          end
        else
          let txt := lit "(DB not found)" in
          (Ok txt, {| ss_schema_txt := Some txt;
                      ss_history := ss_history st; page := page st;
                      ss_executed := ss_executed st |})
    end.

(** Lines 66-122: the branch taken when the button [Run] was clicked. *)
Definition handle_run (conn : connection) (inp : web_inputs)
  (schema_txt : str) : M web_session unit :=
  let question := question_input inp in
  if negb (nonempty (strip question)) then
    show (StWarning (lit "Please enter a question."))
  else if negb (db_exists w) then
    show (StError (lit "Database not found: Chinook_Sqlite.sqlite"))
  else
    h <~ web_history ;;
    hist_ctx <~ lift (build_history_context (json_dumps w)
                        (app_history_arg (max_hist inp) h)) ;;
    sql <~ try_except
             (lift (llm_sql (strip question) schema_txt hist_ctx))
             (fun e =>
                show (StError (lit "Failed to generate SQL: " ++ exn_message e)) ;;;
                ret []) ;;
    if negb (nonempty sql) then ret tt
    else
      show (StCode sql) ;;;
      if negb (is_safe_select sql) then
        show (StError (lit "Blocked: not a single safe SELECT statement."))
      else
        df <~ try_except
                (cr <~ web_run_query conn sql ;;
                 lift (DataFrame w (snd cr) (fst cr)) ;;;
                 ret (Some cr))
                (fun e =>
                   show (StError (lit "Query error: " ++ exn_message e)) ;;;
                   ret None) ;;
        match df with
        | None => ret tt
        | Some (cols, rows) =>
            lift (st_dataframe w cols rows) ;;;
            show (StDataframe cols rows) ;;;
            expl <~ try_except
                      (lift (explain_results question sql
                               (if nonempty rows then slice_to 5 rows else [])))
                      (fun _ => ret []) ;;
            (if nonempty expl then show (StExplanation expl) else ret tt) ;;;
            h' <~ web_history ;;
            set_web_history
              (h' ++ [{| turn_q := question; turn_sql := sql;
                         turn_preview := preview_of rows |}]) ;;;
            if export_enabled inp then
              try_except
                (lift (export_run (slugify question) question sql cols rows expl) ;;;
                 show (StToast (lit "Saved to outputs/")))
                (fun e => show (StWarning (lit "Export failed: " ++ exn_message e)))
            else ret tt
        end.

(** One run of the script. *)
Definition app_run (conn : connection) (inp : web_inputs)
  : M web_session unit :=
  new_page ;;;
  schema_txt <~ load_schema_txt conn ;;
  (if clear_clicked inp
   then set_web_history [] ;;; show (StSuccess (lit "History cleared."))
   else ret tt) ;;;
  (if run_clicked inp then handle_run conn inp schema_txt else ret tt) ;;;
  h <~ web_history ;;
  if nonempty h
  then show (StHistoryPanel
               (enumerate 1 (rev (slice_from (- max_hist inp) h))))
  else show (StCaption (lit "No history yet.")).

End Services.

(** The tables restricted to the ASCII range, every other code point
    being an uncased symbol.  It runs the definitions on ASCII texts. *)
#[export, refine] Instance ascii_tables : Unicode := {|
  isspace := ascii_isspace;
  isalnum := ascii_isalnum;
  upper_of := fun c => [ascii_upper c];
  lower := map ascii_lower;
  ignorecase_eq := fun p c => ascii_lower c =? ascii_lower p
|}.
Proof. all: reflexivity. Defined.

(** ** Notions of the specification *)

(** The last character of a text, if any. *)
Definition last_char (s : str) : option char :=
  fold_left (fun _ c => Some c) s None.

(** [w] spells the keyword [kw] in some letter case. *)
Definition case_variant_of (kw w : str) : Prop :=
  Forall2 (fun k c => ascii_lower c = ascii_lower k) kw w.

Section SpecGate.
Context {U : Unicode}.

(** [w] occurs in [text] as a whole word: no word character touches
    it on either side. *)
Definition whole_word_in (w text : str) : Prop :=
  exists pre post,
    text = pre ++ w ++ post /\
    isword_opt (last_char pre) = false /\
    isword_opt (hd_error post) = false.

(** The first token of a text: its longest prefix of word characters. *)
Fixpoint first_token (s : str) : str :=
  match s with
  | [] => []
  | c :: s' => if isword c then c :: first_token s' else []
  end.
End SpecGate.

(** The last [n] turns of a buffer, all of them when it is shorter. *)
Definition last_turns (n : nat) (history : list hist_item) : list hist_item :=
  skipn (length history - n) history.

(** [contextView(maxTurns)] of the specification: the last [maxTurns]
    turns in insertion order, numbered from 1, each reduced to its
    question, its SQL and at most three preview rows. *)
Definition context_view (max_turns : nat) (history : list hist_item)
  : list chunk :=
  map (fun ih : Z * hist_item =>
         {| chunk_no := fst ih;
            chunk_q := turn_q (snd ih);
            chunk_sql := turn_sql (snd ih);
            chunk_preview := firstn 3 (turn_preview (snd ih)) |})
      (enumerate 1 (last_turns max_turns history)).

(** A turn and a buffer of sixteen turns to run the definitions on. *)
Definition sample_turn : hist_item :=
  {| turn_q := lit "How many tracks?";
     turn_sql := lit "SELECT COUNT(*) FROM Track";
     turn_preview := [[SqlInteger 3503]] |}.

Definition sixteen_turns : list hist_item := repeat sample_turn 16.

(** The block of text of one rendered turn: its number, then the
    fields [Q], [SQL] and [PreviewRows], the rows in serialised form. *)
Definition turn_block (no : nat) (t : hist_item) (rows_json : str) : str :=
  lit "Turn " ++ int_str (Z.of_nat no) ++ lit ":" ++ nl ++
  lit "Q: " ++ turn_q t ++ nl ++
  lit "SQL: " ++ turn_sql t ++ nl ++
  lit "PreviewRows: " ++ rows_json ++ nl.

(** The blocks of a list of turns, numbered upwards from [no], given
    the serialised preview of each. *)
Fixpoint turn_blocks (no : nat) (turns : list hist_item) (jsons : list str)
  : list str :=
  match turns, jsons with
  | t :: turns', j :: jsons' =>
      turn_block no t j :: turn_blocks (S no) turns' jsons'
  | _, _ => []
  end.

(** [j] is the serialised form of what a rendered turn shows of its
    preview: the first three rows. *)
Definition serialised (json_dumps : list row -> result str) (t : hist_item)
  (j : str) : Prop :=
  json_dumps (firstn 3 (turn_preview t)) = Ok j.

(** Turns that differ from each other, each with a preview of four
    rows, and the serialised form of the first three of them. *)
Definition numbered_turn (i : nat) : hist_item :=
  {| turn_q := lit "Question " ++ int_str (Z.of_nat i);
     turn_sql := lit "SELECT " ++ int_str (Z.of_nat i);
     turn_preview :=
       map (fun k => [SqlInteger (Z.of_nat (i + k))]) (seq 0 4) |}.

Definition numbered_turns (n : nat) : list hist_item :=
  map numbered_turn (seq 1 n).

Definition numbered_json (i : nat) : str :=
  lit "[[" ++ int_str (Z.of_nat i) ++ lit "], [" ++
  int_str (Z.of_nat (i + 1)) ++ lit "], [" ++
  int_str (Z.of_nat (i + 2)) ++ lit "]]".

(** A turn whose preview holds a BLOB. *)
Definition blob_turn : hist_item :=
  {| turn_q := lit "Which cover is the largest?";
     turn_sql := lit "SELECT Cover FROM Album LIMIT 1";
     turn_preview := [[SqlBlob [137; 80; 78; 71]]] |}.

(** [json.dumps] on the rows of these samples, which hold integers
    and BLOBs: a row is written as the list of its integers, and a
    value that is not an integer raises [TypeError], as [bytes] do. *)
Definition sample_json_row (r : row) : result str :=
  cells <- mapM (fun v =>
                   match v with
                   | SqlInteger z => Ok (int_str z)
                   | _ => Raise (TypeError
                                   (lit "Object of type bytes is not JSON serializable"))
                   end) r ;;
  Ok (lit "[" ++ join (lit ", ") cells ++ lit "]").

Definition sample_json_dumps (rows : list row) : result str :=
  rs <- mapM sample_json_row rows ;;
  Ok (lit "[" ++ join (lit ", ") rs ++ lit "]").

(** The maximal runs of a text, each with its class: inside ([true])
    or outside ([false]) the alphanumeric characters [a-zA-Z0-9]. *)
Fixpoint runs (s : str) : list (bool * str) :=
  match s with
  | [] => []
  | c :: s' =>
      match runs s' with
      | (b, r) :: rest =>
          if Bool.eqb b (ascii_isalnum c) then (b, c :: r) :: rest
          else (ascii_isalnum c, [c]) :: (b, r) :: rest
      | [] => [(ascii_isalnum c, [c])]
      end
  end.

(** Every maximal run of non-alphanumeric characters collapsed to one
    separator. *)
Definition collapse_runs (s : str) : str :=
  flat_map (fun br : bool * str => if fst br then snd br else [ch_dash])
           (runs s).

(** The slug as the specification words it: lowercased, runs collapsed,
    truncated to 40 characters. *)
Definition slug_by_spec (text : str) : str :=
  firstn 40 (map ascii_lower (collapse_runs text)).

(** The names of the catalog entries of type [table]. *)
Definition table_names (conn : connection) : list str :=
  map m_name
      (filter (fun r => str_eqb (m_type r) (lit "table")) (sqlite_master conn)).

(** The order of the names. *)
Definition name_le (a b : str) : Prop := str_leb a b = true.

(** SQLite reserves the names that begin with [sqlite_] for its internal
    tables ([sqlite_sequence], [sqlite_stat1], ...). *)
Definition is_internal_table (name : str) : bool :=
  startswith (map ascii_lower name) (lit "sqlite_").

Definition column_of (c : table_info_row) : column :=
  {| col_name := ti_name c; col_type := ti_type c |}.

(** A database with an [AUTOINCREMENT] key, hence with the internal
    table [sqlite_sequence]; it answers one query and fails on the
    others. *)
Definition info (i : Z) (name type : string) : table_info_row :=
  {| cid := i; ti_name := lit name; ti_type := lit type; ti_notnull := 0;
     ti_dflt_value := SqlNull; ti_pk := 0 |}.

Definition sample_conn : connection :=
  {| sqlite_master :=
       [ {| m_type := lit "table"; m_name := lit "Track" |};
         {| m_type := lit "table"; m_name := lit "sqlite_sequence" |};
         {| m_type := lit "index"; m_name := lit "IFK_TrackAlbumId" |};
         {| m_type := lit "table"; m_name := lit "Album" |} ];
     pragma_table_info := fun t =>
       if str_eqb t (lit "Track") then
         Ok [info 0 "TrackId" "INTEGER"; info 1 "Name" "NVARCHAR(200)";
             info 2 "AlbumId" "INTEGER"]
       else if str_eqb t (lit "Album") then
         Ok [info 0 "AlbumId" "INTEGER"; info 1 "Title" "NVARCHAR(160)"]
       else if str_eqb t (lit "sqlite_sequence") then
         Ok [info 0 "name" ""; info 1 "seq" ""]
       else Ok [];
     execute := fun sql =>
       if str_eqb sql (lit "SELECT COUNT(*) FROM Track") then
         Ok {| description := Some [lit "COUNT(*)"];
               fetchall := [[SqlInteger 3503]] |}
       else Raise (DatabaseError (lit "no such column: Nope")) |}.

(** The inputs the console takes as commands, not as questions. *)
Definition console_command (low : str) : bool :=
  existsb (str_eqb low)
    [lit "exit"; lit "quit"; lit "q"; lit ":history"; lit ":clear";
     lit ":schema"].

(** What the turn prints under [--- Results ---]: the table of
    [tabulate] when there are rows, the text [(no rows)] otherwise; an
    exception when [tabulate] raises. *)
Definition printed_result (w : world) (cols : list str) (rows : list row)
  : result str :=
  if nonempty rows then tabulate w rows cols else Ok (lit "(no rows)").

Section SpecSession.
Context {U : Unicode}.

(** The answers to [Run this query? [Y/n]] that let the query run: the
    empty line and [y], in either case and with spaces around. *)
Definition confirms (answer : str) : bool :=
  let ok := lower (strip answer) in
  negb (nonempty ok && negb (str_eqb ok (lit "y"))).

(** The turn the front ends append for a question, its SQL and the rows
    of the result. *)
Definition turn_of (question sql : str) (rows : list row) : hist_item :=
  {| turn_q := question; turn_sql := sql; turn_preview := preview_of rows |}.
End SpecSession.

(** A generation service that answers one question with a query on a
    column that does not exist and every other question with a count,
    and that fails on every explanation request. *)
Definition sample_client (req : chat_request) : result str :=
  if str_eqb (req_temperature req) (lit "0.1") then
    if endswith (req_user req) (lit "Which track is Nope?" ++ nl ++ lit "SQL:")
    then Ok (lit "SELECT Nope FROM Track")
    else Ok (lit "SELECT COUNT(*) FROM Track")
  else Raise (APIError (lit "service unavailable")).

Definition sample_world : world :=
  {| MODEL := lit "gpt-4o-mini";
     SYS_PROMPT := lit "You are a senior analytics engineer.";
     client := Some sample_client;
     json_dumps := fun _ => Ok (lit "[[3503]]");
     tabulate := fun _ _ => Ok (lit "|   COUNT(*) |");
     DataFrame := fun _ _ => Ok tt;
     st_dataframe := fun _ _ => Ok tt;
     write_exports := fun _ _ _ _ _ _ => Ok tt;
     db_exists := true |}.

Definition sample_console (lines : list str) : console :=
  {| history := []; stdin := lines; stdout := []; conn_open := true;
     executed := [] |}.

Definition sample_inputs (question : string) : web_inputs :=
  {| export_enabled := true; max_hist := 15; clear_clicked := false;
     question_input := lit question; run_clicked := true |}.

Definition sample_session : web_session :=
  {| ss_schema_txt := Some (lit "- Track(TrackId INTEGER)");
     ss_history := []; page := []; ss_executed := [] |}.

(** The lines of the standard input not read yet, and the computations
    that do not put lines back. *)
Definition unread (st : console) : nat := length (stdin st).

Definition keeps_input {A : Type} (c : M console A) : Prop :=
  forall st r st', c st = (r, st') -> (unread st' <= unread st)%nat.

(** A computation leaves a component of the state as it finds it. *)
Definition preserves {S T A : Type} (proj : S -> T) (c : M S A) : Prop :=
  forall st r st', c st = (r, st') -> proj st' = proj st.

Section SpecHistory.
Context {U : Unicode}.

(** A turn whose SQL passes the gate and which the database answered
    without error, with the preview taken from that answer. *)
Definition approved_turn (conn : connection) (t : hist_item) : Prop :=
  is_safe_select (turn_sql t) = true /\
  (length (turn_preview t) <= 3)%nat /\
  exists cols rows,
    run_query conn (turn_sql t) = Ok (cols, rows) /\
    turn_preview t = preview_of rows.
End SpecHistory.

(** A computation that returns, from every state, without raising. *)
Definition never_raises {S A : Type} (c : M S A) : Prop :=
  forall st, exists a st', c st = (Ok a, st').

(** What printing leaves alone in the state of the console. *)
Definition core (st : console)
  : list hist_item * list str * bool * list str :=
  (history st, stdin st, conn_open st, executed st).

(** A generation service that answers every question with a statement
    that drops a table. *)
Definition sample_writer_world : world :=
  {| MODEL := lit "gpt-4o-mini";
     SYS_PROMPT := lit "You are a senior analytics engineer.";
     client := Some (fun _ => Ok (lit "DROP TABLE Track"));
     json_dumps := fun _ => Ok (lit "[[3503]]");
     tabulate := fun _ _ => Ok (lit "|   COUNT(*) |");
     DataFrame := fun _ _ => Ok tt;
     st_dataframe := fun _ _ => Ok tt;
     write_exports := fun _ _ _ _ _ _ => Ok tt;
     db_exists := true |}.

(** A process in which the SDK could not be set up. *)
Definition sample_offline_world : world :=
  {| MODEL := lit "gpt-4o-mini";
     SYS_PROMPT := lit "You are a senior analytics engineer.";
     client := None;
     json_dumps := fun _ => Ok (lit "[[3503]]");
     tabulate := fun _ _ => Ok (lit "|   COUNT(*) |");
     DataFrame := fun _ _ => Ok tt;
     st_dataframe := fun _ _ => Ok tt;
     write_exports := fun _ _ _ _ _ _ => Ok tt;
     db_exists := true |}.

(** The shape of a file-name stem: not empty, at most 40 characters,
    only lowercase letters, digits and ["-"], no ["-"] at either end and
    no two ["-"] in a row. *)
Definition slug_char (c : char) : bool :=
  ascii_islower c || ascii_isdigit c || is_dash c.

Fixpoint dashes_single (s : str) : bool :=
  match s with
  | a :: (b :: _) as rest => negb (is_dash a && is_dash b) && dashes_single rest
  | _ => true
  end.

Definition not_dash (o : option char) : bool :=
  match o with Some c => negb (is_dash c) | None => false end.

Definition slug_shaped (s : str) : bool :=
  (length s <=? 40)%nat && forallb slug_char s &&
  not_dash (hd_error s) && not_dash (last_char s) && dashes_single s.

(** A process in which [tabulate] cannot lay out the rows it is given. *)
Definition sample_ragged_world : world :=
  {| MODEL := lit "gpt-4o-mini";
     SYS_PROMPT := lit "You are a senior analytics engineer.";
     client := Some sample_client;
     json_dumps := fun _ => Ok (lit "[[3503]]");
     tabulate := fun _ _ =>
       Raise (TypeError (lit "unsupported format string passed to bytes.__format__"));
     DataFrame := fun _ _ => Ok tt;
     st_dataframe := fun _ _ => Ok tt;
     write_exports := fun _ _ _ _ _ _ => Ok tt;
     db_exists := true |}.

(** A process whose [json.dumps] is the serialiser of the samples. *)
Definition sample_json_world : world :=
  {| MODEL := lit "gpt-4o-mini";
     SYS_PROMPT := lit "You are a senior analytics engineer.";
     client := Some sample_client;
     json_dumps := sample_json_dumps;
     tabulate := fun _ _ => Ok (lit "|   COUNT(*) |");
     DataFrame := fun _ _ => Ok tt;
     st_dataframe := fun _ _ => Ok tt;
     write_exports := fun _ _ _ _ _ _ => Ok tt;
     db_exists := true |}.

(** A database that answers with two columns of the same name, and a
    process in which [st.dataframe] refuses such a frame. *)
Definition sample_twin_conn : connection :=
  {| sqlite_master := sqlite_master sample_conn;
     pragma_table_info := pragma_table_info sample_conn;
     execute := fun _ =>
       Ok {| description := Some [lit "Name"; lit "Name"];
             fetchall := [[SqlInteger 1; SqlInteger 2]] |} |}.

Definition sample_strict_world : world :=
  {| MODEL := lit "gpt-4o-mini";
     SYS_PROMPT := lit "You are a senior analytics engineer.";
     client := Some sample_client;
     json_dumps := fun _ => Ok (lit "[[1, 2]]");
     tabulate := fun _ _ => Ok (lit "|   Name |   Name |");
     DataFrame := fun _ _ => Ok tt;
     st_dataframe := fun _ _ =>
       Raise (ValueError (lit "Duplicate column names found"));
     write_exports := fun _ _ _ _ _ _ => Ok tt;
     db_exists := true |}.

(** A generation service that wraps its answer in a code fence. *)
Definition sample_fenced_world : world :=
  {| MODEL := lit "gpt-4o-mini";
     SYS_PROMPT := lit "You are a senior analytics engineer.";
     client := Some (fun _ => Ok (lit "```" ++ lit "sql" ++ nl ++
                                  lit "SELECT COUNT(*) FROM Track" ++ nl ++
                                  lit "```"));
     json_dumps := fun _ => Ok (lit "[[3503]]");
     tabulate := fun _ _ => Ok (lit "|   COUNT(*) |");
     DataFrame := fun _ _ => Ok tt;
     st_dataframe := fun _ _ => Ok tt;
     write_exports := fun _ _ _ _ _ _ => Ok tt;
     db_exists := true |}.

(** A database whose catalog can be read while [PRAGMA table_info]
    fails on one of its tables. *)
Definition sample_locked_conn : connection :=
  {| sqlite_master := sqlite_master sample_conn;
     pragma_table_info := fun t =>
       if str_eqb t (lit "Track")
       then Raise (DatabaseError (lit "database is locked"))
       else pragma_table_info sample_conn t;
     execute := execute sample_conn |}.

(** The turns a listing shows: all of them under depth 0 (the slice
    [history[-0:]] is the whole list), the last [depth] otherwise. *)
Definition listed_turns (depth : Z) (history : list hist_item)
  : list hist_item :=
  if (depth =? 0)%Z then history else last_turns (Z.to_nat depth) history.

(* ================================================================== *)
(** * Part II: properties *)
(* ================================================================== *)

(** ** Sequences *)

Lemma slice_to_minus_one {A : Type} (l : list A) :
  slice_to (-1) l = firstn (length l - 1) l.
Proof.
  unfold slice_to. f_equal.
  replace (-1 <? 0)%Z with true by reflexivity.
  lia.
Qed.

Lemma slice_to_nonneg {A : Type} (n : nat) (l : list A) :
  slice_to (Z.of_nat n) l = firstn n l.
Proof.
  unfold slice_to.
  destruct (Z.ltb_spec (Z.of_nat n) 0); [lia|].
  now rewrite Nat2Z.id.
Qed.

Lemma slice_from_neg {A : Type} (n : nat) (l : list A) :
  (0 < n)%nat ->
  slice_from (- Z.of_nat n) l = skipn (length l - n) l.
Proof.
  intros Hn. unfold slice_from. f_equal.
  destruct (Z.ltb_spec (- Z.of_nat n) 0); lia.
Qed.

Lemma In_firstn {A : Type} (n : nat) (l : list A) (x : A) :
  In x (firstn n l) -> In x l.
Proof.
  intros H. rewrite <- (firstn_skipn n l). apply in_or_app. now left.
Qed.

Lemma In_skipn {A : Type} (n : nat) (l : list A) (x : A) :
  In x (skipn n l) -> In x l.
Proof.
  intros H. rewrite <- (firstn_skipn n l). apply in_or_app. now right.
Qed.

Lemma slice_from_zero {A : Type} (l : list A) : slice_from 0 l = l.
Proof. reflexivity. Qed.

Lemma contains_char_true (c : char) (s : str) :
  contains_char c s = true <-> In c s.
Proof.
  unfold contains_char. rewrite existsb_exists. split.
  - intros (x & Hin & Heq). apply N.eqb_eq in Heq. now subst.
  - intros Hin. exists c. split; [assumption | apply N.eqb_refl].
Qed.

Lemma contains_char_false (c : char) (s : str) :
  contains_char c s = false <-> ~ In c s.
Proof.
  rewrite <- contains_char_true. destruct (contains_char c s); split;
    congruence.
Qed.

Lemma startswith_app (a b p : str) :
  startswith a p = true -> startswith (a ++ b) p = true.
Proof.
  revert a. induction p as [|x p IH]; intros a H.
  - now destruct (a ++ b).
  - destruct a as [|c a]; [discriminate|]. simpl in *.
    apply andb_true_iff in H as [H1 H2]. rewrite H1. simpl. now apply IH.
Qed.

(** ** Stripping *)

Lemma lstrip_by_all (p : char -> bool) (s : str) :
  forallb p s = true -> lstrip_by p s = [].
Proof.
  induction s as [|c s IH]; simpl; [reflexivity|].
  intros H. apply andb_true_iff in H as [Hc Hs]. rewrite Hc. now apply IH.
Qed.

Lemma lstrip_by_app (p : char -> bool) (a b : str) :
  lstrip_by p (a ++ b) =
  if forallb p a then lstrip_by p b else lstrip_by p a ++ b.
Proof.
  induction a as [|c a IH]; simpl; [reflexivity|].
  destruct (p c); simpl; [assumption | reflexivity].
Qed.

Lemma strip_by_all (p : char -> bool) (s : str) :
  forallb p s = true -> strip_by p s = [].
Proof.
  intros H. unfold strip_by, rstrip_by. now rewrite (lstrip_by_all p s H).
Qed.

(** [lstrip] splits the text into the stripped characters and a rest
    that does not start with one. *)
Lemma lstrip_by_split (p : char -> bool) (s : str) :
  exists ws, s = ws ++ lstrip_by p s /\ forallb p ws = true.
Proof.
  induction s as [|c s (ws & Heq & Hws)]; simpl.
  - now exists [].
  - destruct (p c) eqn:Hc.
    + exists (c :: ws). simpl. rewrite Hc, Hws. split; [now f_equal | reflexivity].
    + now exists [].
Qed.

Lemma rstrip_by_split (p : char -> bool) (s : str) :
  exists ws, s = rstrip_by p s ++ ws /\ forallb p ws = true.
Proof.
  unfold rstrip_by.
  destruct (lstrip_by_split p (rev s)) as (ws & Heq & Hws).
  exists (rev ws). split.
  - rewrite <- rev_app_distr, <- Heq. now rewrite rev_involutive.
  - rewrite forallb_forall in *. intros x Hx. apply Hws. now apply in_rev.
Qed.

Lemma lstrip_by_app_stop (p : char -> bool) (s : str) (c : char) :
  p c = false -> lstrip_by p (s ++ [c]) = lstrip_by p s ++ [c].
Proof.
  intros Hc. induction s as [|x s IH]; simpl.
  - now rewrite Hc.
  - destruct (p x); [assumption | reflexivity].
Qed.

Lemma rstrip_by_snoc_stop (p : char -> bool) (s : str) (c : char) :
  p c = false -> rstrip_by p (s ++ [c]) = s ++ [c].
Proof.
  intros Hc. unfold rstrip_by. rewrite rev_app_distr. simpl. rewrite Hc.
  simpl. now rewrite rev_involutive.
Qed.

Lemma lstrip_by_incl (p : char -> bool) (s : str) (c : char) :
  In c (lstrip_by p s) -> In c s.
Proof.
  destruct (lstrip_by_split p s) as (ws & Heq & _).
  intros H. rewrite Heq. apply in_or_app. now right.
Qed.

(** ** The ASCII range *)

Ltac ascii_cases :=
  unfold ascii_upper, ascii_lower, ascii_isalnum, ascii_isalpha,
    ascii_isupper, ascii_islower, ascii_isdigit, ascii_isspace, is_ascii,
    ch_semicolon, ch_dash, ch_underscore, ch_newline in *;
  repeat match goal with
         | |- context [N.leb ?a ?b] => destruct (N.leb_spec a b)
         | |- context [N.ltb ?a ?b] => destruct (N.ltb_spec a b)
         | |- context [N.eqb ?a ?b] => destruct (N.eqb_spec a b)
         | H : context [N.leb ?a ?b] |- _ => destruct (N.leb_spec a b)
         | H : context [N.ltb ?a ?b] |- _ => destruct (N.ltb_spec a b)
         | H : context [N.eqb ?a ?b] |- _ => destruct (N.eqb_spec a b)
         end;
  simpl in *; try congruence; try lia.

Lemma variant_of_upper (k c : char) :
  ascii_isupper k = true -> ascii_lower c = ascii_lower k ->
  c < 128 /\ ascii_isalpha c = true.
Proof. intros Hk Hc. split; ascii_cases. Qed.

Lemma alpha_is_ascii (c : char) : ascii_isalpha c = true -> c < 128.
Proof. intros H. ascii_cases. Qed.

Lemma upper_is_alpha (c : char) : ascii_isupper c = true -> ascii_isalpha c = true.
Proof. intros H. unfold ascii_isalpha. now rewrite H. Qed.

Lemma keywords_are_upper (kw : str) :
  In kw WRITE_KEYWORDS ->
  kw <> [] /\ Forall (fun k => ascii_isupper k = true) kw.
Proof.
  intros Hin.
  assert (Hall : forallb (fun kw => nonempty kw && forallb ascii_isupper kw)
                   WRITE_KEYWORDS = true) by reflexivity.
  rewrite forallb_forall in Hall. specialize (Hall kw Hin).
  apply andb_true_iff in Hall as [Hne Hup]. split.
  - now destruct kw.
  - apply Forall_forall. now rewrite forallb_forall in Hup.
Qed.

Section GateProperties.
Context {U : Unicode}.

Lemma isword_alpha (c : char) : ascii_isalpha c = true -> isword c = true.
Proof.
  intros H. unfold isword.
  rewrite isalnum_ascii by now apply alpha_is_ascii.
  unfold ascii_isalnum. now rewrite H.
Qed.

Lemma semicolon_not_space : isspace ch_semicolon = false.
Proof. now rewrite isspace_ascii. Qed.

Lemma semicolon_not_word : isword ch_semicolon = false.
Proof. unfold isword. now rewrite isalnum_ascii. Qed.

Lemma strip_all_space (s : str) : forallb isspace s = true -> strip s = [].
Proof. apply strip_by_all. Qed.

(** *** The keyword search *)

Lemma search_from_cons (prev : option char) (c : char) (rest : str) :
  write_regex_search_from prev (c :: rest) =
  write_regex_match_at prev (c :: rest) ||
  write_regex_search_from (Some c) rest.
Proof. reflexivity. Qed.

Lemma search_from_nil (prev : option char) :
  write_regex_search_from prev [] = false.
Proof.
  simpl. unfold write_regex_match_at. rewrite orb_false_r.
  apply andb_false_iff. right. reflexivity.
Qed.

(** A match somewhere in the text is found by the search. *)
Lemma search_from_skip (pre rest : str) (prev : option char) :
  write_regex_match_at (fold_left (fun _ c => Some c) pre prev) rest = true ->
  write_regex_search_from prev (pre ++ rest) = true.
Proof.
  revert prev. induction pre as [|c pre IH]; intros prev H; simpl in H.
  - destruct rest; simpl; now rewrite H.
  - change ((c :: pre) ++ rest) with (c :: (pre ++ rest)).
    rewrite search_from_cons, (IH _ H). apply orb_true_r.
Qed.

Lemma match_literal_variant (kw w post : str) (prev : option char) :
  Forall (fun k => ascii_isupper k = true) kw ->
  case_variant_of kw w ->
  match_literal kw prev (w ++ post) =
  Some (fold_left (fun _ c => Some c) w prev, post).
Proof.
  intros Hup Hv. revert prev.
  induction Hv as [|k c kw w Hkc Hv IH]; intros prev; [reflexivity|].
  inversion Hup as [|? ? Hk Hup']; subst. simpl.
  destruct (variant_of_upper k c Hk Hkc) as [Hc _].
  rewrite ignorecase_eq_ascii by (auto using upper_is_alpha).
  rewrite Hkc, N.eqb_refl. now apply IH.
Qed.

Lemma last_of_variant_is_word (kw w : str) (prev : option char) :
  kw <> [] ->
  Forall (fun k => ascii_isupper k = true) kw ->
  case_variant_of kw w ->
  isword_opt (fold_left (fun _ c => Some c) w prev) = true.
Proof.
  intros Hne Hup Hv. revert prev Hne.
  induction Hv as [|k c kw w Hkc Hv IH]; intros prev Hne; [congruence|].
  inversion Hup as [|? ? Hk Hup']; subst. simpl.
  destruct Hv as [|k' c' kw' w' Hkc' Hv'].
  - simpl. apply isword_alpha. now destruct (variant_of_upper k c Hk Hkc).
  - apply IH; [assumption | discriminate].
Qed.

Lemma first_of_variant_is_word (kw w post : str) :
  kw <> [] ->
  Forall (fun k => ascii_isupper k = true) kw ->
  case_variant_of kw w ->
  isword_opt (hd_error (w ++ post)) = true.
Proof.
  intros Hne Hup Hv. destruct Hv as [|k c kw w Hkc Hv]; [congruence|].
  inversion Hup as [|? ? Hk Hup']; subst. simpl.
  apply isword_alpha. now destruct (variant_of_upper k c Hk Hkc).
Qed.

Lemma match_at_keyword (kw w post : str) (prev : option char) :
  In kw WRITE_KEYWORDS ->
  case_variant_of kw w ->
  isword_opt prev = false ->
  isword_opt (hd_error post) = false ->
  write_regex_match_at prev (w ++ post) = true.
Proof.
  intros Hin Hv Hprev Hpost.
  destruct (keywords_are_upper kw Hin) as [Hne Hup].
  unfold write_regex_match_at. apply andb_true_iff. split.
  - unfold word_boundary.
    now rewrite Hprev, (first_of_variant_is_word kw w post Hne Hup Hv).
  - apply existsb_exists. exists kw. split; [assumption|].
    rewrite (match_literal_variant kw w post prev Hup Hv).
    unfold word_boundary.
    now rewrite Hpost, (last_of_variant_is_word kw w prev Hne Hup Hv).
Qed.

(** C1. Every candidate text that contains one of the keywords INSERT,
    UPDATE, DELETE, ALTER, DROP, TRUNCATE, CREATE, REPLACE, ATTACH,
    DETACH, PRAGMA as a whole word, in any letter case and anywhere in
    the text (a quoted literal is no exception: the text around the
    word is arbitrary), is rejected by [is_safe_select]. *)
Theorem is_safe_select_rejects_write_keyword (text kw w : str) :
  In kw WRITE_KEYWORDS ->
  case_variant_of kw w ->
  whole_word_in w text ->
  is_safe_select text = false.
Proof.
  intros Hin Hv (pre & post & -> & Hpre & Hpost).
  unfold is_safe_select.
  destruct (contains_char ch_semicolon _); [reflexivity|].
  assert (Hs : WRITE_REGEX_search (pre ++ w ++ post) = true).
  { unfold WRITE_REGEX_search. apply search_from_skip.
    now apply (match_at_keyword kw). }
  now rewrite Hs.
Qed.

(** C10. [is_safe_select] is a total function, and on the empty text
    and on every text made of whitespace only it returns false: the
    trimmed text is empty, dropping its last character leaves it
    empty, and it does not start with SELECT. *)
Theorem is_safe_select_blank (sql : str) :
  forallb isspace sql = true ->
  slice_to (-1) (strip sql) = [] /\ is_safe_select sql = false.
Proof.
  intros H. unfold is_safe_select. rewrite (strip_all_space sql H).
  split; [reflexivity|]. simpl.
  now destruct (WRITE_REGEX_search sql).
Qed.

End GateProperties.

Lemma is_safe_select_rejects_write_keyword_witness :
  In (lit "DROP") WRITE_KEYWORDS /\
  case_variant_of (lit "DROP") (lit "Drop") /\
  @whole_word_in ascii_tables (lit "Drop") (lit "SELECT 'Drop' FROM t") /\
  @is_safe_select ascii_tables (lit "SELECT 'Drop' FROM t") = false.
Proof.
  assert (H1 : In (lit "DROP") WRITE_KEYWORDS).
  { simpl. do 4 right. now left. }
  assert (H2 : case_variant_of (lit "DROP") (lit "Drop")).
  { repeat constructor. }
  assert (H3 : @whole_word_in ascii_tables (lit "Drop") (lit "SELECT 'Drop' FROM t")).
  { exists (lit "SELECT '"), (lit "' FROM t"). repeat split. }
  split; [exact H1 | split; [exact H2 | split; [exact H3 |]]].
  exact (@is_safe_select_rejects_write_keyword ascii_tables _ _ _ H1 H2 H3).
Defined.

Lemma is_safe_select_blank_witness :
  forallb (@isspace ascii_tables) [32; 9; 10] = true /\
  slice_to (-1) (@strip ascii_tables [32; 9; 10]) = [] /\
  @is_safe_select ascii_tables [32; 9; 10] = false.
Proof.
  split; [reflexivity|].
  apply (@is_safe_select_blank ascii_tables [32; 9; 10]). reflexivity.
Defined.

(** ** ASCII texts do not depend on the tables outside ASCII *)

Lemma is_ascii_lt (c : char) : is_ascii c = true <-> c < 128.
Proof. apply N.ltb_lt. Qed.

Lemma existsb_ext_in {A : Type} (f g : A -> bool) (l : list A) :
  (forall x, In x l -> f x = g x) -> existsb f l = existsb g l.
Proof.
  induction l as [|a l IH]; intros H; simpl; [reflexivity|].
  rewrite (H a) by now left. f_equal. apply IH. intros x Hx. apply H. now right.
Qed.

Lemma lstrip_by_ext_in (p q : char -> bool) (s : str) :
  (forall c, In c s -> p c = q c) -> lstrip_by p s = lstrip_by q s.
Proof.
  induction s as [|c s IH]; intros H; simpl; [reflexivity|].
  rewrite (H c) by now left. destruct (q c); [|reflexivity].
  apply IH. intros x Hx. apply H. now right.
Qed.

Lemma strip_by_ext_in (p q : char -> bool) (s : str) :
  (forall c, In c s -> p c = q c) -> strip_by p s = strip_by q s.
Proof.
  intros H. unfold strip_by, rstrip_by.
  rewrite (lstrip_by_ext_in p q s H). f_equal.
  apply lstrip_by_ext_in. intros c Hc. apply H.
  apply in_rev in Hc. now apply lstrip_by_incl in Hc.
Qed.

Lemma strip_by_incl (p : char -> bool) (s : str) (c : char) :
  In c (strip_by p s) -> In c s.
Proof.
  unfold strip_by, rstrip_by. intros H. apply in_rev in H.
  apply lstrip_by_incl in H. apply in_rev in H.
  now apply lstrip_by_incl in H.
Qed.

Section AsciiTransfer.
Context {U : Unicode}.

Lemma strip_ascii (s : str) :
  forallb is_ascii s = true -> @strip U s = @strip ascii_tables s.
Proof.
  intros H. apply strip_by_ext_in. intros c Hc.
  rewrite forallb_forall in H. apply isspace_ascii, is_ascii_lt. auto.
Qed.

Lemma upper_ascii (s : str) :
  forallb is_ascii s = true -> @upper U s = @upper ascii_tables s.
Proof.
  induction s as [|c s IH]; simpl; [reflexivity|]. intros H.
  apply andb_true_iff in H as [Hc Hs].
  rewrite upper_of_ascii by now apply is_ascii_lt.
  simpl. f_equal. now apply IH.
Qed.

Lemma isword_ascii (c : char) :
  is_ascii c = true -> @isword U c = @isword ascii_tables c.
Proof.
  intros H. unfold isword. rewrite isalnum_ascii by now apply is_ascii_lt.
  reflexivity.
Qed.

Lemma word_boundary_ascii (prev : option char) (rest : str) :
  ascii_opt prev = true -> forallb is_ascii rest = true ->
  @word_boundary U prev rest = @word_boundary ascii_tables prev rest.
Proof.
  intros Hp Hr. unfold word_boundary. f_equal.
  - destruct prev; [now apply isword_ascii | reflexivity].
  - destruct rest as [|c rest]; [reflexivity|]. simpl in *.
    apply andb_true_iff in Hr as [Hc _]. now apply isword_ascii.
Qed.

Lemma alternative_ascii (kw rest : str) (prev : option char) :
  Forall (fun k => ascii_isupper k = true) kw ->
  ascii_opt prev = true -> forallb is_ascii rest = true ->
  match @match_literal U kw prev rest with
  | Some (prev', rest') => @word_boundary U prev' rest'
  | None => false
  end =
  match @match_literal ascii_tables kw prev rest with
  | Some (prev', rest') => @word_boundary ascii_tables prev' rest'
  | None => false
  end.
Proof.
  intros Hup. revert prev rest.
  induction Hup as [|k kw Hk Hup IH]; intros prev rest Hp Hr; simpl.
  - now apply word_boundary_ascii.
  - destruct rest as [|c rest]; [reflexivity|]. simpl in Hr.
    apply andb_true_iff in Hr as [Hc Hr].
    rewrite ignorecase_eq_ascii
      by (auto using upper_is_alpha; now apply is_ascii_lt).
    destruct (ascii_lower c =? ascii_lower k); [|reflexivity].
    now apply IH.
Qed.

Lemma match_at_ascii (prev : option char) (rest : str) :
  ascii_opt prev = true -> forallb is_ascii rest = true ->
  @write_regex_match_at U prev rest =
  @write_regex_match_at ascii_tables prev rest.
Proof.
  intros Hp Hr. unfold write_regex_match_at.
  rewrite (word_boundary_ascii prev rest Hp Hr). f_equal.
  apply existsb_ext_in. intros kw Hkw.
  apply alternative_ascii; try assumption.
  now destruct (keywords_are_upper kw Hkw).
Qed.

Lemma search_from_ascii (prev : option char) (rest : str) :
  ascii_opt prev = true -> forallb is_ascii rest = true ->
  @write_regex_search_from U prev rest =
  @write_regex_search_from ascii_tables prev rest.
Proof.
  revert prev. induction rest as [|c rest IH]; intros prev Hp Hr.
  - simpl. now rewrite (match_at_ascii prev [] Hp).
  - rewrite !search_from_cons, (match_at_ascii prev (c :: rest) Hp Hr).
    simpl in Hr. apply andb_true_iff in Hr as [Hc Hr].
    now rewrite (IH (Some c) Hc Hr).
Qed.

(** On an ASCII text the gate gives the answer computed with the ASCII
    tables, whatever the tables say elsewhere. *)
Lemma is_safe_select_ascii (sql : str) :
  forallb is_ascii sql = true ->
  @is_safe_select U sql = @is_safe_select ascii_tables sql.
Proof.
  intros H. unfold is_safe_select, WRITE_REGEX_search.
  rewrite (strip_ascii sql H), (search_from_ascii None sql eq_refl H).
  rewrite upper_ascii; [reflexivity|].
  apply forallb_forall. intros c Hc. apply strip_by_incl in Hc.
  rewrite forallb_forall in H. auto.
Qed.

End AsciiTransfer.

(** ** Statement separators and the SELECT prefix *)

Section GateStatements.
Context {U : Unicode}.

Lemma separator_not_word (c : char) : is_separator c = true -> isword c = false.
Proof.
  unfold is_separator, isword. intros H.
  apply andb_true_iff in H as [H Hu]. apply andb_true_iff in H as [Ha Hn].
  rewrite isalnum_ascii by now apply is_ascii_lt.
  apply negb_true_iff in Hn, Hu. now rewrite Hn, Hu.
Qed.

Lemma separator_not_letter (k c : char) :
  ascii_isupper k = true -> is_separator c = true -> ignorecase_eq k c = false.
Proof.
  intros Hk Hc. unfold is_separator in Hc.
  apply andb_true_iff in Hc as [Hc _]. apply andb_true_iff in Hc as [Ha Hn].
  apply negb_true_iff in Hn.
  rewrite ignorecase_eq_ascii
    by (auto using upper_is_alpha; now apply is_ascii_lt).
  apply N.eqb_neq. clear Ha. ascii_cases.
Qed.

Lemma semicolon_is_separator : is_separator ch_semicolon = true.
Proof. reflexivity. Qed.

Lemma space_is_separator (c : char) :
  ascii_isspace c = true -> is_separator c = true.
Proof. intros H. unfold is_separator. ascii_cases. Qed.

Lemma ascii_space_is_space (c : char) : ascii_isspace c = true -> isspace c = true.
Proof. intros H. rewrite isspace_ascii; [assumption|]. ascii_cases. Qed.

Lemma word_boundary_snoc_separator (prev : option char) (rest : str) (c : char) :
  is_separator c = true ->
  word_boundary prev (rest ++ [c]) = word_boundary prev rest.
Proof.
  intros Hc. unfold word_boundary. destruct rest; simpl; [|reflexivity].
  now rewrite (separator_not_word c Hc).
Qed.

Lemma alternative_snoc_separator (kw rest : str) (prev : option char) (c : char) :
  is_separator c = true ->
  Forall (fun k => ascii_isupper k = true) kw ->
  match match_literal kw prev (rest ++ [c]) with
  | Some (prev', rest') => word_boundary prev' rest'
  | None => false
  end =
  match match_literal kw prev rest with
  | Some (prev', rest') => word_boundary prev' rest'
  | None => false
  end.
Proof.
  intros Hc Hup. revert prev rest.
  induction Hup as [|k kw Hk Hup IH]; intros prev rest; simpl.
  - now apply word_boundary_snoc_separator.
  - destruct rest as [|x rest]; simpl.
    + now rewrite (separator_not_letter k c Hk Hc).
    + destruct (ignorecase_eq k x); [apply IH | reflexivity].
Qed.

Lemma match_at_snoc_separator (prev : option char) (rest : str) (c : char) :
  is_separator c = true ->
  write_regex_match_at prev (rest ++ [c]) = write_regex_match_at prev rest.
Proof.
  intros Hc. unfold write_regex_match_at.
  rewrite (word_boundary_snoc_separator prev rest c Hc). f_equal.
  apply existsb_ext_in. intros kw Hkw.
  apply alternative_snoc_separator; [assumption|].
  now destruct (keywords_are_upper kw Hkw).
Qed.

(** A character that is neither a word character nor a letter, put at
    the end of the text, does not change the keyword search. *)
Lemma search_from_snoc_separator (prev : option char) (rest : str) (c : char) :
  is_separator c = true ->
  write_regex_search_from prev (rest ++ [c]) =
  write_regex_search_from prev rest.
Proof.
  intros Hc. revert prev. induction rest as [|x rest IH]; intros prev.
  - change ([] ++ [c]) with [c].
    rewrite search_from_cons, (search_from_nil (Some c)), orb_false_r.
    change [c] with ([] ++ [c]).
    rewrite (match_at_snoc_separator prev [] c Hc). simpl.
    now rewrite orb_false_r.
  - change ((x :: rest) ++ [c]) with (x :: (rest ++ [c])).
    rewrite !search_from_cons, IH. f_equal.
    apply (match_at_snoc_separator prev (x :: rest) c Hc).
Qed.

Lemma search_from_app_separators (prev : option char) (rest seps : str) :
  forallb is_separator seps = true ->
  write_regex_search_from prev (rest ++ seps) =
  write_regex_search_from prev rest.
Proof.
  revert rest. induction seps as [|c seps IH]; intros rest H.
  - now rewrite app_nil_r.
  - simpl in H. apply andb_true_iff in H as [Hc Hs].
    change (c :: seps) with ([c] ++ seps). rewrite app_assoc, (IH _ Hs).
    now apply search_from_snoc_separator.
Qed.

Lemma rstrip_by_app_all (p : char -> bool) (s ws : str) :
  forallb p ws = true -> rstrip_by p (s ++ ws) = rstrip_by p s.
Proof.
  revert s. induction ws as [|c ws IH]; intros s H.
  - now rewrite app_nil_r.
  - simpl in H. apply andb_true_iff in H as [Hc Hs].
    change (c :: ws) with ([c] ++ ws). rewrite app_assoc, (IH _ Hs).
    unfold rstrip_by. rewrite rev_app_distr. simpl. now rewrite Hc.
Qed.

(** The trimmed text of a statement closed by a semicolon and followed
    by whitespace. *)
Lemma strip_terminated (body ws : str) :
  forallb isspace ws = true ->
  strip (body ++ [ch_semicolon] ++ ws) =
  lstrip_by isspace body ++ [ch_semicolon].
Proof.
  intros Hws. unfold strip, strip_by.
  rewrite lstrip_by_app.
  replace (if forallb isspace body
           then lstrip_by isspace ([ch_semicolon] ++ ws)
           else lstrip_by isspace body ++ [ch_semicolon] ++ ws)
    with ((lstrip_by isspace body ++ [ch_semicolon]) ++ ws).
  - rewrite (rstrip_by_app_all _ _ _ Hws).
    apply rstrip_by_snoc_stop, semicolon_not_space.
  - destruct (forallb isspace body) eqn:Hb.
    + rewrite (lstrip_by_all _ _ Hb). simpl. now rewrite semicolon_not_space.
    + now rewrite <- app_assoc.
Qed.

Lemma inner_semicolon_free (body ws : str) :
  ~ In ch_semicolon body ->
  forallb isspace ws = true ->
  contains_char ch_semicolon (slice_to (-1) (strip body)) = false /\
  contains_char ch_semicolon
    (slice_to (-1) (strip (body ++ [ch_semicolon] ++ ws))) = false.
Proof.
  intros Hno Hws. split; apply contains_char_false; intros Hin;
    rewrite slice_to_minus_one in Hin.
  - apply In_firstn in Hin. now apply strip_by_incl in Hin.
  - rewrite (strip_terminated body ws Hws), length_app in Hin. simpl in Hin.
    replace (length (lstrip_by isspace body) + 1 - 1)%nat
      with (length (lstrip_by isspace body) + 0)%nat in Hin by lia.
    rewrite firstn_app_2 in Hin. simpl in Hin. rewrite app_nil_r in Hin.
    now apply lstrip_by_incl in Hin.
Qed.

(** C2. A semicolon at any position of the trimmed text before its
    final character makes [is_safe_select] return false.  A text
    without semicolon, and the same text closed by one semicolon (with
    or without whitespace after it), are not rejected by this rule; and
    when the text without the terminator is accepted, so is the
    terminated one.  The chained statements
    [SELECT * FROM Track; DROP TABLE Track;] are rejected. *)
Theorem is_safe_select_single_statement :
  (forall (sql : str) (i : nat),
      nth_error (strip sql) i = Some ch_semicolon ->
      (i + 1 < length (strip sql))%nat ->
      is_safe_select sql = false) /\
  (forall body ws : str,
      ~ In ch_semicolon body ->
      forallb ascii_isspace ws = true ->
      contains_char ch_semicolon (slice_to (-1) (strip body)) = false /\
      contains_char ch_semicolon
        (slice_to (-1) (strip (body ++ [ch_semicolon] ++ ws))) = false /\
      (is_safe_select body = true ->
       is_safe_select (body ++ [ch_semicolon] ++ ws) = true)) /\
  is_safe_select (lit "SELECT * FROM Track; DROP TABLE Track;") = false.
Proof.
  split; [|split].
  - intros sql i Hnth Hi. unfold is_safe_select.
    replace (contains_char ch_semicolon (slice_to (-1) (strip sql)))
      with true; [reflexivity|].
    symmetry. apply contains_char_true. rewrite slice_to_minus_one.
    apply (nth_error_In _ i). rewrite nth_error_firstn.
    destruct (Nat.ltb_spec i (length (strip sql) - 1)); [assumption | lia].
  - intros body ws Hno Hascii.
    assert (Hws : forallb isspace ws = true).
    { rewrite forallb_forall in *. auto using ascii_space_is_space. }
    assert (Hseps : forallb is_separator ([ch_semicolon] ++ ws) = true).
    { simpl. rewrite forallb_forall in *. auto using space_is_separator. }
    destruct (inner_semicolon_free body ws Hno Hws) as [H1 H2].
    split; [assumption | split; [assumption|]].
    unfold is_safe_select. rewrite H1, H2.
    unfold WRITE_REGEX_search.
    rewrite (search_from_app_separators None body _ Hseps).
    destruct (write_regex_search_from None body); [discriminate|].
    intros Hsel. rewrite (strip_terminated body ws Hws).
    unfold strip, strip_by in Hsel.
    destruct (rstrip_by_split isspace (lstrip_by isspace body))
      as (tail & Heq & _).
    rewrite Heq, <- app_assoc. unfold upper. rewrite flat_map_app.
    now apply startswith_app.
  - now rewrite is_safe_select_ascii.
Qed.

(** C3 (amended). [is_safe_select] returns true only if the trimmed,
    upper-cased text has the six characters SELECT as a prefix, and
    every text without that prefix is rejected; the test is a prefix
    test, so the word need not end there ([SELECTED] passes); the
    lowercase candidate [select * from track] is accepted. *)
Theorem is_safe_select_select_prefix :
  (forall sql : str,
      is_safe_select sql = true ->
      startswith (upper (strip sql)) (lit "SELECT") = true) /\
  (forall sql : str,
      startswith (upper (strip sql)) (lit "SELECT") = false ->
      is_safe_select sql = false) /\
  is_safe_select (lit "SELECTED") = true /\
  is_safe_select (lit "select * from track") = true.
Proof.
  split; [|split; [|split]].
  - intros sql. unfold is_safe_select.
    destruct (contains_char _ _); [discriminate|].
    now destruct (WRITE_REGEX_search sql).
  - intros sql H. unfold is_safe_select. rewrite H.
    destruct (contains_char _ _); [reflexivity|].
    now destruct (WRITE_REGEX_search sql).
  - now rewrite is_safe_select_ascii.
  - now rewrite is_safe_select_ascii.
Qed.

End GateStatements.

Lemma is_safe_select_single_statement_witness :
  @is_safe_select ascii_tables (lit "SELECT 1; SELECT 2") = false /\
  @is_safe_select ascii_tables (lit "SELECT Name FROM Track;") = true.
Proof.
  destruct (@is_safe_select_single_statement ascii_tables) as (H1 & H2 & _).
  split.
  - apply (H1 (lit "SELECT 1; SELECT 2") 8%nat); [reflexivity | simpl; lia].
  - apply (H2 (lit "SELECT Name FROM Track") []); [|reflexivity|reflexivity].
    simpl. intros H.
    repeat (destruct H as [H|H]; [discriminate H|]). exact H.
Defined.

Lemma is_safe_select_select_prefix_witness :
  startswith (@upper ascii_tables (@strip ascii_tables (lit "  select 1")))
    (lit "SELECT") = true /\
  @is_safe_select ascii_tables (lit "DELETE FROM Track") = false.
Proof.
  destruct (@is_safe_select_select_prefix ascii_tables) as (H1 & H2 & _).
  split.
  - apply (H1 (lit "  select 1")). reflexivity.
  - apply (H2 (lit "DELETE FROM Track")). reflexivity.
Defined.

(** C3, as stated, fails: [SELECTED] is accepted although its first
    token is not SELECT. *)
Lemma is_safe_select_accepts_longer_first_token :
  @is_safe_select ascii_tables (lit "SELECTED") = true /\
  @first_token ascii_tables
    (@upper ascii_tables (@strip ascii_tables (lit "SELECTED")))
  <> lit "SELECT".
Proof. split; [reflexivity | discriminate]. Qed.

(** ** The history context *)

Lemma enumerate_length {A : Type} (start : Z) (l : list A) :
  length (enumerate start l) = length l.
Proof.
  revert start. induction l as [|a l IH]; intros start; simpl; [reflexivity|].
  now rewrite IH.
Qed.

Lemma enumerate_snoc {A : Type} (start : Z) (l : list A) (a : A) :
  enumerate start (l ++ [a]) =
  enumerate start l ++ [((start + Z.of_nat (length l))%Z, a)].
Proof.
  revert start. induction l as [|b l IH]; intros start;
    cbn [enumerate app length].
  - now rewrite Z.add_0_r.
  - rewrite IH. do 3 f_equal. f_equal. lia.
Qed.

Lemma last_turns_length (n : nat) (h : list hist_item) :
  length (last_turns n h) = Nat.min n (length h).
Proof. unfold last_turns. rewrite length_skipn. lia. Qed.

Lemma slice_to_three {A : Type} (l : list A) : slice_to 3 l = firstn 3 l.
Proof. exact (slice_to_nonneg 3 l). Qed.

Lemma preview_of_length (rows : list row) : (length (preview_of rows) <= 3)%nat.
Proof.
  unfold preview_of. destruct rows; [simpl; lia|].
  rewrite slice_to_three. apply firstn_le_length.
Qed.

Lemma chunks_of_eq (h : list hist_item) :
  map (fun ih : Z * hist_item =>
         let (i, t) := ih in
         {| chunk_no := i; chunk_q := turn_q t; chunk_sql := turn_sql t;
            chunk_preview := slice_to 3 (turn_preview t) |})
      (enumerate 1 h) =
  map (fun ih : Z * hist_item =>
         {| chunk_no := fst ih; chunk_q := turn_q (snd ih);
            chunk_sql := turn_sql (snd ih);
            chunk_preview := firstn 3 (turn_preview (snd ih)) |})
      (enumerate 1 h).
Proof.
  apply map_ext. intros [i t]. simpl. now rewrite slice_to_three.
Qed.

(** [build_history_context] renders the last fifteen turns. *)
Lemma history_chunks_console (h : list hist_item) :
  history_chunks h = context_view 15 h.
Proof.
  unfold history_chunks, context_view, last_turns.
  change (- MAX_HISTORY_TURNS)%Z with (- Z.of_nat 15)%Z.
  rewrite slice_from_neg by lia. apply chunks_of_eq.
Qed.

Lemma app_history_arg_last (n : Z) (h : list hist_item) :
  (0 <= n)%Z -> app_history_arg n h = last_turns (Z.to_nat n) h.
Proof.
  intros Hn. unfold app_history_arg, last_turns.
  destruct (Z.eqb_spec n 0) as [->|Hne].
  - simpl. rewrite Nat.sub_0_r. symmetry. apply skipn_all.
  - replace n with (Z.of_nat (Z.to_nat n)) at 1 by lia.
    apply slice_from_neg. lia.
Qed.

Lemma last_turns_twice (m n : nat) (h : list hist_item) :
  last_turns m (last_turns n h) = last_turns (Nat.min n m) h.
Proof.
  unfold last_turns. rewrite length_skipn, skipn_skipn. f_equal. lia.
Qed.

(** What the web form renders for the configured depth [max_hist]. *)
Lemma history_chunks_web (n : Z) (h : list hist_item) :
  (0 <= n)%Z ->
  history_chunks (app_history_arg n h) = context_view (Nat.min (Z.to_nat n) 15) h.
Proof.
  intros Hn. rewrite history_chunks_console, (app_history_arg_last n h Hn).
  unfold context_view. now rewrite last_turns_twice.
Qed.

Lemma context_view_length (k : nat) (h : list hist_item) :
  length (context_view k h) = Nat.min k (length h).
Proof.
  unfold context_view. now rewrite length_map, enumerate_length, last_turns_length.
Qed.

Lemma context_view_previews (k : nat) (h : list hist_item) :
  Forall (fun c => (length (chunk_preview c) <= 3)%nat) (context_view k h).
Proof.
  unfold context_view. apply Forall_forall. intros c Hc.
  apply in_map_iff in Hc as (ih & <- & _). cbn [chunk_preview].
  apply firstn_le_length.
Qed.

(** *** The text of the context *)

Lemma chunks_render (json_dumps : list row -> result str)
  (turns : list hist_item) (jsons : list str) (start : nat) :
  Forall2 (serialised json_dumps) turns jsons ->
  mapM (chunk_text json_dumps)
       (map (fun ih : Z * hist_item =>
               {| chunk_no := fst ih; chunk_q := turn_q (snd ih);
                  chunk_sql := turn_sql (snd ih);
                  chunk_preview := firstn 3 (turn_preview (snd ih)) |})
            (enumerate (Z.of_nat start) turns)) =
  Ok (turn_blocks start turns jsons).
Proof.
  intros H. revert start.
  induction H as [|t j turns jsons Hj _ IH]; intros start; [reflexivity|].
  cbn [enumerate map mapM turn_blocks]. unfold chunk_text at 1.
  cbn [chunk_no chunk_q chunk_sql chunk_preview fst snd].
  unfold serialised in Hj. rewrite Hj. cbn [bind].
  replace (Z.of_nat start + 1)%Z with (Z.of_nat (S start)) by lia.
  rewrite IH. reflexivity.
Qed.

(** The early return on an empty history agrees with the general case. *)
Lemma build_history_context_chunks (json_dumps : list row -> result str)
  (h : list hist_item) :
  build_history_context json_dumps h =
  (chunks <- mapM (chunk_text json_dumps) (history_chunks h) ;;
   Ok (join [ch_newline] chunks)).
Proof. now destruct h. Qed.

(** The text [build_history_context] returns when the previews of the
    last fifteen turns can be serialised. *)
Lemma build_history_context_renders (json_dumps : list row -> result str)
  (h : list hist_item) (jsons : list str) :
  Forall2 (serialised json_dumps) (last_turns 15 h) jsons ->
  build_history_context json_dumps h =
  Ok (join nl (turn_blocks 1 (last_turns 15 h) jsons)).
Proof.
  intros H. rewrite build_history_context_chunks, history_chunks_console.
  unfold context_view. change 1%Z with (Z.of_nat 1).
  now rewrite (chunks_render json_dumps _ jsons 1 H).
Qed.

(** The same for the argument the web form passes. *)
Lemma web_context_renders (json_dumps : list row -> result str)
  (max_hist : Z) (h : list hist_item) (jsons : list str) :
  (0 <= max_hist)%Z ->
  Forall2 (serialised json_dumps)
          (last_turns (Nat.min (Z.to_nat max_hist) 15) h) jsons ->
  build_history_context json_dumps (app_history_arg max_hist h) =
  Ok (join nl (turn_blocks 1 (last_turns (Nat.min (Z.to_nat max_hist) 15) h)
                 jsons)).
Proof.
  intros Hn H.
  rewrite build_history_context_chunks, (history_chunks_web max_hist h Hn).
  unfold context_view. change 1%Z with (Z.of_nat 1).
  now rewrite (chunks_render json_dumps _ jsons 1 H).
Qed.

Lemma last_turns_suffix (k : nat) (h : list hist_item) :
  exists older, h = older ++ last_turns k h.
Proof.
  exists (firstn (length h - k) h). unfold last_turns.
  symmetry. apply firstn_skipn.
Qed.

(** C5 (amended). When [json.dumps] serialises the previews it is
    given, [build_history_context] returns the text made of the blocks
    of exactly the last [MAX_HISTORY_TURNS] = 15 turns of the buffer
    (all of them when it is shorter), and in the web form, for a
    configured depth [max_hist] between 0 and 50, of exactly the last
    min([max_hist], 15) turns; the blocks come in insertion order,
    numbered from 1, each with the question, the SQL and the serialised
    form of at most the first three preview rows of its turn, however
    many rows the turn holds. *)
Theorem history_context_is_bounded (json_dumps : list row -> result str) :
  (forall (h : list hist_item) (jsons : list str),
      Forall2 (serialised json_dumps) (last_turns 15 h) jsons ->
      build_history_context json_dumps h =
      Ok (join nl (turn_blocks 1 (last_turns 15 h) jsons))) /\
  (forall (max_hist : Z) (h : list hist_item) (jsons : list str),
      (0 <= max_hist <= 50)%Z ->
      Forall2 (serialised json_dumps)
              (last_turns (Nat.min (Z.to_nat max_hist) 15) h) jsons ->
      build_history_context json_dumps (app_history_arg max_hist h) =
      Ok (join nl
            (turn_blocks 1 (last_turns (Nat.min (Z.to_nat max_hist) 15) h)
               jsons))) /\
  (forall (k : nat) (h : list hist_item),
      length (last_turns k h) = Nat.min k (length h) /\
      (exists older, h = older ++ last_turns k h) /\
      Forall (fun t => (length (firstn 3 (turn_preview t)) <= 3)%nat)
             (last_turns k h)).
Proof.
  split; [|split].
  - intros h jsons H. now apply build_history_context_renders.
  - intros n h jsons [Hn _] H. now apply web_context_renders.
  - intros k h. split; [apply last_turns_length|].
    split; [apply last_turns_suffix|].
    apply Forall_forall. intros t _. apply firstn_le_length.
Qed.

Lemma history_context_is_bounded_witness :
  build_history_context sample_json_dumps
    (app_history_arg 2 (numbered_turns 16)) =
  Ok (join nl
        (turn_blocks 1
           (last_turns (Nat.min (Z.to_nat 2) 15) (numbered_turns 16))
           [numbered_json 15; numbered_json 16])).
Proof.
  destruct (history_context_is_bounded sample_json_dumps) as (_ & H & _).
  apply (H 2%Z (numbered_turns 16) [numbered_json 15; numbered_json 16]).
  - lia.
  - vm_compute. repeat constructor.
Defined.

(** C5, as stated, fails: with the depth set to 16 the web form renders
    the last fifteen of the sixteen turns of the buffer, the blocks of
    the turns 2 to 16, and not the sixteen the depth asks for. *)
Lemma web_context_renders_fifteen_of_sixteen :
  build_history_context sample_json_dumps
    (app_history_arg 16 (numbered_turns 16)) =
  Ok (join nl (turn_blocks 1 (map numbered_turn (seq 2 15))
                 (map numbered_json (seq 2 15)))) /\
  build_history_context sample_json_dumps
    (app_history_arg 16 (numbered_turns 16)) <>
  Ok (join nl (turn_blocks 1 (last_turns 16 (numbered_turns 16))
                 (map numbered_json (seq 1 16)))).
Proof.
  split; [vm_compute; reflexivity|].
  intros H. apply (f_equal (fun r => match r with
                                     | Ok text => length text
                                     | Raise _ => 0%nat
                                     end)) in H.
  vm_compute in H. discriminate H.
Qed.

(** *** A turn just appended *)








(** ** The slug *)

Lemma runs_head (s : str) (b : bool) (r : str) (rest : list (bool * str)) :
  runs s = (b, r) :: rest ->
  exists c s', s = c :: s' /\ ascii_isalnum c = b.
Proof.
  destruct s as [|c s']; simpl; [discriminate|].
  intros H. exists c, s'. split; [reflexivity|].
  destruct (runs s') as [|[b' r'] rest'].
  - now inversion H.
  - destruct (Bool.eqb_spec b' (ascii_isalnum c)); inversion H; congruence.
Qed.

(** The scan of [re.sub] produces the collapsed runs; entered inside a
    run it omits the separator of that run. *)
Lemma sub_non_alnum_runs_collapse (s : str) :
  sub_non_alnum_runs false s = collapse_runs s /\
  sub_non_alnum_runs true s =
    match s with
    | [] => []
    | c :: _ => if ascii_isalnum c then collapse_runs s
                else tl (collapse_runs s)
    end.
Proof.
  unfold collapse_runs.
  induction s as [|c s' [IHf IHt]]; [split; reflexivity|].
  cbn [sub_non_alnum_runs runs].
  destruct (runs s') as [|[b r] rest] eqn:Hr.
  - destruct s' as [|c' s'']; [|simpl in Hr; destruct (runs s'') as [|[? ?] ?];
      [discriminate | destruct (Bool.eqb _ _); discriminate]].
    destruct (ascii_isalnum c) eqn:Hc; simpl; rewrite ?Hc; split; reflexivity.
  - destruct (runs_head s' b r rest Hr) as (c' & s'' & -> & Hc').
    rewrite Hc' in IHt.
    destruct (ascii_isalnum c) eqn:Hc, b; cbn [Bool.eqb flat_map fst snd app tl] in *;
      rewrite ?IHf, ?IHt; split; reflexivity.
Qed.

Lemma rstrip_by_snoc (p : char -> bool) (s : str) (c : char) :
  p c = true -> rstrip_by p (s ++ [c]) = rstrip_by p s.
Proof.
  intros Hc. unfold rstrip_by. rewrite rev_app_distr. simpl. now rewrite Hc.
Qed.

Lemma strip_by_snoc (p : char -> bool) (s : str) (c : char) :
  p c = true -> strip_by p (s ++ [c]) = strip_by p s.
Proof.
  intros Hc. unfold strip_by. rewrite lstrip_by_app.
  destruct (forallb p s) eqn:Hs.
  - simpl. rewrite Hc. now rewrite (lstrip_by_all p s Hs).
  - now apply rstrip_by_snoc.
Qed.

Lemma strip_by_head (p : char -> bool) (s : str) (c : char) (r : str) :
  strip_by p s = c :: r -> p c = false.
Proof.
  unfold strip_by. intros H.
  destruct (rstrip_by_split p (lstrip_by p s)) as (ws & Heq & _).
  rewrite H in Heq.
  destruct s as [|x s']; [discriminate|].
  assert (Hl : forall t, lstrip_by p t = c :: (r ++ ws) -> p c = false).
  { induction t as [|y t IH]; simpl; [discriminate|].
    destruct (p y) eqn:Hy; [assumption|]. intros [= -> _]. assumption. }
  now apply (Hl (x :: s')).
Qed.

Lemma lstrip_by_head_stop (p : char -> bool) (c : char) (s : str) :
  p c = false -> lstrip_by p (c :: s) = c :: s.
Proof. intros H. simpl. now rewrite H. Qed.

(** The separators the scan emits at the two ends do not depend on the
    state it is entered in, nor on characters outside the class around
    the text. *)
Lemma lstrip_dash_sub_state (b : bool) (s : str) :
  lstrip_by is_dash (sub_non_alnum_runs b s) =
  lstrip_by is_dash (sub_non_alnum_runs true s).
Proof.
  destruct b; [reflexivity|]. destruct s as [|c s]; [reflexivity|].
  simpl. now destruct (ascii_isalnum c).
Qed.

Lemma lstrip_dash_sub_prefix (b : bool) (ws s : str) :
  forallb (fun c => negb (ascii_isalnum c)) ws = true ->
  lstrip_by is_dash (sub_non_alnum_runs b (ws ++ s)) =
  lstrip_by is_dash (sub_non_alnum_runs true s).
Proof.
  revert b. induction ws as [|c ws IH]; intros b H.
  - apply lstrip_dash_sub_state.
  - simpl in H. apply andb_true_iff in H as [Hc Hws].
    apply negb_true_iff in Hc. simpl. rewrite Hc.
    destruct b; simpl; now apply IH.
Qed.

Lemma sub_suffix (b : bool) (s ws : str) :
  forallb (fun c => negb (ascii_isalnum c)) ws = true ->
  sub_non_alnum_runs b (s ++ ws) = sub_non_alnum_runs b s \/
  sub_non_alnum_runs b (s ++ ws) = sub_non_alnum_runs b s ++ [ch_dash].
Proof.
  intros Hws. revert b. induction s as [|c s IH]; intros b.
  - simpl. clear - Hws. revert b.
    induction ws as [|c ws IH]; intros b; [now left|].
    simpl in Hws. apply andb_true_iff in Hws as [Hc Hws].
    apply negb_true_iff in Hc. simpl. rewrite Hc.
    destruct b.
    + apply (IH Hws true).
    + right. destruct (IH Hws true) as [H|H]; simpl in H.
      * now rewrite H.
      * assert (Hnil : forall t, forallb (fun c => negb (ascii_isalnum c)) t = true ->
                                 sub_non_alnum_runs true t = []).
        { induction t as [|y t IHt]; [reflexivity|]. simpl. intros Ht.
          apply andb_true_iff in Ht as [Hy Ht]. apply negb_true_iff in Hy.
          rewrite Hy. now apply IHt. }
        now rewrite (Hnil ws Hws).
  - simpl. destruct (ascii_isalnum c).
    + destruct (IH false) as [H|H]; rewrite H; [now left | now right].
    + destruct b.
      * destruct (IH true) as [H|H]; rewrite H; [now left | now right].
      * destruct (IH true) as [H|H]; rewrite H; [now left | now right].
Qed.

Lemma strip_dash_sub_surround (ws1 s ws2 : str) :
  forallb (fun c => negb (ascii_isalnum c)) ws1 = true ->
  forallb (fun c => negb (ascii_isalnum c)) ws2 = true ->
  strip_by is_dash (sub_non_alnum_runs false (ws1 ++ s ++ ws2)) =
  strip_by is_dash (sub_non_alnum_runs false s).
Proof.
  intros H1 H2.
  assert (Hstate : forall t,
             strip_by is_dash (sub_non_alnum_runs false t) =
             strip_by is_dash (sub_non_alnum_runs true t)).
  { intros t. unfold strip_by. now rewrite lstrip_dash_sub_state. }
  transitivity (strip_by is_dash (sub_non_alnum_runs true (s ++ ws2))).
  - unfold strip_by. now rewrite lstrip_dash_sub_prefix.
  - rewrite Hstate.
    destruct (sub_suffix true s ws2 H2) as [H|H]; rewrite H; [reflexivity|].
    now apply strip_by_snoc.
Qed.

Lemma sub_chars (b : bool) (s : str) (c : char) :
  In c (sub_non_alnum_runs b s) -> ascii_isalnum c = true \/ c = ch_dash.
Proof.
  revert b. induction s as [|x s IH]; intros b; simpl; [contradiction|].
  destruct (ascii_isalnum x) eqn:Hx.
  - intros [<-|H]; [now left | eauto].
  - destruct b; [eauto|]. intros [<-|H]; [now right | eauto].
Qed.

Lemma alnum_or_dash_ascii (c : char) :
  ascii_isalnum c = true \/ c = ch_dash -> is_ascii c = true.
Proof. intros [H| ->]; [|reflexivity]. ascii_cases. Qed.

Section SlugProperties.
Context {U : Unicode}.

Lemma space_not_alnum (c : char) :
  isspace c = true -> negb (ascii_isalnum c) = true.
Proof.
  intros H. destruct (N.ltb_spec c 128) as [Hlt|Hge].
  - rewrite isspace_ascii in H by assumption. ascii_cases.
  - ascii_cases.
Qed.

Lemma spaces_not_alnum (ws : str) :
  forallb isspace ws = true ->
  forallb (fun c => negb (ascii_isalnum c)) ws = true.
Proof.
  rewrite !forallb_forall. intros H c Hc. apply space_not_alnum. auto.
Qed.

(** [text.strip()] before the substitution changes nothing once the
    separators at the ends are removed. *)
Lemma strip_dash_sub_strip (text : str) :
  strip_by is_dash (sub_non_alnum_runs false (strip text)) =
  strip_by is_dash (collapse_runs text).
Proof.
  destruct (lstrip_by_split isspace text) as (ws1 & H1 & Hws1).
  destruct (rstrip_by_split isspace (lstrip_by isspace text))
    as (ws2 & H2 & Hws2).
  rewrite <- (proj1 (sub_non_alnum_runs_collapse text)).
  transitivity
    (strip_by is_dash (sub_non_alnum_runs false (ws1 ++ strip text ++ ws2))).
  - symmetry. apply strip_dash_sub_surround; now apply spaces_not_alnum.
  - do 2 f_equal. unfold strip, strip_by. now rewrite <- H2, <- H1.
Qed.

(** C9 (amended). The slug of a question is the question with every
    maximal run of characters outside [a-zA-Z0-9] collapsed to one
    ["-"], the separators at its two ends removed, lowercased and
    truncated to 40 characters; it is ["query"] when nothing is left,
    and a separator that the truncation leaves at the end is removed. *)
Theorem slugify_characterisation (text : str) :
  slugify text =
  match firstn 40 (map ascii_lower (strip_by is_dash (collapse_runs text))) with
  | [] => lit "query"
  | (_ :: _) as s => rstrip_by is_dash s
  end.
Proof.
  unfold slugify, slugify_maxlen.
  change 40%Z with (Z.of_nat 40). rewrite slice_to_nonneg.
  rewrite strip_dash_sub_strip.
  rewrite lower_ascii.
  2:{ apply forallb_forall. intros c Hc. apply strip_by_incl in Hc.
      rewrite <- (proj1 (sub_non_alnum_runs_collapse text)) in Hc.
      apply alnum_or_dash_ascii. now apply sub_chars in Hc. }
  destruct (strip_by is_dash (collapse_runs text)) as [|c0 r0] eqn:Hcore;
    [reflexivity|].
  apply strip_by_head in Hcore.
  cbn [map].
  change (firstn 40 (ascii_lower c0 :: map ascii_lower r0))
    with (ascii_lower c0 :: firstn 39 (map ascii_lower r0)).
  cbv beta iota delta [str_or]. unfold strip_by.
  rewrite lstrip_by_head_stop; [reflexivity|].
  unfold is_dash in *. ascii_cases.
Qed.

End SlugProperties.

(** C9, as stated, fails: the separator that ends the collapsed text is
    removed, and an empty slug is replaced by ["query"]. *)
Lemma slugify_differs_from_spec :
  @slugify ascii_tables (lit "Top 5 countries by revenue?")
    <> slug_by_spec (lit "Top 5 countries by revenue?") /\
  @slugify ascii_tables (lit "Top 5 countries by revenue?") =
    lit "top-5-countries-by-revenue" /\
  slug_by_spec (lit "Top 5 countries by revenue?") =
    lit "top-5-countries-by-revenue-" /\
  @slugify ascii_tables (lit "???") = lit "query" /\
  slug_by_spec (lit "???") = lit "-".
Proof. split; [discriminate | repeat split]. Qed.

(** ** Schema introspection *)

Lemma str_eqb_eq (a b : str) : str_eqb a b = true <-> a = b.
Proof.
  revert b. induction a as [|x a IH]; intros [|y b]; simpl;
    try (split; [discriminate | discriminate]); [tauto|].
  rewrite andb_true_iff, N.eqb_eq, IH. split.
  - intros [-> ->]. reflexivity.
  - intros [= -> ->]. auto.
Qed.

Lemma str_eqb_refl (a : str) : str_eqb a a = true.
Proof. now apply str_eqb_eq. Qed.

Lemma str_eqb_neq (a b : str) : str_eqb a b = false <-> a <> b.
Proof.
  rewrite <- str_eqb_eq. destruct (str_eqb a b); split; congruence.
Qed.

Lemma str_leb_total (a b : str) : str_leb a b = false -> str_leb b a = true.
Proof.
  revert b. induction a as [|x a IH]; intros [|y b]; simpl; try discriminate;
    try reflexivity.
  destruct (N.ltb_spec x y); [discriminate|].
  destruct (N.ltb_spec y x); [reflexivity|]. apply IH.
Qed.

Lemma insert_by_name_perm (x : str) (l : list str) :
  Permutation (x :: l) (insert_by_name x l).
Proof.
  induction l as [|y l IH]; simpl; [reflexivity|].
  destruct (str_leb x y); [reflexivity|].
  rewrite perm_swap. now apply perm_skip.
Qed.

Lemma insert_by_name_sorted (x : str) (l : list str) :
  Sorted name_le l -> Sorted name_le (insert_by_name x l).
Proof.
  induction 1 as [|y l Hs IH Hhd]; simpl.
  - repeat constructor.
  - destruct (str_leb x y) eqn:Hxy.
    + constructor; [now constructor | now constructor].
    + constructor; [assumption|].
      destruct l as [|z l]; simpl.
      * constructor. now apply str_leb_total.
      * destruct (str_leb x z) eqn:Hxz; constructor.
        -- now apply str_leb_total.
        -- now inversion Hhd.
Qed.

Lemma order_by_name_perm (l : list str) : Permutation l (order_by_name l).
Proof.
  induction l as [|x l IH]; simpl; [reflexivity|].
  rewrite <- insert_by_name_perm. now apply perm_skip.
Qed.

Lemma order_by_name_sorted (l : list str) : Sorted name_le (order_by_name l).
Proof.
  induction l as [|x l IH]; simpl; [constructor|].
  now apply insert_by_name_sorted.
Qed.

Lemma dict_set_fresh {V : Type} (k : str) (v : V) (d : dict V) :
  ~ In k (map fst d) -> dict_set k v d = d ++ [(k, v)].
Proof.
  induction d as [|[k' v'] d IH]; simpl; intros H; [reflexivity|].
  destruct (str_eqb k k') eqn:E.
  - apply str_eqb_eq in E. subst. tauto.
  - f_equal. apply IH. tauto.
Qed.

Lemma dict_get_app {V : Type} (k : str) (d1 d2 : dict V) :
  dict_get k (d1 ++ d2) =
  match dict_get k d1 with Some v => Some v | None => dict_get k d2 end.
Proof.
  induction d1 as [|[k' v'] d1 IH]; simpl; [reflexivity|].
  now destruct (str_eqb k k').
Qed.

Lemma dict_get_fresh {V : Type} (k : str) (d : dict V) :
  ~ In k (map fst d) -> dict_get k d = None.
Proof.
  induction d as [|[k' v'] d IH]; simpl; intros H; [reflexivity|].
  destruct (str_eqb k k') eqn:E.
  - apply str_eqb_eq in E. subst. tauto.
  - apply IH. tauto.
Qed.

(** The loop of [get_schema] appends one entry per table name. *)
Lemma get_schema_loop_ok (conn : connection) (tables : list str)
  (acc : schema_t) :
  NoDup (map fst acc ++ tables) ->
  (forall t, In t tables -> exists rows, pragma_table_info conn t = Ok rows) ->
  exists schema,
    get_schema_loop conn tables acc = Ok schema /\
    map fst schema = map fst acc ++ tables /\
    (forall t, In t tables ->
       exists rows, pragma_table_info conn t = Ok rows /\
                    dict_get t schema = Some (map column_of rows)) /\
    (forall t v, dict_get t acc = Some v -> dict_get t schema = Some v).
Proof.
  revert acc. induction tables as [|t tables IH]; intros acc Hnd Hok.
  - exists acc. simpl. rewrite app_nil_r. repeat split; auto. contradiction.
  - destruct (Hok t (or_introl eq_refl)) as (rows & Hrows).
    assert (Hfresh : ~ In t (map fst acc)).
    { intros Hin. apply NoDup_remove_2 in Hnd. apply Hnd.
      apply in_or_app. now left. }
    simpl. rewrite Hrows. simpl.
    rewrite (dict_set_fresh t _ acc Hfresh).
    destruct (IH (acc ++ [(t, map column_of rows)])) as (schema & Hs & Hk & He & Hp).
    { rewrite map_app. simpl. now rewrite <- app_assoc. }
    { intros t' Ht'. apply Hok. now right. }
    exists schema. split; [exact Hs|]. split.
    { rewrite Hk, map_app. simpl. now rewrite <- app_assoc. }
    split.
    + intros t' [<-|Ht'].
      * exists rows. split; [assumption|]. apply Hp.
        rewrite dict_get_app, (dict_get_fresh t acc Hfresh). simpl.
        now rewrite str_eqb_refl.
      * now apply He.
    + intros t' v Hv. apply Hp. rewrite dict_get_app. now rewrite Hv.
Qed.

(** C7 (amended). When the names of the catalog entries of type
    [table] are distinct and [PRAGMA table_info] answers for each of
    them, [get_schema] returns a description whose keys are exactly
    those names, SQLite's internal tables included, in ascending order
    of the name, each with its columns in the order reported and with
    the name and declared type reported. *)
Theorem get_schema_covers_catalog_tables (conn : connection) :
  NoDup (table_names conn) ->
  (forall t, In t (table_names conn) ->
             exists rows, pragma_table_info conn t = Ok rows) ->
  exists schema,
    get_schema conn = Ok schema /\
    Permutation (table_names conn) (map fst schema) /\
    Sorted name_le (map fst schema) /\
    (forall t, In t (table_names conn) ->
       exists rows, pragma_table_info conn t = Ok rows /\
                    dict_get t schema = Some (map column_of rows)).
Proof.
  intros Hnd Hok. unfold get_schema.
  assert (Hperm : Permutation (table_names conn) (select_table_names conn))
    by apply order_by_name_perm.
  destruct (get_schema_loop_ok conn (select_table_names conn) [])
    as (schema & Hs & Hk & He & _).
  { simpl. now apply (Permutation_NoDup Hperm). }
  { intros t Ht. apply Hok. now apply (Permutation_in _ (Permutation_sym Hperm)). }
  simpl in Hk. exists schema. rewrite Hk. repeat split; try assumption.
  - apply order_by_name_sorted.
  - intros t Ht. apply He. now apply (Permutation_in _ Hperm).
Qed.

Lemma get_schema_covers_catalog_tables_witness :
  exists schema,
    get_schema sample_conn = Ok schema /\
    Permutation (table_names sample_conn) (map fst schema) /\
    Sorted name_le (map fst schema) /\
    (forall t, In t (table_names sample_conn) ->
       exists rows, pragma_table_info sample_conn t = Ok rows /\
                    dict_get t schema = Some (map column_of rows)).
Proof.
  apply (get_schema_covers_catalog_tables sample_conn).
  - repeat constructor; simpl; intros H;
      repeat (destruct H as [H|H]; [discriminate H|]); exact H.
  - intros t Ht. simpl in Ht.
    repeat (destruct Ht as [<-|Ht]; [eexists; reflexivity|]). contradiction.
Defined.

(** C7, as stated, fails: the description lists the internal table
    [sqlite_sequence] of a database that has one. *)
Lemma get_schema_lists_internal_table :
  exists schema,
    get_schema sample_conn = Ok schema /\
    map fst schema = [lit "Album"; lit "Track"; lit "sqlite_sequence"] /\
    existsb is_internal_table (map fst schema) = true.
Proof. eexists. repeat split. Qed.

(** ** One turn of the session *)

Lemma console_command_false (low : str) :
  console_command low = false ->
  existsb (str_eqb low) [lit "exit"; lit "quit"; lit "q"] = false /\
  str_eqb low (lit ":history") = false /\
  str_eqb low (lit ":clear") = false /\
  str_eqb low (lit ":schema") = false.
Proof.
  unfold console_command. cbn [existsb].
  intros H. repeat (apply orb_false_iff in H as [? H]).
  repeat split; try assumption.
  cbn [existsb]. repeat (apply orb_false_iff; split); auto.
Qed.

(** One step of a computation of the console or of the web form. *)
Tactic Notation "step_with" reference(f) :=
  unfold bindM at 1; unfold f at 1; cbv beta iota zeta;
  cbn [history stdin stdout conn_open executed
       ss_schema_txt ss_history page ss_executed fst snd].

(** Printing the result of a query. *)
Lemma print_result_run (w : world) (cols : list str) (rows : list row)
  (shown : str) {A : Type} (k : M console A) (st : console) :
  printed_result w cols rows = Ok shown ->
  ((if nonempty rows
    then table <~ lift (tabulate w rows cols) ;; print (Print table)
    else print (Print (lit "(no rows)"))) ;;; k) st =
  k {| history := history st; stdin := stdin st;
       stdout := stdout st ++ [Print shown];
       conn_open := conn_open st; executed := executed st |}.
Proof.
  unfold printed_result. intros H. destruct (nonempty rows).
  - unfold bindM, lift, print. now rewrite H.
  - injection H as <-. reflexivity.
Qed.

Lemma print_result_raises (w : world) (cols : list str) (rows : list row)
  (e : exn) {A : Type} (k : M console A) (st : console) :
  printed_result w cols rows = Raise e ->
  ((if nonempty rows
    then table <~ lift (tabulate w rows cols) ;; print (Print table)
    else print (Print (lit "(no rows)"))) ;;; k) st = (Raise e, st).
Proof.
  unfold printed_result. intros H. destruct (nonempty rows).
  - unfold bindM, lift. now rewrite H.
  - discriminate H.
Qed.

Section SessionProperties.
Context {U : Unicode}.
Variable w : world.

(** A question that passes the gate and is confirmed reaches
    [run_query]; the state then holds the two lines read and the
    generated SQL printed. *)
Lemma console_iteration_reaches_query (conn : connection) (schema_txt : str)
  (st : console) (line answer : str) (rest : list str)
  (history_txt sql : str) :
  stdin st = line :: answer :: rest ->
  console_command (lower (strip line)) = false ->
  nonempty (strip line) = true ->
  build_history_context (json_dumps w) (history st) = Ok history_txt ->
  llm_sql w (strip line) schema_txt history_txt = Ok sql ->
  is_safe_select sql = true ->
  confirms answer = true ->
  console_iteration w conn schema_txt st =
  (cr <~ console_run_query conn sql ;;
   print (Print (lit "--- Results ---")) ;;;
   (if nonempty (snd cr)
    then table <~ lift (tabulate w (snd cr) (fst cr)) ;; print (Print table)
    else print (Print (lit "(no rows)"))) ;;;
   expl <~ try_except
             (e <~ lift (explain_results w (strip line) sql (slice_to 5 (snd cr))) ;;
              (if nonempty e
               then print (Print (lit "--- Explanation ---")) ;;; print (Print e)
               else ret tt) ;;;
              ret e)
             (fun _ => ret []) ;;
   h' <~ get_history ;;
   set_history (h' ++ [turn_of (strip line) sql (snd cr)]) ;;;
   try_except
     (lift (export_run w (slugify (strip line)) (strip line) sql
              (fst cr) (snd cr) expl))
     (fun _ => ret tt) ;;;
   ret Continue)
    {| history := history st; stdin := rest;
       stdout := (stdout st ++ [Print (lit "--- Generated SQL ---")]) ++ [Print sql];
       conn_open := conn_open st;
       executed := executed st |}.
Proof.
  intros Hin Hcmd Hne Hctx Hsql Hsafe Hok.
  destruct (console_command_false _ Hcmd) as (H1 & H2 & H3 & H4).
  unfold confirms in Hok. apply negb_true_iff in Hok.
  unfold console_iteration.
  step_with input. rewrite Hin. cbv beta iota zeta.
  rewrite H1, H2, H3, H4, Hne. cbn [negb].
  step_with get_history.
  step_with lift. rewrite Hctx.
  step_with lift. rewrite Hsql.
  step_with print. step_with print.
  rewrite Hsafe. cbn [negb].
  step_with input. rewrite Hok.
  reflexivity.
Qed.

(** C4 (console). When the database rejects the approved SQL, the
    exception of [run_query] leaves the iteration and the loop: the
    loop ends with that exception, the history as it was, and the lines
    that follow on the standard input are not read. *)
Theorem console_query_error_ends_session (fuel : nat) (conn : connection)
  (schema_txt : str) (st : console) (line answer : str) (rest : list str)
  (history_txt sql : str) (e : exn) :
  stdin st = line :: answer :: rest ->
  console_command (lower (strip line)) = false ->
  nonempty (strip line) = true ->
  build_history_context (json_dumps w) (history st) = Ok history_txt ->
  llm_sql w (strip line) schema_txt history_txt = Ok sql ->
  is_safe_select sql = true ->
  confirms answer = true ->
  run_query conn sql = Raise e ->
  exists st',
    console_loop w (S fuel) conn schema_txt st = Some (Raise e, st') /\
    history st' = history st /\
    stdin st' = rest.
Proof.
  intros Hin Hcmd Hne Hctx Hsql Hsafe Hok Hrun.
  cbn [console_loop].
  rewrite (console_iteration_reaches_query conn schema_txt st line answer rest
             history_txt sql Hin Hcmd Hne Hctx Hsql Hsafe Hok).
  step_with console_run_query. rewrite Hrun.
  eexists. split; [reflexivity|]. split; reflexivity.
Qed.

(** The web form catches the same exception: the error is shown, the
    history is untouched and the run ends normally. *)
Lemma web_query_error_is_isolated (conn : connection) (inp : web_inputs)
  (schema_txt : str) (st : web_session) (hist_ctx sql : str) (e : exn) :
  nonempty (strip (question_input inp)) = true ->
  db_exists w = true ->
  build_history_context (json_dumps w)
    (app_history_arg (max_hist inp) (ss_history st)) = Ok hist_ctx ->
  llm_sql w (strip (question_input inp)) schema_txt hist_ctx = Ok sql ->
  nonempty sql = true ->
  is_safe_select sql = true ->
  run_query conn sql = Raise e ->
  handle_run w conn inp schema_txt st =
  (Ok tt,
   {| ss_schema_txt := ss_schema_txt st;
      ss_history := ss_history st;
      page := (page st ++ [StCode sql]) ++
              [StError (lit "Query error: " ++ exn_message e)];
      ss_executed := ss_executed st ++ [sql] |}).
Proof.
  intros Hq Hdb Hctx Hsql Hne Hsafe Hrun.
  unfold handle_run. rewrite Hq, Hdb. cbn [negb].
  step_with web_history.
  step_with lift. rewrite Hctx.
  step_with try_except. unfold lift at 1. rewrite Hsql.
  rewrite Hne. cbn [negb].
  step_with show. rewrite Hsafe. cbn [negb].
  step_with try_except. step_with web_run_query. rewrite Hrun.
  step_with show. reflexivity.
Qed.


(** The web form does the same once the frame is built and shown. *)
Lemma web_turn_survives_explanation_failure (conn : connection)
  (inp : web_inputs) (schema_txt : str) (st : web_session)
  (hist_ctx sql : str) (cols : list str) (rows : list row) (e : exn) :
  nonempty (strip (question_input inp)) = true ->
  db_exists w = true ->
  build_history_context (json_dumps w)
    (app_history_arg (max_hist inp) (ss_history st)) = Ok hist_ctx ->
  llm_sql w (strip (question_input inp)) schema_txt hist_ctx = Ok sql ->
  nonempty sql = true ->
  is_safe_select sql = true ->
  run_query conn sql = Ok (cols, rows) ->
  DataFrame w rows cols = Ok tt ->
  st_dataframe w cols rows = Ok tt ->
  explain_results w (question_input inp) sql
    (if nonempty rows then slice_to 5 rows else []) = Raise e ->
  exists st',
    handle_run w conn inp schema_txt st = (Ok tt, st') /\
    ss_history st' = ss_history st ++ [turn_of (question_input inp) sql rows] /\
    In (StDataframe cols rows) (page st') /\
    (forall text, In (StExplanation text) (page st') ->
                  In (StExplanation text) (page st)).
Proof.
  intros Hq Hdb Hctx Hsql Hne Hsafe Hrun Hdf Hshow Hexpl.
  unfold handle_run. rewrite Hq, Hdb. cbn [negb].
  step_with web_history.
  step_with lift. rewrite Hctx.
  step_with try_except. unfold lift at 1. rewrite Hsql.
  rewrite Hne. cbn [negb].
  step_with show. rewrite Hsafe. cbn [negb].
  step_with try_except. step_with web_run_query. rewrite Hrun.
  cbn [fst snd]. step_with lift. rewrite Hdf.
  unfold ret at 1. step_with lift. rewrite Hshow. step_with show.
  step_with try_except. unfold lift at 1. rewrite Hexpl.
  unfold ret at 1. cbn [nonempty]. unfold bindM at 1. unfold ret at 1.
  step_with web_history. step_with set_web_history.
  assert (Hpage : forall text (l : list output),
             In (StExplanation text)
                ((page st ++ [StCode sql]) ++ [StDataframe cols rows] ++ l) ->
             (forall o, In o l -> forall t, o <> StExplanation t) ->
             In (StExplanation text) (page st)).
  { intros text l Hin Hl.
    rewrite !in_app_iff in Hin. simpl in Hin.
    destruct Hin as [[H|[H|[]]]|[[H|[]]|H]]; try assumption; try discriminate H.
    exfalso. now apply (Hl _ H text). }
  destruct (export_enabled inp).
  - unfold try_except, bindM, lift.
    destruct (export_run w _ _ _ _ _ _); unfold show;
      cbn [page ss_history ss_schema_txt ss_executed];
      (eexists; split; [reflexivity|]; cbn [page ss_history];
       split; [reflexivity|]; split;
       [rewrite !in_app_iff; simpl; tauto|]);
      intros text Hin; rewrite <- !app_assoc in Hin;
      rewrite (app_assoc (page st)) in Hin;
      apply (Hpage text _ Hin); intros o [<-|[]] t; discriminate.
  - unfold ret. eexists. split; [reflexivity|]. cbn [page ss_history].
    split; [reflexivity|]. split; [rewrite !in_app_iff; simpl; tauto|].
    intros text Hin. apply (Hpage text []); [now rewrite app_nil_r | contradiction].
Qed.

End SessionProperties.

Lemma console_query_error_ends_session_witness :
  exists st',
    @console_loop ascii_tables sample_world 1 sample_conn
      (lit "- Track(TrackId INTEGER)")
      (sample_console [lit "Which track is Nope?"; lit "y";
                       lit "How many tracks?"]) =
    Some (Raise (DatabaseError (lit "no such column: Nope")), st') /\
    history st' = [] /\
    stdin st' = [lit "How many tracks?"].
Proof.
  apply (@console_query_error_ends_session ascii_tables sample_world 0
           sample_conn (lit "- Track(TrackId INTEGER)")
           (sample_console [lit "Which track is Nope?"; lit "y";
                            lit "How many tracks?"])
           (lit "Which track is Nope?") (lit "y") [lit "How many tracks?"]
           [] (lit "SELECT Nope FROM Track")
           (DatabaseError (lit "no such column: Nope")));
    reflexivity.
Defined.

(** The whole console program on a script of inputs: the first question
    is answered, the second one makes the database fail, and [main] is
    left with that exception; the third question and [exit] are never
    read, one turn is in the history of the dead process, and the
    connection is closed. *)
Lemma main_stops_at_query_error :
  option_map
    (fun rs : result unit * console =>
       (fst rs, stdin (snd rs), length (history (snd rs)), conn_open (snd rs)))
    (@main ascii_tables sample_world 10 sample_conn
       [lit "How many tracks?"; lit ""; lit "Which track is Nope?"; lit "y";
        lit "How many tracks?"; lit "y"; lit "exit"]) =
  Some (Raise (DatabaseError (lit "no such column: Nope")),
        [lit "How many tracks?"; lit "y"; lit "exit"], 1%nat, false).
Proof. vm_compute. reflexivity. Qed.

(** The same three questions through the web form: the second run shows
    the error, the history is as the first run left it, and the third
    run appends its turn. *)
Lemma web_session_survives_query_error :
  let run question st :=
    @app_run ascii_tables sample_world sample_conn (sample_inputs question) st in
  let r1 := run "How many tracks?"%string sample_session in
  let r2 := run "Which track is Nope?"%string (snd r1) in
  let r3 := run "How many tracks?"%string (snd r2) in
  (fst r1, fst r2, fst r3) = (Ok tt, Ok tt, Ok tt) /\
  length (ss_history (snd r1)) = 1%nat /\
  ss_history (snd r2) = ss_history (snd r1) /\
  nth_error (page (snd r2)) 1 =
    Some (StError (lit "Query error: no such column: Nope")) /\
  length (ss_history (snd r3)) = 2%nat.
Proof. vm_compute. repeat split. Qed.


(** ** The console loop ends *)

Lemma keeps_ret {A : Type} (a : A) : keeps_input (ret a).
Proof. intros st r st' [= _ <-]. lia. Qed.

Lemma keeps_lift {A : Type} (x : result A) : keeps_input (lift x).
Proof. intros st r st' [= _ <-]. lia. Qed.

Lemma keeps_print (o : output) : keeps_input (print o).
Proof. intros st r st' [= _ <-]. unfold unread. cbn [stdin]. apply Nat.le_refl. Qed.

Lemma keeps_get_history : keeps_input get_history.
Proof. intros st r st' [= _ <-]. lia. Qed.

Lemma keeps_set_history (h : list hist_item) : keeps_input (set_history h).
Proof. intros st r st' [= _ <-]. unfold unread. cbn [stdin]. apply Nat.le_refl. Qed.

Lemma keeps_run_query (conn : connection) (sql : str) :
  keeps_input (console_run_query conn sql).
Proof. intros st r st' [= _ <-]. unfold unread. cbn [stdin]. apply Nat.le_refl. Qed.

Lemma keeps_input_input : keeps_input input.
Proof.
  intros st r st'. unfold input, unread. destruct (stdin st) eqn:E.
  - intros [= _ <-]. rewrite E. apply Nat.le_refl.
  - intros [= _ <-]. cbn [stdin length]. apply Nat.le_succ_diag_r.
Qed.

Lemma keeps_bind {A B : Type} (c : M console A) (k : A -> M console B) :
  keeps_input c -> (forall a, keeps_input (k a)) -> keeps_input (bindM c k).
Proof.
  intros Hc Hk st r st'. unfold bindM.
  destruct (c st) as [[a|e] s1] eqn:E.
  - intros H. apply Hc in E. apply Hk in H. lia.
  - intros [= _ <-]. now apply Hc in E.
Qed.

Lemma keeps_try {A : Type} (c : M console A) (h : exn -> M console A) :
  keeps_input c -> (forall e, keeps_input (h e)) -> keeps_input (try_except c h).
Proof.
  intros Hc Hh st r st'. unfold try_except.
  destruct (c st) as [[a|e] s1] eqn:E.
  - intros [= _ <-]. now apply Hc in E.
  - intros H. apply Hc in E. apply Hh in H. lia.
Qed.

Lemma keeps_print_all (os : list output) : keeps_input (print_all os).
Proof.
  induction os as [|o os IH]; cbn [print_all].
  - apply keeps_ret.
  - apply keeps_bind; [apply keeps_print | intros _; exact IH].
Qed.

Ltac keeps :=
  repeat first
    [ apply keeps_ret | apply keeps_lift | apply keeps_print
    | apply keeps_get_history | apply keeps_set_history
    | apply keeps_run_query
    | apply keeps_input_input | apply keeps_print_all
    | apply keeps_bind; [|intro] | apply keeps_try; [|intro]
    | match goal with
      | |- keeps_input (if ?c then _ else _) => destruct c
      | |- keeps_input (match ?x with _ => _ end) => destruct x
      end ].

Section LoopTotal.
Context {U : Unicode}.
Variable w : world.

(** Every iteration that does not raise reads at least one line. *)
Lemma console_iteration_consumes (conn : connection) (schema_txt : str)
  (st st' : console) (c : control) :
  console_iteration w conn schema_txt st = (Ok c, st') ->
  (unread st' < unread st)%nat.
Proof.
  unfold console_iteration. unfold bindM at 1. unfold input at 1.
  unfold unread at 2.
  destruct (stdin st) as [|line rest] eqn:Hin; [discriminate|].
  cbv beta iota zeta.
  match goal with |- ?body ?s = _ -> _ =>
    assert (Hk : keeps_input body) by keeps end.
  intros H. apply Hk in H. unfold unread at 2 in H. cbn [stdin] in H.
  cbn [length]. lia.
Qed.

(** With more fuel than lines on the standard input the loop returns. *)
Lemma console_loop_total (conn : connection) (schema_txt : str) (fuel : nat)
  (st : console) :
  (unread st < fuel)%nat ->
  exists r, console_loop w fuel conn schema_txt st = Some r.
Proof.
  revert st. induction fuel as [|fuel IH]; intros st Hlen; [lia|].
  cbn [console_loop].
  destruct (console_iteration w conn schema_txt st) as [[[|]|e] st1] eqn:E;
    try (eexists; reflexivity).
  apply console_iteration_consumes in E. apply IH. lia.
Qed.
End LoopTotal.

(* ================================================================== *)
(** * Part III: further properties of the sources *)
(* ================================================================== *)

(** ** What enters the history *)

Lemma preserves_ret {S T A : Type} (proj : S -> T) (a : A) :
  preserves proj (ret a).
Proof. now intros st r st' [= _ <-]. Qed.

Lemma preserves_lift {S T A : Type} (proj : S -> T) (x : result A) :
  preserves proj (lift x).
Proof. now intros st r st' [= _ <-]. Qed.

Lemma preserves_bind {S T A B : Type} (proj : S -> T) (c : M S A)
  (k : A -> M S B) :
  preserves proj c -> (forall a, preserves proj (k a)) ->
  preserves proj (bindM c k).
Proof.
  intros Hc Hk st r st'. unfold bindM.
  destruct (c st) as [[a|e] s1] eqn:E.
  - intros H. apply Hc in E. apply Hk in H. congruence.
  - intros [= _ <-]. now apply Hc in E.
Qed.

Lemma preserves_try {S T A : Type} (proj : S -> T) (c : M S A)
  (h : exn -> M S A) :
  preserves proj c -> (forall e, preserves proj (h e)) ->
  preserves proj (try_except c h).
Proof.
  intros Hc Hh st r st'. unfold try_except.
  destruct (c st) as [[a|e] s1] eqn:E.
  - intros [= _ <-]. now apply Hc in E.
  - intros H. apply Hc in E. apply Hh in H. congruence.
Qed.

(** Either the first computation raises, or the second one runs from a
    state with the same component. *)
Lemma bind_preserves_inv {S T A B : Type} (proj : S -> T) (c : M S A)
  (k : A -> M S B) (st st' : S) (r : result B) :
  preserves proj c ->
  bindM c k st = (r, st') ->
  (exists e, r = Raise e /\ proj st' = proj st) \/
  (exists a s1, proj s1 = proj st /\ k a s1 = (r, st')).
Proof.
  intros Hc. unfold bindM. destruct (c st) as [[a|e] s1] eqn:E.
  - intros H. right. exists a, s1. split; [now apply Hc in E | assumption].
  - intros [= <- <-]. left. exists e. split; [reflexivity | now apply Hc in E].
Qed.

Lemma print_keeps_history (o : output) : preserves history (print o).
Proof. now intros st r st' [= _ <-]. Qed.

Lemma get_history_keeps_history : preserves history get_history.
Proof. now intros st r st' [= _ <-]. Qed.

Lemma input_keeps_history : preserves history input.
Proof.
  intros st r st'. unfold input. destruct (stdin st); now intros [= _ <-].
Qed.

Lemma run_query_keeps_history (conn : connection) (sql : str) :
  preserves history (console_run_query conn sql).
Proof. now intros st r st' [= _ <-]. Qed.

Lemma web_run_query_keeps_history (conn : connection) (sql : str) :
  preserves ss_history (web_run_query conn sql).
Proof. now intros st r st' [= _ <-]. Qed.

Lemma print_all_keeps_history (os : list output) :
  preserves history (print_all os).
Proof.
  induction os as [|o os IH]; cbn [print_all].
  - apply preserves_ret.
  - apply preserves_bind; [apply print_keeps_history | intros _; exact IH].
Qed.

Lemma show_keeps_history (o : output) : preserves ss_history (show o).
Proof. now intros st r st' [= _ <-]. Qed.

Lemma web_history_keeps_history : preserves ss_history web_history.
Proof. now intros st r st' [= _ <-]. Qed.

Lemma new_page_keeps_history : preserves ss_history new_page.
Proof. now intros st r st' [= _ <-]. Qed.

Ltac keeps_history :=
  repeat first
    [ apply preserves_ret | apply preserves_lift
    | apply print_keeps_history | apply get_history_keeps_history
    | apply input_keeps_history | apply print_all_keeps_history
    | apply run_query_keeps_history | apply web_run_query_keeps_history
    | apply show_keeps_history | apply web_history_keeps_history
    | apply new_page_keeps_history
    | apply preserves_bind; [|intro] | apply preserves_try; [|intro]
    | match goal with
      | |- preserves _ (if ?c then _ else _) => destruct c
      | |- preserves _ (match ?x with _ => _ end) => destruct x
      end ].

Ltac unchanged proj :=
  match goal with
  | |- ?c ?s = _ -> _ =>
      let Hk := fresh "Hk" in
      let H := fresh "H" in
      assert (Hk : preserves proj c) by keeps_history;
      intros H; apply Hk in H; left; exact H
  end.

Lemma print_keeps_core (o : output) : preserves core (print o).
Proof. now intros st r st' [= _ <-]. Qed.

Lemma get_history_keeps_core : preserves core get_history.
Proof. now intros st r st' [= _ <-]. Qed.

Lemma print_all_keeps_core (os : list output) : preserves core (print_all os).
Proof.
  induction os as [|o os IH]; cbn [print_all].
  - apply preserves_ret.
  - apply preserves_bind; [apply print_keeps_core | intros _; exact IH].
Qed.

Lemma ret_returns {S A : Type} (a : A) : never_raises (@ret S A a).
Proof. intros st. now exists a, st. Qed.

Lemma print_returns (o : output) : never_raises (print o).
Proof. intros st. eexists. eexists. reflexivity. Qed.

Lemma show_returns (o : output) : never_raises (show o).
Proof. intros st. eexists. eexists. reflexivity. Qed.

Lemma bind_returns {S A B : Type} (c : M S A) (k : A -> M S B) :
  never_raises c -> (forall a, never_raises (k a)) -> never_raises (bindM c k).
Proof.
  intros Hc Hk st. destruct (Hc st) as (a & s1 & E).
  unfold bindM. rewrite E. apply Hk.
Qed.

Lemma try_returns {S A : Type} (c : M S A) (h : exn -> M S A) :
  (forall e, never_raises (h e)) -> never_raises (try_except c h).
Proof.
  intros Hh st. unfold try_except. destruct (c st) as [[a|e] s1].
  - now exists a, s1.
  - apply Hh.
Qed.

(** A computation that returns and leaves a component alone hands a
    state with the same component to what follows. *)
Lemma run_quiet {S T A B : Type} (proj : S -> T) (c : M S A)
  (k : A -> M S B) (st : S) :
  preserves proj c -> never_raises c ->
  exists a s1, proj s1 = proj st /\ bindM c k st = k a s1.
Proof.
  intros Hp Hr. destruct (Hr st) as (a & s1 & E).
  exists a, s1. split; [now apply Hp in E|]. unfold bindM. now rewrite E.
Qed.

Ltac preserving :=
  repeat first
    [ apply preserves_ret | apply preserves_lift
    | apply print_keeps_history | apply get_history_keeps_history
    | apply input_keeps_history | apply print_all_keeps_history
    | apply run_query_keeps_history | apply web_run_query_keeps_history
    | apply print_keeps_core | apply get_history_keeps_core
    | apply print_all_keeps_core
    | apply show_keeps_history | apply web_history_keeps_history
    | apply new_page_keeps_history
    | apply preserves_bind; [|intro] | apply preserves_try; [|intro]
    | match goal with
      | |- preserves _ (if ?c then _ else _) => destruct c
      | |- preserves _ (match ?x with _ => _ end) => destruct x
      end ].

Ltac returning :=
  repeat first
    [ apply ret_returns | apply print_returns | apply show_returns
    | apply try_returns; intro
    | apply bind_returns; [|intro]
    | match goal with
      | |- never_raises (if ?c then _ else _) => destruct c
      end ].

Section HistoryInvariant.
Context {U : Unicode}.
Variable w : world.

Lemma turn_of_approved (conn : connection) (question sql : str)
  (cols : list str) (rows : list row) :
  is_safe_select sql = true ->
  run_query conn sql = Ok (cols, rows) ->
  approved_turn conn (turn_of question sql rows).
Proof.
  intros Hsafe Hrun. split; [exact Hsafe|]. split.
  - apply preview_of_length.
  - now exists cols, rows.
Qed.

(** One iteration of the console leaves the history as it is, empties
    it, or appends one approved turn. *)
Lemma console_iteration_history (conn : connection) (schema_txt : str)
  (st st' : console) (r : result control) :
  console_iteration w conn schema_txt st = (r, st') ->
  history st' = history st \/
  history st' = [] \/
  exists t, approved_turn conn t /\ history st' = history st ++ [t].
Proof.
  unfold console_iteration. step_with input.
  destruct (stdin st) as [|line rest] eqn:Hin.
  { intros [= _ <-]. now left. }
  cbv beta iota zeta.
  destruct (existsb _ _); [unchanged history|].
  destruct (str_eqb _ (lit ":history")); [unchanged history|].
  destruct (str_eqb _ (lit ":clear")).
  { intros [= _ <-]. right. now left. }
  destruct (str_eqb _ (lit ":schema")); [unchanged history|].
  destruct (negb (nonempty (strip line))); [unchanged history|].
  step_with get_history.
  step_with lift. destruct (build_history_context _ _) as [history_txt|e];
    [|intros [= _ <-]; now left].
  step_with lift. destruct (llm_sql _ _ _ _) as [sql|e];
    [|intros [= _ <-]; now left].
  step_with print. step_with print.
  destruct (is_safe_select sql) eqn:Hsafe; cbn [negb]; [|unchanged history].
  step_with input. destruct rest as [|answer rest'];
    [intros [= _ <-]; now left|]. cbv beta iota zeta.
  destruct (nonempty _ && negb _); [unchanged history|].
  step_with console_run_query.
  destruct (run_query conn sql) as [[cols rows]|e] eqn:Hrun;
    [|intros [= _ <-]; now left].
  cbn [fst snd].
  step_with print. intros H.
  apply (bind_preserves_inv history) in H; [|keeps_history].
  destruct H as [(e & _ & H)|(x & s1 & Hs1 & H)]; [left; exact H|].
  apply (bind_preserves_inv history) in H; [|keeps_history].
  destruct H as [(e & _ & H)|(expl & s2 & Hs2 & H)];
    [left; now rewrite H, Hs1|].
  revert H. step_with get_history. step_with set_history.
  intros H. apply (bind_preserves_inv history) in H; [|keeps_history].
  right. right.
  exists (turn_of (strip line) sql rows). split.
  { now apply (turn_of_approved conn _ _ cols). }
  destruct H as [(e & _ & H)|(x' & s3 & Hs3 & [= _ <-])];
    [rewrite H | rewrite Hs3]; cbn [history]; now rewrite Hs2, Hs1.
Qed.

Lemma console_loop_history (conn : connection) (schema_txt : str)
  (fuel : nat) (st st' : console) (r : result unit) :
  console_loop w fuel conn schema_txt st = Some (r, st') ->
  Forall (approved_turn conn) (history st) ->
  Forall (approved_turn conn) (history st').
Proof.
  revert st. induction fuel as [|fuel IH]; intros st; [discriminate|].
  cbn [console_loop].
  destruct (console_iteration w conn schema_txt st) as [rc s1] eqn:E.
  intros H Hst.
  assert (Hs1 : Forall (approved_turn conn) (history s1)).
  { destruct (console_iteration_history _ _ _ _ _ E) as [->|[->|(t & Ht & ->)]];
      [assumption | constructor |].
    apply Forall_app. split; [assumption | now constructor]. }
  destruct rc as [[|]|e].
  - now apply (IH s1).
  - now inversion H; subst.
  - now inversion H; subst.
Qed.

(** X1. Whatever the script of inputs and whatever the outcome, every
    turn in the history [main] ends with carries SQL that passed the
    gate and that the database answered without error, and a preview of
    at most three rows taken from that answer. *)
Theorem main_history_holds_approved_turns (fuel : nat) (conn : connection)
  (lines : list str) (r : result unit) (st : console) :
  main w fuel conn lines = Some (r, st) ->
  Forall (approved_turn conn) (history st).
Proof.
  unfold main. destruct (db_exists w); cbn [negb].
  2:{ intros [= _ <-]. constructor. }
  destruct (get_schema conn) as [schema|e].
  2:{ intros [= _ <-]. constructor. }
  cbv zeta.
  match goal with
  | |- match console_loop w fuel conn ?txt ?s1 with _ => _ end = _ -> _ =>
      destruct (console_loop w fuel conn txt s1) as [[r' s']|] eqn:E;
      [|discriminate]
  end.
  intros [= _ <-]. cbn [close_conn snd history].
  apply (console_loop_history _ _ _ _ _ _ E). constructor.
Qed.

End HistoryInvariant.

Lemma main_history_holds_approved_turns_witness :
  exists r st,
    @main ascii_tables sample_world 10 sample_conn
      [lit "How many tracks?"; lit ""; lit "Which track is Nope?"; lit "y"] =
    Some (r, st) /\
    length (history st) = 1%nat /\
    Forall (@approved_turn ascii_tables sample_conn) (history st).
Proof.
  do 2 eexists. split; [vm_compute; reflexivity|]. split; [reflexivity|].
  eapply (@main_history_holds_approved_turns ascii_tables sample_world 10
            sample_conn
            [lit "How many tracks?"; lit ""; lit "Which track is Nope?"; lit "y"]).
  vm_compute. reflexivity.
Defined.

Section WebHistoryInvariant.
Context {U : Unicode}.
Variable w : world.

(** The branch of the button [Run] leaves the history as it is or
    appends one approved turn. *)
Lemma handle_run_history (conn : connection) (inp : web_inputs)
  (schema_txt : str) (st st' : web_session) (r : result unit) :
  handle_run w conn inp schema_txt st = (r, st') ->
  ss_history st' = ss_history st \/
  exists t, approved_turn conn t /\ ss_history st' = ss_history st ++ [t].
Proof.
  unfold handle_run.
  destruct (negb (nonempty (strip (question_input inp))));
    [unchanged ss_history|].
  destruct (negb (db_exists w)); [unchanged ss_history|].
  step_with web_history.
  step_with lift. destruct (build_history_context _ _) as [hist_ctx|e];
    [|intros [= _ <-]; now left].
  intros H. apply (bind_preserves_inv ss_history) in H; [|keeps_history].
  destruct H as [(e & _ & H)|(sql & s1 & Hs1 & H)]; [left; exact H|].
  revert H. destruct (negb (nonempty sql)).
  { intros [= _ <-]. now left. }
  step_with show.
  destruct (is_safe_select sql) eqn:Hsafe; cbn [negb].
  2:{ intros [= _ <-]. now left. }
  step_with try_except. unfold bindM at 1. unfold web_run_query at 1.
  destruct (run_query conn sql) as [[cols rows]|e] eqn:Hrun.
  2:{ step_with show. intros [= _ <-]. now left. }
  cbn [fst snd]. unfold bindM at 1. unfold lift at 1.
  destruct (DataFrame w rows cols) as [[]|e].
  2:{ step_with show. intros [= _ <-]. now left. }
  unfold ret at 1. cbv beta iota.
  step_with lift. destruct (st_dataframe w cols rows) as [[]|e].
  2:{ intros [= _ <-]. now left. }
  step_with show.
  intros H. apply (bind_preserves_inv ss_history) in H; [|keeps_history].
  destruct H as [(e & _ & H)|(expl & s2 & Hs2 & H)];
    [left; now rewrite H|].
  apply (bind_preserves_inv ss_history) in H; [|keeps_history].
  destruct H as [(e & _ & H)|(x & s3 & Hs3 & H)];
    [left; now rewrite H, Hs2|].
  revert H. step_with web_history. step_with set_web_history.
  intros H. right.
  exists (turn_of (question_input inp) sql rows). split.
  { now apply (turn_of_approved conn _ _ cols). }
  revert H.
  match goal with
  | |- ?c ?s = _ -> _ =>
      assert (Hk : preserves ss_history c) by keeps_history
  end.
  intros H. apply Hk in H. rewrite H. cbn [ss_history].
  now rewrite Hs3, Hs2, Hs1.
Qed.

Lemma load_schema_txt_keeps_history (conn : connection) :
  preserves ss_history (load_schema_txt w conn).
Proof.
  intros st r st'. unfold load_schema_txt.
  destruct (ss_schema_txt st); [now intros [= _ <-]|].
  destruct (db_exists w); [|now intros [= _ <-]].
  destruct (get_schema conn); now intros [= _ <-].
Qed.

(** X2. One run of the web script keeps the history made of approved
    turns and adds at most one turn to it: the history it leaves is the
    one it found or the empty one (button [Clear history]), possibly
    followed by one turn whose SQL passed the gate and was answered by
    the database without error. *)
Theorem app_run_history_holds_approved_turns (conn : connection)
  (inp : web_inputs) (st st' : web_session) (r : result unit) :
  app_run w conn inp st = (r, st') ->
  Forall (approved_turn conn) (ss_history st) ->
  Forall (approved_turn conn) (ss_history st') /\
  (length (ss_history st') <= length (ss_history st) + 1)%nat.
Proof.
  unfold app_run. step_with new_page. intros H Hst.
  apply (bind_preserves_inv ss_history) in H;
    [|apply load_schema_txt_keeps_history].
  destruct H as [(e & _ & H)|(schema_txt & s1 & Hs1 & H)].
  { cbn [ss_history] in H. rewrite H. split; [assumption | lia]. }
  cbn [ss_history] in Hs1.
  assert (Hclear :
            exists s2, Forall (approved_turn conn) (ss_history s2) /\
                       (length (ss_history s2) <= length (ss_history st))%nat /\
                       ((if run_clicked inp
                         then handle_run w conn inp schema_txt else ret tt) ;;;
                        h <~ web_history ;;
                        (if nonempty h
                         then show (StHistoryPanel
                                      (enumerate 1 (rev (slice_from (- max_hist inp) h))))
                         else show (StCaption (lit "No history yet."))))
                         s2 = (r, st')).
  { revert H. destruct (clear_clicked inp).
    - step_with set_web_history. step_with show.
      intros H. eexists. split; [|split; [|exact H]]; cbn [ss_history length];
        [constructor | lia].
    - unfold bindM at 1. unfold ret at 1. intros H.
      exists s1. rewrite Hs1. auto. }
  destruct Hclear as (s2 & Hap & Hlen & H2).
  assert (Hrun : forall s3 (r3 : result unit),
             (if run_clicked inp then handle_run w conn inp schema_txt
              else ret tt) s2 = (r3, s3) ->
             Forall (approved_turn conn) (ss_history s3) /\
             (length (ss_history s3) <= length (ss_history st) + 1)%nat).
  { intros s3 r3. destruct (run_clicked inp).
    - intros Hr. destruct (handle_run_history _ _ _ _ _ _ Hr)
        as [->|(t & Ht & ->)].
      + split; [assumption | lia].
      + split; [apply Forall_app; split; [assumption | now constructor]|].
        rewrite length_app. cbn [length]. lia.
    - intros [= _ <-]. split; [assumption | lia]. }
  unfold bindM at 1 in H2.
  assert (Hex : exists r3 s3,
             (if run_clicked inp then handle_run w conn inp schema_txt
              else ret tt) s2 = (r3, s3))
    by (destruct ((if run_clicked inp then handle_run w conn inp schema_txt
                   else ret tt) s2); eauto).
  destruct Hex as (r3 & s3 & E). rewrite E in H2.
  destruct (Hrun _ _ E) as [Ha Hl]. destruct r3 as [x|e].
  - assert (Hk : preserves ss_history
                   (h <~ web_history ;;
                    (if nonempty h
                     then show (StHistoryPanel
                                  (enumerate 1 (rev (slice_from (- max_hist inp) h))))
                     else show (StCaption (lit "No history yet.")))))
      by keeps_history.
    apply Hk in H2. now rewrite H2.
  - now inversion H2; subst.
Qed.

End WebHistoryInvariant.

Lemma app_run_history_holds_approved_turns_witness :
  Forall (@approved_turn ascii_tables sample_conn)
    (ss_history
       (snd (@app_run ascii_tables sample_world sample_conn
               (sample_inputs "How many tracks?") sample_session))) /\
  (length
     (ss_history
        (snd (@app_run ascii_tables sample_world sample_conn
                (sample_inputs "How many tracks?") sample_session)))
   <= length (ss_history sample_session) + 1)%nat.
Proof.
  apply (@app_run_history_holds_approved_turns ascii_tables sample_world
           sample_conn (sample_inputs "How many tracks?") sample_session _
           (fst (@app_run ascii_tables sample_world sample_conn
                   (sample_inputs "How many tracks?") sample_session))).
  - apply surjective_pairing.
  - constructor.
Defined.

(** ** Turns that do not reach the database *)

Section TurnOutcomes.
Context {U : Unicode}.
Variable w : world.

(** X3. A generated text that the gate rejects is never sent to the
    database and no confirmation is asked: the console iteration reads
    the question line only, prints the SQL and the blocked notice,
    leaves the history and the list of executed statements as they are
    and goes on. *)
Theorem console_blocked_sql_is_not_executed (conn : connection)
  (schema_txt : str) (st : console) (line : str) (rest : list str)
  (history_txt sql : str) :
  stdin st = line :: rest ->
  console_command (lower (strip line)) = false ->
  nonempty (strip line) = true ->
  build_history_context (json_dumps w) (history st) = Ok history_txt ->
  llm_sql w (strip line) schema_txt history_txt = Ok sql ->
  is_safe_select sql = false ->
  console_iteration w conn schema_txt st =
  (Ok Continue,
   {| history := history st;
      stdin := rest;
      stdout := stdout st ++
                [Print (lit "--- Generated SQL ---"); Print sql;
                 Print (lit "[BLOCKED] The generated SQL is not a single safe SELECT statement.")];
      conn_open := conn_open st;
      executed := executed st |}).
Proof.
  intros Hin Hcmd Hne Hctx Hsql Hsafe.
  destruct (console_command_false _ Hcmd) as (H1 & H2 & H3 & H4).
  unfold console_iteration.
  step_with input. rewrite Hin. cbv beta iota zeta.
  rewrite H1, H2, H3, H4, Hne. cbn [negb].
  step_with get_history.
  step_with lift. rewrite Hctx.
  step_with lift. rewrite Hsql.
  step_with print. step_with print.
  rewrite Hsafe. cbn [negb].
  step_with print. unfold ret. now rewrite <- !app_assoc.
Qed.

(** X4. The web form does the same with a rejected text: the SQL and the
    blocked notice are shown, the history is untouched and the
    connection is not used: no statement is added to the executed
    ones. *)
Theorem web_blocked_sql_is_not_executed (conn : connection) (inp : web_inputs)
  (schema_txt : str) (st : web_session) (hist_ctx sql : str) :
  nonempty (strip (question_input inp)) = true ->
  db_exists w = true ->
  build_history_context (json_dumps w)
    (app_history_arg (max_hist inp) (ss_history st)) = Ok hist_ctx ->
  llm_sql w (strip (question_input inp)) schema_txt hist_ctx = Ok sql ->
  nonempty sql = true ->
  is_safe_select sql = false ->
  handle_run w conn inp schema_txt st =
  (Ok tt,
   {| ss_schema_txt := ss_schema_txt st;
      ss_history := ss_history st;
      page := page st ++
              [StCode sql;
               StError (lit "Blocked: not a single safe SELECT statement.")];
      ss_executed := ss_executed st |}).
Proof.
  intros Hq Hdb Hctx Hsql Hne Hsafe.
  unfold handle_run. rewrite Hq, Hdb. cbn [negb].
  step_with web_history.
  step_with lift. rewrite Hctx.
  step_with try_except. unfold lift at 1. rewrite Hsql.
  rewrite Hne. cbn [negb].
  step_with show. rewrite Hsafe. cbn [negb].
  unfold show. cbn [page ss_history ss_schema_txt ss_executed].
  now rewrite <- !app_assoc.
Qed.

(** X5. An answer to [Run this query? [Y/n]] other than the empty line
    or [y] cancels the turn: the query is not sent to the database (the
    list of executed statements is as it was), the history is untouched
    and the loop goes on. *)
Theorem console_declined_query_is_not_executed (conn : connection)
  (schema_txt : str) (st : console) (line answer : str) (rest : list str)
  (history_txt sql : str) :
  stdin st = line :: answer :: rest ->
  console_command (lower (strip line)) = false ->
  nonempty (strip line) = true ->
  build_history_context (json_dumps w) (history st) = Ok history_txt ->
  llm_sql w (strip line) schema_txt history_txt = Ok sql ->
  is_safe_select sql = true ->
  confirms answer = false ->
  console_iteration w conn schema_txt st =
  (Ok Continue,
   {| history := history st;
      stdin := rest;
      stdout := stdout st ++
                [Print (lit "--- Generated SQL ---"); Print sql;
                 Print (lit "Canceled.")];
      conn_open := conn_open st;
      executed := executed st |}).
Proof.
  intros Hin Hcmd Hne Hctx Hsql Hsafe Hno.
  destruct (console_command_false _ Hcmd) as (H1 & H2 & H3 & H4).
  unfold confirms in Hno. apply negb_false_iff in Hno.
  unfold console_iteration.
  step_with input. rewrite Hin. cbv beta iota zeta.
  rewrite H1, H2, H3, H4, Hne. cbn [negb].
  step_with get_history.
  step_with lift. rewrite Hctx.
  step_with lift. rewrite Hsql.
  step_with print. step_with print.
  rewrite Hsafe. cbn [negb].
  step_with input. rewrite Hno.
  step_with print. unfold ret. now rewrite <- !app_assoc.
Qed.

(** X6. A question whose SQL passes the gate, is confirmed and is
    answered by the database completes the turn whenever its result is
    printed, whatever the explanation and the export do: the loop goes
    on, both lines are read, the statement is executed once, and the
    turn with the question, the SQL and the first three rows is
    appended to the history.  When [tabulate] raises on the rows,
    nothing catches the exception: the iteration ends with it, the
    statement has been executed and the history is as it was. *)
Theorem console_answered_query_is_recorded (conn : connection)
  (schema_txt : str) (st : console) (line answer : str) (rest : list str)
  (history_txt sql : str) (cols : list str) (rows : list row) :
  stdin st = line :: answer :: rest ->
  console_command (lower (strip line)) = false ->
  nonempty (strip line) = true ->
  build_history_context (json_dumps w) (history st) = Ok history_txt ->
  llm_sql w (strip line) schema_txt history_txt = Ok sql ->
  is_safe_select sql = true ->
  confirms answer = true ->
  run_query conn sql = Ok (cols, rows) ->
  (forall shown : str,
      printed_result w cols rows = Ok shown ->
      exists st',
        console_iteration w conn schema_txt st = (Ok Continue, st') /\
        history st' =
          history st ++ [{| turn_q := strip line; turn_sql := sql;
                            turn_preview := firstn 3 rows |}] /\
        stdin st' = rest /\
        conn_open st' = conn_open st /\
        executed st' = executed st ++ [sql]) /\
  (forall e : exn,
      printed_result w cols rows = Raise e ->
      console_iteration w conn schema_txt st =
      (Raise e,
       {| history := history st;
          stdin := rest;
          stdout := stdout st ++
                    [Print (lit "--- Generated SQL ---"); Print sql;
                     Print (lit "--- Results ---")];
          conn_open := conn_open st;
          executed := executed st ++ [sql] |})).
Proof.
  intros Hin Hcmd Hne Hctx Hsql Hsafe Hok Hrun.
  rewrite (console_iteration_reaches_query w conn schema_txt st line answer rest
             history_txt sql Hin Hcmd Hne Hctx Hsql Hsafe Hok).
  assert (Hprev : preview_of rows = firstn 3 rows).
  { unfold preview_of. destruct rows; [reflexivity | apply slice_to_three]. }
  split.
  - intros shown Hshown.
    step_with console_run_query. rewrite Hrun. cbn [fst snd].
    step_with print.
    rewrite (print_result_run w cols rows shown _ _ Hshown).
    cbn [history stdin stdout conn_open executed].
    match goal with
    | |- exists st', (expl <~ ?c1 ;; @?k expl) ?s = _ /\ _ =>
        destruct (run_quiet core c1 k s) as (expl & s2 & Hs2 & ->);
        [preserving | returning |]
    end.
    step_with get_history. step_with set_history.
    match goal with
    | |- exists st', (?c1 ;;; ?k) ?s = _ /\ _ =>
        destruct (run_quiet core c1 (fun _ => k) s) as (x3 & s3 & Hs3 & ->);
        [preserving | returning |]
    end.
    unfold ret. eexists. split; [reflexivity|].
    unfold core in *. cbn [history stdin conn_open executed] in *.
    injection Hs3 as -> -> -> ->. injection Hs2 as E1 E2 E3 E4.
    unfold turn_of. rewrite Hprev, E1, E2, E3, E4. auto.
  - intros e He.
    step_with console_run_query. rewrite Hrun. cbn [fst snd].
    step_with print.
    rewrite (print_result_raises w cols rows e _ _ He).
    now rewrite <- !app_assoc.
Qed.

End TurnOutcomes.

Lemma console_blocked_sql_is_not_executed_witness :
  @console_iteration ascii_tables sample_writer_world sample_conn
    (lit "- Track(TrackId INTEGER)")
    (sample_console [lit "Remove the tracks"; lit "y"]) =
  (Ok Continue,
   {| history := [];
      stdin := [lit "y"];
      stdout := [Print (lit "--- Generated SQL ---");
                 Print (lit "DROP TABLE Track");
                 Print (lit "[BLOCKED] The generated SQL is not a single safe SELECT statement.")];
      conn_open := true; executed := [] |}).
Proof.
  apply (@console_blocked_sql_is_not_executed ascii_tables sample_writer_world
           sample_conn (lit "- Track(TrackId INTEGER)")
           (sample_console [lit "Remove the tracks"; lit "y"])
           (lit "Remove the tracks") [lit "y"] [] (lit "DROP TABLE Track"));
    reflexivity.
Defined.

Lemma web_blocked_sql_is_not_executed_witness :
  @handle_run ascii_tables sample_writer_world sample_conn
    (sample_inputs "Remove the tracks") (lit "- Track(TrackId INTEGER)")
    sample_session =
  (Ok tt,
   {| ss_schema_txt := Some (lit "- Track(TrackId INTEGER)");
      ss_history := [];
      page := [StCode (lit "DROP TABLE Track");
               StError (lit "Blocked: not a single safe SELECT statement.")];
      ss_executed := [] |}).
Proof.
  apply (@web_blocked_sql_is_not_executed ascii_tables sample_writer_world
           sample_conn (sample_inputs "Remove the tracks")
           (lit "- Track(TrackId INTEGER)") sample_session []
           (lit "DROP TABLE Track"));
    reflexivity.
Defined.

Lemma console_declined_query_is_not_executed_witness :
  @console_iteration ascii_tables sample_world sample_conn
    (lit "- Track(TrackId INTEGER)")
    (sample_console [lit "How many tracks?"; lit " N "; lit "exit"]) =
  (Ok Continue,
   {| history := [];
      stdin := [lit "exit"];
      stdout := [Print (lit "--- Generated SQL ---");
                 Print (lit "SELECT COUNT(*) FROM Track");
                 Print (lit "Canceled.")];
      conn_open := true; executed := [] |}).
Proof.
  apply (@console_declined_query_is_not_executed ascii_tables sample_world
           sample_conn (lit "- Track(TrackId INTEGER)")
           (sample_console [lit "How many tracks?"; lit " N "; lit "exit"])
           (lit "How many tracks?") (lit " N ") [lit "exit"] []
           (lit "SELECT COUNT(*) FROM Track"));
    reflexivity.
Defined.

Lemma console_answered_query_is_recorded_witness :
  (exists st',
     @console_iteration ascii_tables sample_world sample_conn
       (lit "- Track(TrackId INTEGER)")
       (sample_console [lit "How many tracks?"; lit "Y"; lit "exit"]) =
     (Ok Continue, st') /\
     history st' =
       [] ++ [{| turn_q := lit "How many tracks?";
                 turn_sql := lit "SELECT COUNT(*) FROM Track";
                 turn_preview := firstn 3 [[SqlInteger 3503]] |}] /\
     stdin st' = [lit "exit"] /\
     conn_open st' = true /\
     executed st' = [] ++ [lit "SELECT COUNT(*) FROM Track"]) /\
  @console_iteration ascii_tables sample_ragged_world sample_conn
    (lit "- Track(TrackId INTEGER)")
    (sample_console [lit "How many tracks?"; lit "Y"; lit "exit"]) =
  (Raise (TypeError (lit "unsupported format string passed to bytes.__format__")),
   {| history := [];
      stdin := [lit "exit"];
      stdout := [] ++
                [Print (lit "--- Generated SQL ---");
                 Print (lit "SELECT COUNT(*) FROM Track");
                 Print (lit "--- Results ---")];
      conn_open := true;
      executed := [] ++ [lit "SELECT COUNT(*) FROM Track"] |}).
Proof.
  split.
  - apply (proj1
             (@console_answered_query_is_recorded ascii_tables sample_world
                sample_conn (lit "- Track(TrackId INTEGER)")
                (sample_console [lit "How many tracks?"; lit "Y"; lit "exit"])
                (lit "How many tracks?") (lit "Y") [lit "exit"] []
                (lit "SELECT COUNT(*) FROM Track") [lit "COUNT(*)"]
                [[SqlInteger 3503]] eq_refl eq_refl eq_refl eq_refl eq_refl
                eq_refl eq_refl eq_refl)
             (lit "|   COUNT(*) |")).
    reflexivity.
  - apply (proj2
             (@console_answered_query_is_recorded ascii_tables
                sample_ragged_world
                sample_conn (lit "- Track(TrackId INTEGER)")
                (sample_console [lit "How many tracks?"; lit "Y"; lit "exit"])
                (lit "How many tracks?") (lit "Y") [lit "exit"] []
                (lit "SELECT COUNT(*) FROM Track") [lit "COUNT(*)"]
                [[SqlInteger 3503]] eq_refl eq_refl eq_refl eq_refl eq_refl
                eq_refl eq_refl eq_refl)).
    reflexivity.
Defined.

(** ** Commands and failures of the generation service *)

Section Commands.
Context {U : Unicode}.
Variable w : world.

(** X7. The command [:clear], in any letter case and with spaces
    around, empties the history without calling the generation service
    or the database, and the context built from the cleared history is
    the empty text, so that the next prompt carries no history. *)
Theorem console_clear_empties_history (conn : connection) (schema_txt : str)
  (st : console) (line : str) (rest : list str) :
  stdin st = line :: rest ->
  lower (strip line) = lit ":clear" ->
  console_iteration w conn schema_txt st =
  (Ok Continue,
   {| history := [];
      stdin := rest;
      stdout := stdout st ++ [Print (lit "History cleared.")];
      conn_open := conn_open st;
      executed := executed st |}) /\
  build_history_context (json_dumps w) [] = Ok [].
Proof.
  intros Hin Hlow. split; [|reflexivity].
  unfold console_iteration.
  step_with input. rewrite Hin. cbv beta iota zeta. rewrite Hlow.
  reflexivity.
Qed.

(** X8. The commands [exit], [quit] and [q] end the loop normally: the
    lines that follow are not read and the history is as it was. *)
Theorem console_exit_ends_loop (fuel : nat) (conn : connection)
  (schema_txt : str) (st : console) (line : str) (rest : list str) :
  stdin st = line :: rest ->
  In (lower (strip line)) [lit "exit"; lit "quit"; lit "q"] ->
  console_loop w (S fuel) conn schema_txt st =
  Some (Ok tt,
        {| history := history st;
           stdin := rest;
           stdout := stdout st ++ [Print (lit "Exiting. Goodbye!")];
           conn_open := conn_open st;
           executed := executed st |}).
Proof.
  intros Hin Hlow. cbn [console_loop]. unfold console_iteration.
  step_with input. rewrite Hin. cbv beta iota zeta.
  replace (existsb (str_eqb (lower (strip line)))
             [lit "exit"; lit "quit"; lit "q"]) with true.
  - reflexivity.
  - symmetry. apply existsb_exists. exists (lower (strip line)).
    split; [assumption | apply str_eqb_refl].
Qed.

(** X9. Without a client the console session ends at the first
    question: [llm_sql] raises [RuntimeError], nothing catches it, the
    loop ends with that exception and the confirmation is never asked. *)
Theorem console_without_client_ends_at_first_question (fuel : nat)
  (conn : connection) (schema_txt : str) (st : console) (line : str)
  (rest : list str) (history_txt : str) :
  client w = None ->
  stdin st = line :: rest ->
  console_command (lower (strip line)) = false ->
  nonempty (strip line) = true ->
  build_history_context (json_dumps w) (history st) = Ok history_txt ->
  console_loop w (S fuel) conn schema_txt st =
  Some (Raise (RuntimeError
                 (lit "OpenAI SDK not available. `pip install openai` and set OPENAI_API_KEY in .env")),
        {| history := history st; stdin := rest; stdout := stdout st;
           conn_open := conn_open st;
           executed := executed st |}).
Proof.
  intros Hc Hin Hcmd Hne Hctx.
  destruct (console_command_false _ Hcmd) as (H1 & H2 & H3 & H4).
  cbn [console_loop]. unfold console_iteration.
  step_with input. rewrite Hin. cbv beta iota zeta.
  rewrite H1, H2, H3, H4, Hne. cbn [negb].
  step_with get_history.
  step_with lift. rewrite Hctx.
  step_with lift. unfold llm_sql. rewrite Hc. reflexivity.
Qed.

(** X10. In the web form a failure of the generation step, whatever the
    exception, is confined to the run: its message is shown, nothing is
    executed (the list of executed statements is as it was) and the
    history is as it was. *)
Theorem web_generation_failure_is_isolated (conn : connection)
  (inp : web_inputs) (schema_txt : str) (st : web_session) (hist_ctx : str)
  (e : exn) :
  nonempty (strip (question_input inp)) = true ->
  db_exists w = true ->
  build_history_context (json_dumps w)
    (app_history_arg (max_hist inp) (ss_history st)) = Ok hist_ctx ->
  llm_sql w (strip (question_input inp)) schema_txt hist_ctx = Raise e ->
  handle_run w conn inp schema_txt st =
  (Ok tt,
   {| ss_schema_txt := ss_schema_txt st;
      ss_history := ss_history st;
      page := page st ++
              [StError (lit "Failed to generate SQL: " ++ exn_message e)];
      ss_executed := ss_executed st |}).
Proof.
  intros Hq Hdb Hctx Hsql.
  unfold handle_run. rewrite Hq, Hdb. cbn [negb].
  step_with web_history.
  step_with lift. rewrite Hctx.
  step_with try_except. unfold lift at 1. rewrite Hsql.
  step_with show. reflexivity.
Qed.

(** X11. The console program ends on every finite script of inputs:
    with more fuel than lines, [main] returns an outcome. *)
Theorem main_ends_on_finite_input (fuel : nat) (conn : connection)
  (lines : list str) :
  (length lines < fuel)%nat ->
  exists outcome, main w fuel conn lines = Some outcome.
Proof.
  intros Hfuel. unfold main.
  destruct (db_exists w); cbn [negb]; [|eexists; reflexivity].
  destruct (get_schema conn) as [schema|e]; [|eexists; reflexivity].
  cbv zeta.
  match goal with
  | |- exists o, match console_loop w fuel conn ?txt ?s1 with _ => _ end = _ =>
      destruct (console_loop_total w conn txt fuel s1) as ([r s'] & ->);
      [exact Hfuel | eexists; reflexivity]
  end.
Qed.

End Commands.

Lemma console_clear_empties_history_witness :
  @console_iteration ascii_tables sample_world sample_conn
    (lit "- Track(TrackId INTEGER)")
    {| history := sixteen_turns; stdin := [lit "  :Clear "; lit "exit"];
       stdout := []; conn_open := true; executed := [] |} =
  (Ok Continue,
   {| history := [];
      stdin := [lit "exit"];
      stdout := [] ++ [Print (lit "History cleared.")];
      conn_open := true; executed := [] |}) /\
  build_history_context (json_dumps sample_world) [] = Ok [].
Proof.
  apply (@console_clear_empties_history ascii_tables sample_world sample_conn
           (lit "- Track(TrackId INTEGER)")
           {| history := sixteen_turns; stdin := [lit "  :Clear "; lit "exit"];
              stdout := []; conn_open := true; executed := [] |}
           (lit "  :Clear ") [lit "exit"]);
    reflexivity.
Defined.

Lemma console_exit_ends_loop_witness :
  @console_loop ascii_tables sample_world 1 sample_conn
    (lit "- Track(TrackId INTEGER)")
    (sample_console [lit "QUIT"; lit "How many tracks?"]) =
  Some (Ok tt,
        {| history := [];
           stdin := [lit "How many tracks?"];
           stdout := [] ++ [Print (lit "Exiting. Goodbye!")];
           conn_open := true; executed := [] |}).
Proof.
  apply (@console_exit_ends_loop ascii_tables sample_world 0 sample_conn
           (lit "- Track(TrackId INTEGER)")
           (sample_console [lit "QUIT"; lit "How many tracks?"])
           (lit "QUIT") [lit "How many tracks?"]).
  - reflexivity.
  - right. left. reflexivity.
Defined.

Lemma console_without_client_ends_at_first_question_witness :
  @console_loop ascii_tables sample_offline_world 1 sample_conn
    (lit "- Track(TrackId INTEGER)")
    (sample_console [lit "How many tracks?"; lit "y"]) =
  Some (Raise (RuntimeError
                 (lit "OpenAI SDK not available. `pip install openai` and set OPENAI_API_KEY in .env")),
        {| history := []; stdin := [lit "y"]; stdout := [];
           conn_open := true; executed := [] |}).
Proof.
  apply (@console_without_client_ends_at_first_question ascii_tables
           sample_offline_world 0 sample_conn (lit "- Track(TrackId INTEGER)")
           (sample_console [lit "How many tracks?"; lit "y"])
           (lit "How many tracks?") [lit "y"] []);
    reflexivity.
Defined.

Lemma web_generation_failure_is_isolated_witness :
  @handle_run ascii_tables sample_offline_world sample_conn
    (sample_inputs "How many tracks?") (lit "- Track(TrackId INTEGER)")
    sample_session =
  (Ok tt,
   {| ss_schema_txt := Some (lit "- Track(TrackId INTEGER)");
      ss_history := [];
      page := [] ++
              [StError (lit "Failed to generate SQL: " ++
                        exn_message
                          (RuntimeError
                             (lit "OpenAI SDK not available. `pip install openai` and set OPENAI_API_KEY in .env")))];
      ss_executed := [] |}).
Proof.
  apply (@web_generation_failure_is_isolated ascii_tables sample_offline_world
           sample_conn (sample_inputs "How many tracks?")
           (lit "- Track(TrackId INTEGER)") sample_session []);
    reflexivity.
Defined.

Lemma main_ends_on_finite_input_witness :
  exists outcome,
    @main ascii_tables sample_world 3 sample_conn
      [lit "How many tracks?"; lit "y"] = Some outcome.
Proof.
  apply (@main_ends_on_finite_input ascii_tables sample_world 3 sample_conn
           [lit "How many tracks?"; lit "y"]).
  simpl. lia.
Defined.

(** ** The shape of a slug *)

Lemma last_char_app (a b : str) :
  last_char (a ++ b) = match last_char b with Some c => Some c | None => last_char a end.
Proof.
  unfold last_char. rewrite fold_left_app.
  generalize (fold_left (fun (_ : option char) (c : char) => Some c) a None).
  induction b as [|x b IH] using rev_ind; intros o; [now destruct o|].
  now rewrite !fold_left_app.
Qed.

Lemma last_char_snoc (a : str) (c : char) : last_char (a ++ [c]) = Some c.
Proof. now rewrite last_char_app. Qed.

Lemma lstrip_by_head (p : char -> bool) (s : str) (c : char) (r : str) :
  lstrip_by p s = c :: r -> p c = false.
Proof.
  induction s as [|x s IH]; simpl; [discriminate|].
  destruct (p x) eqn:Hx; [assumption|]. now intros [= <- _].
Qed.

Lemma rstrip_by_last (p : char -> bool) (s : str) (c : char) :
  last_char (rstrip_by p s) = Some c -> p c = false.
Proof.
  unfold rstrip_by. destruct (lstrip_by p (rev s)) as [|x r] eqn:E;
    [discriminate|].
  simpl. rewrite last_char_snoc. intros [= <-].
  now apply lstrip_by_head in E.
Qed.

Lemma rstrip_by_keeps_head (p : char -> bool) (c : char) (r : str) :
  p c = false -> exists r', rstrip_by p (c :: r) = c :: r'.
Proof.
  intros Hc. destruct (rstrip_by_split p (c :: r)) as (ws & Heq & Hws).
  destruct (rstrip_by p (c :: r)) as [|x r'].
  - simpl in Heq. subst ws. simpl in Hws. now rewrite Hc in Hws.
  - injection Heq as <- _. now exists r'.
Qed.

Lemma dashes_single_app (a b : str) :
  dashes_single (a ++ b) = true ->
  dashes_single a = true /\ dashes_single b = true.
Proof.
  induction a as [|x a IH]; [now split|].
  destruct a as [|y a].
  - simpl. destruct b; [now split|].
    intros H. apply andb_true_iff in H as [_ H]. now split.
  - change ((x :: y :: a) ++ b) with (x :: y :: (a ++ b)).
    cbn [dashes_single]. intros H. apply andb_true_iff in H as [H1 H2].
    destruct (IH H2) as [Ha Hb]. split; [|assumption].
    now rewrite H1.
Qed.

Lemma is_dash_lower (c : char) : is_dash (ascii_lower c) = is_dash c.
Proof. unfold is_dash. ascii_cases. Qed.

Lemma dashes_single_lower (s : str) :
  dashes_single (map ascii_lower s) = dashes_single s.
Proof.
  induction s as [|a s IH]; [reflexivity|].
  destruct s as [|b s]; [reflexivity|].
  change (map ascii_lower (a :: b :: s))
    with (ascii_lower a :: ascii_lower b :: map ascii_lower s).
  cbn [dashes_single]. f_equal; [now rewrite !is_dash_lower | exact IH].
Qed.

Lemma alnum_not_dash (c : char) : ascii_isalnum c = true -> is_dash c = false.
Proof. intros H. unfold is_dash. ascii_cases. Qed.

(** The scan never emits two separators in a row, and none at the start
    when it is entered inside a run. *)
Lemma sub_dashes_single (b : bool) (s : str) :
  dashes_single (sub_non_alnum_runs b s) = true /\
  (b = true -> hd_error (sub_non_alnum_runs b s) <> Some ch_dash).
Proof.
  revert b. induction s as [|c s IH]; intros b; [split; [reflexivity | discriminate]|].
  cbn [sub_non_alnum_runs]. destruct (ascii_isalnum c) eqn:Hc.
  - destruct (IH false) as [H1 _]. split.
    + destruct (sub_non_alnum_runs false s) as [|x r] eqn:E; [reflexivity|].
      change (dashes_single (c :: x :: r))
        with (negb (is_dash c && is_dash x) && dashes_single (x :: r)).
      now rewrite (alnum_not_dash c Hc), H1.
    + intros _. simpl. intros [= ->]. discriminate Hc.
  - destruct (IH true) as [H1 H2]. destruct b; [split; auto|]. split.
    + destruct (sub_non_alnum_runs true s) as [|x r] eqn:E; [reflexivity|].
      change (dashes_single (ch_dash :: x :: r))
        with (negb (is_dash ch_dash && is_dash x) && dashes_single (x :: r)).
      rewrite H1, andb_true_r.
      specialize (H2 eq_refl). simpl in H2.
      unfold is_dash at 2. destruct (N.eqb_spec x ch_dash) as [->|]; [congruence|].
      now rewrite andb_false_r.
    + discriminate.
Qed.

Lemma lower_slug_char (c : char) :
  ascii_isalnum c = true \/ c = ch_dash -> slug_char (ascii_lower c) = true.
Proof. intros [H| ->]; [|reflexivity]. unfold slug_char, is_dash. ascii_cases. Qed.

Lemma query_shaped : slug_shaped (lit "query") = true.
Proof. reflexivity. Qed.

(** A text of the shape of [firstn 40 (map lower (strip "-" (sub ..)))]
    with its trailing separators removed is slug-shaped. *)
Lemma finished_slug_shaped (text : str) (c0 : char) (r0 : str) :
  firstn 40 (map ascii_lower (strip_by is_dash (collapse_runs text))) = c0 :: r0 ->
  slug_shaped (rstrip_by is_dash (c0 :: r0)) = true.
Proof.
  intros Hf.
  set (core := strip_by is_dash (collapse_runs text)) in *.
  assert (Hc0 : is_dash c0 = false).
  { destruct core as [|x r] eqn:Hcore; [discriminate|].
    apply strip_by_head in Hcore. simpl in Hf. injection Hf as <- _.
    now rewrite is_dash_lower. }
  destruct (rstrip_by_split is_dash (c0 :: r0)) as (ws & Heq & Hws).
  destruct (rstrip_by_keeps_head is_dash c0 r0 Hc0) as (r' & Hr).
  assert (Hin : forall x, In x (rstrip_by is_dash (c0 :: r0)) ->
                          exists y, In y (collapse_runs text) /\ x = ascii_lower y).
  { intros x Hx.
    assert (Hx' : In x (c0 :: r0)) by (rewrite Heq; apply in_or_app; now left).
    rewrite <- Hf in Hx'. apply In_firstn in Hx'.
    apply in_map_iff in Hx' as (y & <- & Hy). exists y. split; [|reflexivity].
    now apply strip_by_incl in Hy. }
  assert (Hsingle : dashes_single (c0 :: r0) = true).
  { rewrite <- Hf.
    assert (H1 : dashes_single (collapse_runs text) = true).
    { rewrite <- (proj1 (sub_non_alnum_runs_collapse text)).
      apply sub_dashes_single. }
    assert (H2 : dashes_single core = true).
    { unfold core, strip_by.
      destruct (lstrip_by_split is_dash (collapse_runs text)) as (w1 & E1 & _).
      destruct (rstrip_by_split is_dash (lstrip_by is_dash (collapse_runs text)))
        as (w2 & E2 & _).
      rewrite E1 in H1. apply dashes_single_app in H1 as [_ H1].
      rewrite E2 in H1. now apply dashes_single_app in H1 as [H1 _]. }
    rewrite <- dashes_single_lower in H2.
    rewrite <- (firstn_skipn 40 (map ascii_lower core)) in H2.
    now apply dashes_single_app in H2 as [H2 _]. }
  unfold slug_shaped. repeat (apply andb_true_iff; split).
  - apply Nat.leb_le.
    assert (Hl : (length (c0 :: r0) <= 40)%nat)
      by (rewrite <- Hf; apply firstn_le_length).
    rewrite Heq, length_app in Hl. lia.
  - apply forallb_forall. intros x Hx.
    destruct (Hin x Hx) as (y & Hy & ->). apply lower_slug_char.
    rewrite <- (proj1 (sub_non_alnum_runs_collapse text)) in Hy.
    now apply sub_chars in Hy.
  - rewrite Hr. simpl. now rewrite Hc0.
  - destruct (last_char (rstrip_by is_dash (c0 :: r0))) as [x|] eqn:El.
    + simpl. now rewrite (rstrip_by_last _ _ _ El).
    + rewrite Hr in El. destruct r' using rev_ind; [discriminate|].
      change (c0 :: r' ++ [x]) with ((c0 :: r') ++ [x]) in El.
      now rewrite last_char_snoc in El.
  - rewrite Heq in Hsingle. now apply dashes_single_app in Hsingle as [H _].
Qed.

Section SlugShape.
Context {U : Unicode}.

(** The steps of [slugify], with the redundant ones removed. *)
Lemma slugify_steps (text : str) :
  slugify text =
  match firstn 40 (map ascii_lower (strip_by is_dash (collapse_runs text))) with
  | [] => lit "query"
  | (_ :: _) as s => rstrip_by is_dash s
  end.
Proof.
  unfold slugify, slugify_maxlen.
  change 40%Z with (Z.of_nat 40). rewrite slice_to_nonneg.
  rewrite strip_dash_sub_strip.
  rewrite lower_ascii.
  2:{ apply forallb_forall. intros c Hc. apply strip_by_incl in Hc.
      rewrite <- (proj1 (sub_non_alnum_runs_collapse text)) in Hc.
      apply alnum_or_dash_ascii. now apply sub_chars in Hc. }
  destruct (strip_by is_dash (collapse_runs text)) as [|c0 r0] eqn:Hcore;
    [reflexivity|].
  apply strip_by_head in Hcore.
  cbn [map].
  change (firstn 40 (ascii_lower c0 :: map ascii_lower r0))
    with (ascii_lower c0 :: firstn 39 (map ascii_lower r0)).
  cbv beta iota delta [str_or]. unfold strip_by.
  rewrite lstrip_by_head_stop; [reflexivity|].
  unfold is_dash in *. ascii_cases.
Qed.

Lemma slugify_is_shaped (text : str) : slug_shaped (slugify text) = true.
Proof.
  rewrite slugify_steps.
  destruct (firstn 40 _) as [|c0 r0] eqn:Hf; [apply query_shaped|].
  now apply (finished_slug_shaped text).
Qed.

Lemma slug_char_alnum (c : char) :
  slug_char c = true -> is_dash c = false -> ascii_isalnum c = true.
Proof. unfold slug_char, is_dash. intros H1 H2. ascii_cases. Qed.

Lemma slug_char_lower (c : char) : slug_char c = true -> ascii_lower c = c.
Proof. unfold slug_char, is_dash. intros H. ascii_cases. Qed.

(** On a text of the shape the scan changes nothing. *)
Lemma sub_shaped (s : str) :
  forallb slug_char s = true -> dashes_single s = true ->
  sub_non_alnum_runs false s = s /\
  (not_dash (hd_error s) = true -> sub_non_alnum_runs true s = s).
Proof.
  induction s as [|c s IH]; [split; [reflexivity | discriminate]|].
  intros Hc Hs. simpl in Hc. apply andb_true_iff in Hc as [Hc Hall].
  assert (Hs' : dashes_single s = true).
  { destruct s; [reflexivity|]. cbn [dashes_single] in Hs.
    now apply andb_true_iff in Hs as [_ Hs]. }
  destruct (IH Hall Hs') as [IHf IHt].
  cbn [sub_non_alnum_runs]. destruct (is_dash c) eqn:Hd.
  - assert (Hnot : ascii_isalnum c = false).
    { destruct (ascii_isalnum c) eqn:E; [|reflexivity].
      now rewrite (alnum_not_dash c E) in Hd. }
    rewrite Hnot. split; [|simpl; now rewrite Hd].
    apply N.eqb_eq in Hd. subst c. f_equal.
    destruct s as [|x s]; [reflexivity|]. apply IHt.
    cbn [dashes_single] in Hs. apply andb_true_iff in Hs as [Hs _].
    simpl. apply negb_true_iff in Hs. simpl in Hs. now rewrite Hs.
  - rewrite (slug_char_alnum c Hc Hd). now rewrite IHf.
Qed.

Lemma last_char_rev (s : str) : last_char s = hd_error (rev s).
Proof.
  destruct s as [|c s] using rev_ind; [reflexivity|].
  now rewrite last_char_snoc, rev_app_distr.
Qed.

Lemma strip_by_ends (p : char -> bool) (s : str) :
  match hd_error s with Some c => negb (p c) | None => false end = true ->
  match last_char s with Some c => negb (p c) | None => false end = true ->
  strip_by p s = s.
Proof.
  intros Hh Hl. unfold strip_by, rstrip_by.
  destruct s as [|c s]; [discriminate|]. simpl in Hh.
  apply negb_true_iff in Hh. rewrite (lstrip_by_head_stop p c s Hh).
  rewrite last_char_rev in Hl.
  destruct (rev (c :: s)) as [|x r] eqn:E; [discriminate|].
  simpl in Hl. apply negb_true_iff in Hl.
  rewrite (lstrip_by_head_stop p x r Hl), <- E. apply rev_involutive.
Qed.

Lemma shaped_slug_is_fixed (s : str) :
  slug_shaped s = true -> slugify s = s.
Proof.
  unfold slug_shaped. intros H.
  apply andb_true_iff in H as [H Hsingle]. apply andb_true_iff in H as [H Hlast].
  apply andb_true_iff in H as [H Hhead]. apply andb_true_iff in H as [Hlen Hall].
  apply Nat.leb_le in Hlen.
  rewrite slugify_steps.
  rewrite <- (proj1 (sub_non_alnum_runs_collapse s)).
  rewrite (proj1 (sub_shaped s Hall Hsingle)).
  rewrite (strip_by_ends is_dash s Hhead Hlast).
  replace (map ascii_lower s) with s.
  2:{ rewrite <- (map_id s) at 1. apply map_ext_in. intros c Hc.
      symmetry. apply slug_char_lower.
      rewrite forallb_forall in Hall. auto. }
  rewrite (firstn_all2 s Hlen).
  destruct s as [|c r]; [discriminate|].
  pose proof (strip_by_ends is_dash (c :: r) Hhead Hlast) as Hstrip.
  unfold strip_by in Hstrip. simpl in Hhead. apply negb_true_iff in Hhead.
  now rewrite (lstrip_by_head_stop is_dash c r Hhead) in Hstrip.
Qed.

Lemma dashes_single_no_pair (s pre post : str) :
  dashes_single s = true -> s <> pre ++ ch_dash :: ch_dash :: post.
Proof.
  intros H ->. apply dashes_single_app in H as [_ H]. discriminate H.
Qed.

(** X12. The slug of any question is a usable file-name stem: it is not
    empty, has at most 40 characters, all of them lowercase ASCII
    letters, digits or ["-"], it neither starts nor ends with ["-"], and
    it has no two ["-"] in a row. *)
Theorem slugify_is_a_file_name_stem (text : str) :
  slugify text <> [] /\
  (length (slugify text) <= 40)%nat /\
  (forall c, In c (slugify text) ->
             ascii_islower c = true \/ ascii_isdigit c = true \/ c = ch_dash) /\
  hd_error (slugify text) <> Some ch_dash /\
  last_char (slugify text) <> Some ch_dash /\
  (forall pre post, slugify text <> pre ++ ch_dash :: ch_dash :: post).
Proof.
  pose proof (slugify_is_shaped text) as H. unfold slug_shaped in H.
  apply andb_true_iff in H as [H Hsingle]. apply andb_true_iff in H as [H Hlast].
  apply andb_true_iff in H as [H Hhead]. apply andb_true_iff in H as [Hlen Hall].
  repeat split.
  - intros E. rewrite E in Hhead. discriminate.
  - now apply Nat.leb_le.
  - intros c Hc. rewrite forallb_forall in Hall. specialize (Hall c Hc).
    unfold slug_char in Hall.
    apply orb_true_iff in Hall as [Hall|Hall];
      [apply orb_true_iff in Hall as [?|?]; auto|].
    right. right. now apply N.eqb_eq.
  - intros E. rewrite E in Hhead. discriminate.
  - intros E. rewrite E in Hlast. discriminate.
  - intros pre post. now apply dashes_single_no_pair.
Qed.

(** X13. [slugify] is idempotent: the slug of a slug is that slug. *)
Theorem slugify_is_idempotent (text : str) :
  slugify (slugify text) = slugify text.
Proof. apply shaped_slug_is_fixed, slugify_is_shaped. Qed.

End SlugShape.

(** ** The gate and the whitespace around a statement *)

Section GateWhitespace.
Context {U : Unicode}.

Lemma match_literal_prev_irrelevant (kw rest : str) (p1 p2 : option char) :
  kw <> [] -> match_literal kw p1 rest = match_literal kw p2 rest.
Proof. destruct kw; [congruence|]. reflexivity. Qed.

Lemma match_at_prev (p1 p2 : option char) (rest : str) :
  isword_opt p1 = isword_opt p2 ->
  write_regex_match_at p1 rest = write_regex_match_at p2 rest.
Proof.
  intros H. unfold write_regex_match_at, word_boundary. rewrite H.
  apply (f_equal (andb _)).
  apply existsb_ext_in. intros kw Hkw.
  rewrite (match_literal_prev_irrelevant kw rest p1 p2); [reflexivity|].
  now destruct (keywords_are_upper kw Hkw).
Qed.

Lemma search_from_prev (p1 p2 : option char) (rest : str) :
  isword_opt p1 = isword_opt p2 ->
  write_regex_search_from p1 rest = write_regex_search_from p2 rest.
Proof.
  intros H. destruct rest as [|c rest].
  - now rewrite !search_from_nil.
  - now rewrite !search_from_cons, (match_at_prev p1 p2 _ H).
Qed.

(** Separators before the text do not change the keyword search. *)
Lemma search_from_skip_separators (seps rest : str) (prev : option char) :
  forallb is_separator seps = true ->
  isword_opt prev = false ->
  write_regex_search_from prev (seps ++ rest) =
  write_regex_search_from prev rest.
Proof.
  revert prev. induction seps as [|c seps IH]; intros prev Hs Hp; [reflexivity|].
  simpl in Hs. apply andb_true_iff in Hs as [Hc Hs].
  pose proof (separator_not_word c Hc) as Hw.
  change ((c :: seps) ++ rest) with (c :: (seps ++ rest)).
  rewrite search_from_cons.
  replace (write_regex_match_at prev (c :: seps ++ rest)) with false.
  - simpl. rewrite (IH (Some c) Hs Hw). apply search_from_prev.
    simpl. now rewrite Hw, Hp.
  - symmetry. unfold write_regex_match_at, word_boundary. simpl.
    now rewrite Hp, Hw.
Qed.

Lemma strip_surrounded (ws1 sql ws2 : str) :
  forallb isspace ws1 = true -> forallb isspace ws2 = true ->
  strip (ws1 ++ sql ++ ws2) = strip sql.
Proof.
  intros H1 H2. unfold strip, strip_by.
  rewrite lstrip_by_app, H1, lstrip_by_app.
  destruct (forallb isspace sql) eqn:Hs.
  - now rewrite (lstrip_by_all _ _ H2), (lstrip_by_all _ _ Hs).
  - now apply rstrip_by_app_all.
Qed.

(** X14. The verdict of the gate does not depend on ASCII whitespace
    (spaces, tabs, line breaks) before and after the candidate text. *)
Theorem is_safe_select_ignores_surrounding_whitespace (ws1 sql ws2 : str) :
  forallb ascii_isspace ws1 = true ->
  forallb ascii_isspace ws2 = true ->
  is_safe_select (ws1 ++ sql ++ ws2) = is_safe_select sql.
Proof.
  intros H1 H2.
  assert (Hsp : forall ws, forallb ascii_isspace ws = true ->
                           forallb isspace ws = true /\
                           forallb is_separator ws = true).
  { intros ws H. rewrite !forallb_forall in *.
    split; auto using ascii_space_is_space, space_is_separator. }
  destruct (Hsp ws1 H1) as [Hs1 Hp1]. destruct (Hsp ws2 H2) as [Hs2 Hp2].
  unfold is_safe_select, WRITE_REGEX_search.
  rewrite (strip_surrounded ws1 sql ws2 Hs1 Hs2).
  rewrite (search_from_skip_separators ws1 _ None Hp1 eq_refl).
  now rewrite (search_from_app_separators None sql ws2 Hp2).
Qed.

End GateWhitespace.

Lemma is_safe_select_ignores_surrounding_whitespace_witness :
  @is_safe_select ascii_tables
    ([10; 32] ++ lit "select * from track" ++ [32; 9; 10]) =
  @is_safe_select ascii_tables (lit "select * from track").
Proof.
  apply (@is_safe_select_ignores_surrounding_whitespace ascii_tables
           [10; 32] (lit "select * from track") [32; 9; 10]);
    reflexivity.
Defined.

(** ** The answer of the generation service *)

Lemma drop_prefix_app (p x : str) : drop_prefix p (p ++ x) = Some x.
Proof.
  unfold drop_prefix.
  assert (H : startswith (p ++ x) p = true).
  { induction p as [|c p IH]; simpl; [now destruct x|].
    now rewrite N.eqb_refl. }
  rewrite H. f_equal.
  induction p as [|c p IH]; [reflexivity|]. simpl in *. apply IH.
  apply andb_true_iff in H as [_ H]. exact H.
Qed.

Lemma startswith_self_app (p x : str) : startswith (p ++ x) p = true.
Proof.
  induction p as [|c p IH]; simpl; [now destruct x|]. now rewrite N.eqb_refl.
Qed.

Lemma strip_by_fixed (p : char -> bool) (s : str) :
  strip_by p s = s -> lstrip_by p s = s /\ rstrip_by p s = s.
Proof.
  intros H. unfold strip_by in H.
  destruct (lstrip_by_split p s) as (w1 & E1 & _).
  destruct (rstrip_by_split p (lstrip_by p s)) as (w2 & E2 & _).
  assert (Hl : lstrip_by p s = s).
  { pose proof (f_equal (@length char) E1) as L1.
    pose proof (f_equal (@length char) E2) as L2.
    rewrite length_app in L1, L2. rewrite H in L2.
    destruct w1 as [|x w1]; [now simpl in E1 | simpl in L1; lia]. }
  split; [assumption|]. now rewrite Hl in H.
Qed.

Lemma strip_by_idempotent (p : char -> bool) (s : str) :
  strip_by p (strip_by p s) = strip_by p s.
Proof.
  destruct (strip_by p s) as [|c r] eqn:E; [reflexivity|].
  rewrite <- E. apply strip_by_ends.
  - rewrite E. simpl. now rewrite (strip_by_head p s c r E).
  - destruct (last_char (strip_by p s)) as [x|] eqn:El.
    + unfold strip_by in El. now rewrite (rstrip_by_last _ _ _ El).
    + rewrite E in El. destruct r using rev_ind; [discriminate|].
      change (c :: r ++ [x]) with ((c :: r) ++ [x]) in El.
      now rewrite last_char_snoc in El.
Qed.

Section GeneratedText.
Context {U : Unicode}.
Variable w : world.

Lemma backtick_not_space : isspace 96 = false.
Proof. now rewrite isspace_ascii. Qed.

Lemma newline_is_space : isspace ch_newline = true.
Proof. now rewrite isspace_ascii. Qed.

(** The post-processing of a fenced answer. *)
Lemma fenced_answer_unwrapped (tag body : str) :
  tag = [] \/ tag = lit "sql" ->
  body <> [] ->
  strip body = body ->
  strip (strip_code_fences
           (strip (fence ++ tag ++ nl ++ body ++ nl ++ fence))) = body.
Proof.
  intros Htag Hne Hbody.
  destruct (strip_by_fixed isspace body Hbody) as [Hl Hr].
  assert (Hhead : exists c r, body = c :: r /\ isspace c = false).
  { destruct body as [|c r]; [congruence|]. exists c, r. split; [reflexivity|].
    now apply (strip_by_head isspace (c :: r) c r). }
  destruct Hhead as (c & r & Hcr & Hc).
  assert (Hstrip : strip (fence ++ tag ++ nl ++ body ++ nl ++ fence) =
                   fence ++ tag ++ nl ++ body ++ nl ++ fence).
  { apply strip_by_ends.
    - simpl. now rewrite backtick_not_space.
    - rewrite !last_char_app.
      replace (last_char fence) with (Some 96) by reflexivity.
      cbv iota beta. now rewrite backtick_not_space. }
  rewrite Hstrip. unfold strip_code_fences.
  rewrite drop_prefix_app.
  assert (Hopen : lstrip_by isspace
                    match drop_prefix (lit "sql") (tag ++ nl ++ body ++ nl ++ fence) with
                    | Some r' => r'
                    | None => tag ++ nl ++ body ++ nl ++ fence
                    end = body ++ nl ++ fence).
  { assert (Hnl : lstrip_by isspace (nl ++ body ++ nl ++ fence) = body ++ nl ++ fence).
    { unfold nl at 1. simpl. rewrite newline_is_space.
      rewrite Hcr. simpl. now rewrite Hc. }
    destruct Htag as [->| ->].
    - reflexivity || (simpl app; exact Hnl).
    - now rewrite drop_prefix_app. }
  rewrite Hopen.
  assert (Hend : endswith (body ++ nl ++ fence) fence = true).
  { unfold endswith. rewrite !rev_app_distr, <- app_assoc.
    apply startswith_self_app. }
  rewrite Hend.
  replace (length (body ++ nl ++ fence) - 3)%nat with (length (body ++ nl) + 0)%nat
    by (rewrite !length_app; simpl; lia).
  rewrite (app_assoc body nl fence), firstn_app_2. simpl firstn.
  rewrite app_nil_r. unfold nl. rewrite (rstrip_by_snoc _ _ _ newline_is_space).
  rewrite Hr. exact Hbody.
Qed.

(** X15. An answer wrapped in a code fence, with or without the [sql]
    tag, is unwrapped: [llm_sql] returns the statement between the
    fence lines. *)
Theorem llm_sql_unwraps_fenced_answer (question schema_txt history_txt : str)
  (create : chat_request -> result str) (tag body : str) :
  client w = Some create ->
  (forall req, create req = Ok (fence ++ tag ++ nl ++ body ++ nl ++ fence)) ->
  tag = [] \/ tag = lit "sql" ->
  body <> [] ->
  strip body = body ->
  llm_sql w question schema_txt history_txt = Ok body.
Proof.
  intros Hc Hcreate Htag Hne Hbody. unfold llm_sql. rewrite Hc, Hcreate.
  cbn [bind]. f_equal. now apply fenced_answer_unwrapped.
Qed.

(** X16. An answer that neither starts nor ends with a code fence is
    returned with the surrounding whitespace removed and otherwise
    untouched. *)
Theorem llm_sql_trims_plain_answer (question schema_txt history_txt : str)
  (create : chat_request -> result str) (content : str) :
  client w = Some create ->
  (forall req, create req = Ok content) ->
  startswith (strip content) fence = false ->
  endswith (strip content) fence = false ->
  llm_sql w question schema_txt history_txt = Ok (strip content).
Proof.
  intros Hc Hcreate Hs He. unfold llm_sql. rewrite Hc, Hcreate.
  cbn [bind]. f_equal. unfold strip_code_fences, drop_prefix.
  rewrite Hs, He. apply strip_by_idempotent.
Qed.

End GeneratedText.

Lemma llm_sql_unwraps_fenced_answer_witness :
  @llm_sql ascii_tables sample_fenced_world (lit "How many tracks?")
    (lit "- Track(TrackId INTEGER)") [] =
  Ok (lit "SELECT COUNT(*) FROM Track").
Proof.
  apply (@llm_sql_unwraps_fenced_answer ascii_tables sample_fenced_world
           (lit "How many tracks?") (lit "- Track(TrackId INTEGER)") []
           (fun _ => Ok (lit "```" ++ lit "sql" ++ nl ++
                         lit "SELECT COUNT(*) FROM Track" ++ nl ++ lit "```"))
           (lit "sql") (lit "SELECT COUNT(*) FROM Track")).
  - reflexivity.
  - intros req. reflexivity.
  - now right.
  - discriminate.
  - reflexivity.
Defined.

Lemma llm_sql_trims_plain_answer_witness :
  @llm_sql ascii_tables sample_writer_world (lit "Remove the tracks")
    (lit "- Track(TrackId INTEGER)") [] =
  Ok (@strip ascii_tables (lit "DROP TABLE Track")).
Proof.
  apply (@llm_sql_trims_plain_answer ascii_tables sample_writer_world
           (lit "Remove the tracks") (lit "- Track(TrackId INTEGER)") []
           (fun _ => Ok (lit "DROP TABLE Track")) (lit "DROP TABLE Track")).
  - reflexivity.
  - intros req. reflexivity.
  - reflexivity.
  - reflexivity.
Defined.

(** ** What reaches the prompt *)

Lemma last_turns_app_recent (n : nat) (old recent : list hist_item) :
  (n <= length recent)%nat ->
  last_turns n (old ++ recent) = last_turns n recent.
Proof.
  intros H. unfold last_turns. rewrite length_app, skipn_app.
  replace (length old + length recent - n - length old)%nat
    with (length recent - n)%nat by lia.
  rewrite skipn_all2 by lia. reflexivity.
Qed.

(** X17. Only the last fifteen turns of the history reach the prompt:
    once fifteen turns are in the buffer, the turns before them change
    nothing in what [build_history_context] returns, be it a text or
    the exception of a preview that cannot be serialised. *)
Theorem build_history_context_reads_last_fifteen
  (json_dumps : list row -> result str) (old recent : list hist_item) :
  (15 <= length recent)%nat ->
  build_history_context json_dumps (old ++ recent) =
  build_history_context json_dumps recent.
Proof.
  intros H. rewrite !build_history_context_chunks, !history_chunks_console.
  unfold context_view. now rewrite (last_turns_app_recent 15 old recent H).
Qed.

Lemma build_history_context_reads_last_fifteen_witness :
  build_history_context (fun _ => Ok (lit "[[3503]]"))
    ([sample_turn; sample_turn] ++ sixteen_turns) =
  build_history_context (fun _ => Ok (lit "[[3503]]")) sixteen_turns.
Proof.
  apply (build_history_context_reads_last_fifteen
           (fun _ => Ok (lit "[[3503]]")) [sample_turn; sample_turn]
           sixteen_turns).
  simpl. lia.
Defined.

Section ExplainRows.
Context {U : Unicode}.
Variable w : world.

(** X18. [explain_results] looks at the first five rows only: the rows
    after the fifth change neither the request it sends nor its
    outcome. *)
Theorem explain_results_reads_five_rows (question sql : str)
  (rows more : list row) :
  (5 <= length rows)%nat ->
  explain_results w question sql (rows ++ more) =
  explain_results w question sql rows.
Proof.
  intros H. unfold explain_results.
  change 5%Z with (Z.of_nat 5). rewrite !slice_to_nonneg.
  rewrite firstn_app.
  replace (5 - length rows)%nat with 0%nat by lia.
  now rewrite app_nil_r.
Qed.

End ExplainRows.

Lemma explain_results_reads_five_rows_witness :
  @explain_results ascii_tables sample_world (lit "How many tracks?")
    (lit "SELECT COUNT(*) FROM Track")
    (repeat [SqlInteger 1] 5 ++ [[SqlInteger 2]]) =
  @explain_results ascii_tables sample_world (lit "How many tracks?")
    (lit "SELECT COUNT(*) FROM Track") (repeat [SqlInteger 1] 5).
Proof.
  apply (@explain_results_reads_five_rows ascii_tables sample_world
           (lit "How many tracks?") (lit "SELECT COUNT(*) FROM Track")
           (repeat [SqlInteger 1] 5) [[SqlInteger 2]]).
  simpl. lia.
Defined.

(** ** A schema that cannot be read *)

Lemma get_schema_loop_raises (conn : connection) (tables : list str)
  (acc : schema_t) :
  (exists t e, In t tables /\ pragma_table_info conn t = Raise e) ->
  exists e, get_schema_loop conn tables acc = Raise e.
Proof.
  revert acc. induction tables as [|t tables IH]; intros acc (t' & e & Hin & He);
    [contradiction|].
  simpl. destruct (pragma_table_info conn t) as [cols|e0] eqn:E.
  - simpl. apply IH. destruct Hin as [->|Hin]; [congruence|].
    now exists t', e.
  - now exists e0.
Qed.

Section SchemaFailure.
Context {U : Unicode}.
Variable w : world.

(** X19. When [PRAGMA table_info] fails for a table of the catalog,
    [get_schema] raises, and [main] ends with that exception before it
    prints anything or reads a line; the connection is closed. *)
Theorem main_stops_when_schema_unreadable (fuel : nat) (conn : connection)
  (lines : list str) (t : str) (e0 : exn) :
  db_exists w = true ->
  In t (table_names conn) ->
  pragma_table_info conn t = Raise e0 ->
  exists e,
    get_schema conn = Raise e /\
    main w fuel conn lines =
    Some (Raise e,
          {| history := []; stdin := lines; stdout := [];
             conn_open := false; executed := [] |}).
Proof.
  intros Hdb Hin Hp.
  destruct (get_schema_loop_raises conn (select_table_names conn) [])
    as (e & He).
  { exists t, e0. split; [|assumption].
    apply (Permutation_in _ (order_by_name_perm _)). exact Hin. }
  exists e. split; [exact He|].
  unfold main. rewrite Hdb. cbn [negb]. unfold get_schema. now rewrite He.
Qed.

End SchemaFailure.

Lemma main_stops_when_schema_unreadable_witness :
  exists e,
    get_schema sample_locked_conn = Raise e /\
    @main ascii_tables sample_world 5 sample_locked_conn
      [lit "How many tracks?"; lit "y"] =
    Some (Raise e,
          {| history := []; stdin := [lit "How many tracks?"; lit "y"];
             stdout := []; conn_open := false; executed := [] |}).
Proof.
  apply (@main_stops_when_schema_unreadable ascii_tables sample_world 5
           sample_locked_conn [lit "How many tracks?"; lit "y"]
           (lit "Track") (DatabaseError (lit "database is locked"))).
  - reflexivity.
  - vm_compute. left. reflexivity.
  - reflexivity.
Defined.

(** ** Listings of the history *)

Lemma print_all_run (os : list output) (st : console) :
  print_all os st =
  (Ok tt, {| history := history st; stdin := stdin st;
             stdout := stdout st ++ os; conn_open := conn_open st;
      executed := executed st |}).
Proof.
  revert st. induction os as [|o os IH]; intros st.
  - destruct st. cbn. now rewrite app_nil_r.
  - cbn [print_all]. unfold bindM at 1. unfold print at 1.
    rewrite IH. cbn [history stdin stdout conn_open].
    now rewrite <- app_assoc.
Qed.

Lemma nth_error_enumerate {A : Type} (start : Z) (l : list A) (k : nat)
  (a : A) :
  nth_error l k = Some a ->
  nth_error (enumerate start l) k = Some ((start + Z.of_nat k)%Z, a).
Proof.
  revert start k. induction l as [|b l IH]; intros start k H.
  - destruct k; discriminate.
  - destruct k as [|k].
    + injection H as ->. cbn [enumerate nth_error]. now rewrite Z.add_0_r.
    + cbn [enumerate nth_error] in *. rewrite (IH _ _ H).
      do 2 f_equal. lia.
Qed.

Section Listings.
Context {U : Unicode}.
Variable w : world.

(** X20. The command [:history] on a history that is not empty prints
    the heading and then one entry for each of the last fifteen turns,
    oldest first and numbered from 1, each with at most its first two
    preview rows; the history itself is left as it was and neither the
    generation service nor the database is called. *)
Theorem console_history_lists_last_fifteen (conn : connection)
  (schema_txt : str) (st : console) (line : str) (rest : list str) :
  stdin st = line :: rest ->
  lower (strip line) = lit ":history" ->
  history st <> [] ->
  exists entries,
    console_iteration w conn schema_txt st =
    (Ok Continue,
     {| history := history st;
        stdin := rest;
        stdout := stdout st ++
                  Print (lit "--- History (last turns) ---") :: entries;
        conn_open := conn_open st;
        executed := executed st |}) /\
    length entries = Nat.min 15 (length (history st)) /\
    forall (k : nat) (t : hist_item),
      nth_error (last_turns 15 (history st)) k = Some t ->
      nth_error entries k =
      Some (PrintHistoryEntry (Z.of_nat k + 1) t (firstn 2 (turn_preview t))).
Proof.
  intros Hin Hlow Hne.
  exists (map (fun ih : Z * hist_item =>
                 PrintHistoryEntry (fst ih) (snd ih)
                   (slice_to 2 (turn_preview (snd ih))))
              (enumerate 1 (last_turns 15 (history st)))).
  split; [|split].
  - unfold console_iteration.
    step_with input. rewrite Hin. cbv beta iota zeta. rewrite Hlow.
    replace (existsb (str_eqb (lit ":history"))
               [lit "exit"; lit "quit"; lit "q"]) with false by reflexivity.
    replace (str_eqb (lit ":history") (lit ":history")) with true
      by reflexivity.
    cbv beta iota.
    step_with get_history.
    destruct (history st) as [|t0 h0] eqn:Eh; [contradiction|].
    unfold bindM, print, ret.
    cbn [history stdin stdout conn_open].
    rewrite print_all_run. cbn [history stdin stdout conn_open].
    rewrite <- app_assoc. cbn [app].
    change (- MAX_HISTORY_TURNS)%Z with (- Z.of_nat 15)%Z.
    rewrite slice_from_neg by lia. reflexivity.
  - now rewrite length_map, enumerate_length, last_turns_length.
  - intros k t Hk.
    rewrite nth_error_map, (nth_error_enumerate 1 _ k t Hk).
    cbn [option_map fst snd].
    change 2%Z with (Z.of_nat 2). rewrite slice_to_nonneg.
    do 2 f_equal. lia.
Qed.

(** X21. A page on which no button is pressed shows, for a history that
    is not empty, one panel with the listed turns newest first and
    numbered from 1: the last [max_hist] turns, and the whole history
    when the depth is set to 0, although under that depth the
    generation step is given no history at all.  The session is left as
    it was. *)
Theorem web_panel_lists_turns_newest_first (conn : connection)
  (inp : web_inputs) (st : web_session) (txt : str) :
  ss_schema_txt st = Some txt ->
  clear_clicked inp = false ->
  run_clicked inp = false ->
  ss_history st <> [] ->
  (0 <= max_hist inp)%Z ->
  app_run w conn inp st =
  (Ok tt,
   {| ss_schema_txt := Some txt;
      ss_history := ss_history st;
      page := [StHistoryPanel
                 (enumerate 1
                    (rev (listed_turns (max_hist inp) (ss_history st))))];
      ss_executed := ss_executed st |}) /\
  (max_hist inp = 0%Z -> app_history_arg (max_hist inp) (ss_history st) = []).
Proof.
  intros Hs Hc Hr Hne Hd. split.
  - unfold app_run. rewrite Hc, Hr.
    step_with new_page. step_with load_schema_txt. rewrite Hs.
    cbv beta iota zeta.
    unfold bindM, ret, web_history, show.
    cbn [ss_schema_txt ss_history page fst snd].
    destruct (ss_history st) as [|t0 h0] eqn:Eh; [contradiction|].
    cbn [nonempty]. cbv beta iota.
    cbn [ss_schema_txt ss_history page ss_executed app]. do 5 f_equal.
    unfold listed_turns.
    destruct (Z.eqb_spec (max_hist inp) 0) as [->|Hnz]; [reflexivity|].
    rewrite <- (Z2Nat.id (max_hist inp)) at 1 by assumption.
    f_equal. apply slice_from_neg. lia.
  - intros ->. reflexivity.
Qed.

End Listings.

Lemma console_history_lists_last_fifteen_witness :
  exists entries,
    @console_iteration ascii_tables sample_world sample_conn
      (lit "- Track(TrackId INTEGER)")
      {| history := sixteen_turns; stdin := [lit " :History "];
         stdout := []; conn_open := true; executed := [] |} =
    (Ok Continue,
     {| history := sixteen_turns;
        stdin := [];
        stdout := [] ++
                  Print (lit "--- History (last turns) ---") :: entries;
        conn_open := true; executed := [] |}) /\
    length entries = Nat.min 15 (length sixteen_turns) /\
    forall (k : nat) (t : hist_item),
      nth_error (last_turns 15 sixteen_turns) k = Some t ->
      nth_error entries k =
      Some (PrintHistoryEntry (Z.of_nat k + 1) t (firstn 2 (turn_preview t))).
Proof.
  apply (@console_history_lists_last_fifteen ascii_tables sample_world
           sample_conn (lit "- Track(TrackId INTEGER)")
           {| history := sixteen_turns; stdin := [lit " :History "];
              stdout := []; conn_open := true; executed := [] |}
           (lit " :History ") []).
  - reflexivity.
  - vm_compute. reflexivity.
  - simpl. discriminate.
Defined.

Lemma web_panel_lists_turns_newest_first_witness :
  @app_run ascii_tables sample_world sample_conn
    {| export_enabled := true; max_hist := 0; clear_clicked := false;
       question_input := []; run_clicked := false |}
    {| ss_schema_txt := Some (lit "- Track(TrackId INTEGER)");
       ss_history := sixteen_turns; page := []; ss_executed := [] |} =
  (Ok tt,
   {| ss_schema_txt := Some (lit "- Track(TrackId INTEGER)");
      ss_history := sixteen_turns;
      page := [StHistoryPanel
                 (enumerate 1 (rev (listed_turns 0 sixteen_turns)))];
      ss_executed := [] |}) /\
  (0%Z = 0%Z -> app_history_arg 0 sixteen_turns = []).
Proof.
  apply (@web_panel_lists_turns_newest_first ascii_tables sample_world
           sample_conn
           {| export_enabled := true; max_hist := 0; clear_clicked := false;
              question_input := []; run_clicked := false |}
           {| ss_schema_txt := Some (lit "- Track(TrackId INTEGER)");
              ss_history := sixteen_turns; page := []; ss_executed := [] |}
           (lit "- Track(TrackId INTEGER)")).
  - reflexivity.
  - reflexivity.
  - reflexivity.
  - simpl. discriminate.
  - simpl. lia.
Defined.

(** ** Letter case and the gate *)

Lemma lstrip_by_map (p : char -> bool) (f : char -> char) (s : str) :
  (forall c, p (f c) = p c) ->
  lstrip_by p (map f s) = map f (lstrip_by p s).
Proof.
  intros Hp. induction s as [|c s IH]; [reflexivity|].
  cbn [map lstrip_by]. rewrite Hp. now destruct (p c).
Qed.

Lemma strip_by_map (p : char -> bool) (f : char -> char) (s : str) :
  (forall c, p (f c) = p c) ->
  strip_by p (map f s) = map f (strip_by p s).
Proof.
  intros Hp. unfold strip_by, rstrip_by.
  now rewrite (lstrip_by_map p f s Hp), <- map_rev,
    (lstrip_by_map p f _ Hp), map_rev.
Qed.

Lemma slice_to_map {A B : Type} (f : A -> B) (stop : Z) (l : list A) :
  slice_to stop (map f l) = map f (slice_to stop l).
Proof. unfold slice_to. rewrite length_map. apply firstn_map. Qed.

Lemma existsb_pointwise {A : Type} (f g : A -> bool) (l : list A) :
  (forall a, f a = g a) -> existsb f l = existsb g l.
Proof.
  intros H. induction l as [|a l IH]; [reflexivity|].
  cbn [existsb]. now rewrite H, IH.
Qed.

Ltac bool_props :=
  repeat first
    [ rewrite orb_true_iff | rewrite andb_true_iff | rewrite N.leb_le
    | rewrite N.eqb_eq ].

Lemma ascii_lower_cases (c : char) :
  (65 <= c <= 90 /\ ascii_lower c = c + 32) \/
  ((c < 65 \/ 90 < c) /\ ascii_lower c = c).
Proof.
  unfold ascii_lower, ascii_isupper.
  destruct (N.leb_spec 65 c); destruct (N.leb_spec c 90); cbn [andb]; lia.
Qed.

Lemma lower_keeps_space (c : char) :
  ascii_isspace (ascii_lower c) = ascii_isspace c.
Proof.
  apply Bool.eq_true_iff_eq. unfold ascii_isspace. bool_props.
  destruct (ascii_lower_cases c) as [[H ->]|[H ->]]; lia.
Qed.

Lemma lower_keeps_semicolon (c : char) :
  (ch_semicolon =? ascii_lower c) = (ch_semicolon =? c).
Proof.
  apply Bool.eq_true_iff_eq. unfold ch_semicolon. bool_props.
  destruct (ascii_lower_cases c) as [[H ->]|[H ->]]; lia.
Qed.

Lemma lower_keeps_word (c : char) :
  @isword ascii_tables (ascii_lower c) = @isword ascii_tables c.
Proof.
  apply Bool.eq_true_iff_eq. unfold isword. cbn [isalnum ascii_tables].
  unfold ascii_isalnum, ascii_isalpha, ascii_isupper, ascii_islower,
    ascii_isdigit, ch_underscore.
  bool_props.
  destruct (ascii_lower_cases c) as [[H ->]|[H ->]]; lia.
Qed.

Lemma lower_lower (c : char) : ascii_lower (ascii_lower c) = ascii_lower c.
Proof.
  destruct (ascii_lower_cases (ascii_lower c)) as [[H ->]|[H ->]];
    [|reflexivity].
  destruct (ascii_lower_cases c) as [[H' E]|[H' E]]; rewrite E in *; lia.
Qed.

Lemma upper_lower (c : char) : ascii_upper (ascii_lower c) = ascii_upper c.
Proof.
  unfold ascii_upper, ascii_islower.
  destruct (ascii_lower_cases c) as [[H ->]|[H ->]]; [|reflexivity].
  destruct (N.leb_spec 97 (c + 32)); destruct (N.leb_spec (c + 32) 122);
    destruct (N.leb_spec 97 c); destruct (N.leb_spec c 122);
    cbn [andb]; lia.
Qed.

Lemma word_boundary_lower (prev : option char) (rest : str) :
  @word_boundary ascii_tables (option_map ascii_lower prev)
    (map ascii_lower rest) =
  @word_boundary ascii_tables prev rest.
Proof.
  unfold word_boundary.
  destruct prev as [p|]; destruct rest as [|c rest];
    cbn [option_map map hd_error isword_opt];
    now rewrite ?lower_keeps_word.
Qed.

Lemma match_literal_lower (pat : str) (prev : option char) (rest : str) :
  @match_literal ascii_tables pat (option_map ascii_lower prev)
    (map ascii_lower rest) =
  option_map (fun pr : option char * str =>
                (option_map ascii_lower (fst pr), map ascii_lower (snd pr)))
             (@match_literal ascii_tables pat prev rest).
Proof.
  revert prev rest. induction pat as [|p pat IH]; intros prev rest.
  - reflexivity.
  - destruct rest as [|c rest]; [reflexivity|].
    cbn [match_literal map ignorecase_eq ascii_tables].
    rewrite lower_lower.
    destruct (ascii_lower c =? ascii_lower p); [|reflexivity].
    apply (IH (Some c) rest).
Qed.

Lemma match_at_lower (prev : option char) (rest : str) :
  @write_regex_match_at ascii_tables (option_map ascii_lower prev)
    (map ascii_lower rest) =
  @write_regex_match_at ascii_tables prev rest.
Proof.
  unfold write_regex_match_at. rewrite word_boundary_lower.
  apply (f_equal (andb _)). apply existsb_pointwise. intros kw.
  rewrite match_literal_lower.
  destruct (@match_literal ascii_tables kw prev rest) as [[p r]|];
    [|reflexivity].
  apply word_boundary_lower.
Qed.

Lemma search_from_lower (prev : option char) (rest : str) :
  @write_regex_search_from ascii_tables (option_map ascii_lower prev)
    (map ascii_lower rest) =
  @write_regex_search_from ascii_tables prev rest.
Proof.
  revert prev. induction rest as [|c rest IH]; intros prev.
  - change (map ascii_lower []) with (@nil char).
    cbn [write_regex_search_from].
    now rewrite <- (match_at_lower prev []).
  - cbn [write_regex_search_from map].
    change (ascii_lower c :: map ascii_lower rest)
      with (map ascii_lower (c :: rest)).
    rewrite match_at_lower. apply (f_equal (orb _)).
    apply (IH (Some c)).
Qed.

Lemma gate_reads_lowered_text (sql : str) :
  @is_safe_select ascii_tables (map ascii_lower sql) =
  @is_safe_select ascii_tables sql.
Proof.
  unfold is_safe_select, WRITE_REGEX_search, strip.
  cbn [isspace ascii_tables].
  rewrite (strip_by_map ascii_isspace ascii_lower sql lower_keeps_space).
  rewrite slice_to_map.
  replace (contains_char ch_semicolon
             (map ascii_lower (slice_to (-1) (strip_by ascii_isspace sql))))
    with (contains_char ch_semicolon
            (slice_to (-1) (strip_by ascii_isspace sql))).
  2:{ unfold contains_char.
      induction (slice_to (-1) (strip_by ascii_isspace sql)) as [|c s IH];
        [reflexivity|].
      cbn [map existsb]. now rewrite lower_keeps_semicolon, IH. }
  change (@write_regex_search_from ascii_tables None (map ascii_lower sql))
    with (@write_regex_search_from ascii_tables
            (option_map ascii_lower None) (map ascii_lower sql)).
  rewrite (search_from_lower None sql).
  replace (@upper ascii_tables (map ascii_lower (strip_by ascii_isspace sql)))
    with (@upper ascii_tables (strip_by ascii_isspace sql)); [reflexivity|].
  unfold upper. cbn [upper_of ascii_tables].
  induction (strip_by ascii_isspace sql) as [|c s IH]; [reflexivity|].
  cbn [map flat_map app]. now rewrite upper_lower, IH.
Qed.

Section LetterCase.
Context {U : Unicode}.

(** X22. The gate does not look at the case of ASCII letters: two ASCII
    texts that differ in letter case only get the same verdict, so a
    statement cannot pass, or be blocked, through its spelling in
    capitals or small letters. *)
Theorem is_safe_select_ignores_letter_case (a b : str) :
  forallb is_ascii a = true ->
  forallb is_ascii b = true ->
  map ascii_lower a = map ascii_lower b ->
  is_safe_select a = is_safe_select b.
Proof.
  intros Ha Hb Hab.
  rewrite (is_safe_select_ascii a Ha), (is_safe_select_ascii b Hb).
  rewrite <- (gate_reads_lowered_text a), <- (gate_reads_lowered_text b).
  now rewrite Hab.
Qed.

End LetterCase.

Lemma is_safe_select_ignores_letter_case_witness :
  @is_safe_select ascii_tables (lit "select Name from Track; drop table T") =
  @is_safe_select ascii_tables (lit "SELECT name FROM track; DROP TABLE t").
Proof.
  apply (@is_safe_select_ignores_letter_case ascii_tables
           (lit "select Name from Track; drop table T")
           (lit "SELECT name FROM track; DROP TABLE t")).
  - reflexivity.
  - reflexivity.
  - reflexivity.
Defined.

(** ** A preview that cannot be serialised *)

Lemma mapM_raises {A B : Type} (f : A -> result B) (l : list A) (a : A)
  (e : exn) :
  In a l -> f a = Raise e -> exists e', mapM f l = Raise e'.
Proof.
  intros Hin Ha. induction l as [|x l IH]; [contradiction|].
  cbn [mapM]. destruct (f x) as [b|e0] eqn:Ex; [|now exists e0].
  cbn [bind]. destruct Hin as [->|Hin]; [congruence|].
  destruct (IH Hin) as (e' & ->). now exists e'.
Qed.

Lemma turn_in_view (k : nat) (h : list hist_item) (t : hist_item) :
  In t (last_turns k h) ->
  exists i, In {| chunk_no := i; chunk_q := turn_q t; chunk_sql := turn_sql t;
                  chunk_preview := firstn 3 (turn_preview t) |}
               (context_view k h).
Proof.
  unfold context_view. generalize 1%Z.
  induction (last_turns k h) as [|x l IH]; [contradiction|].
  intros start [->|Hin]; cbn [enumerate map fst snd].
  - exists start. now left.
  - destruct (IH (start + 1)%Z Hin) as (i & Hi). exists i. now right.
Qed.

Section UnserialisedPreview.
Context {U : Unicode}.
Variable w : world.

(** X23. A turn among the last fifteen whose first three preview rows
    [json.dumps] cannot serialise makes [build_history_context] raise.
    Nothing catches that exception: the next question ends the console
    loop with it, after the line is read and before anything is
    printed or executed, and it ends the run of the web form, which
    shows nothing for it. *)
Theorem unserialised_preview_fails_next_question :
  (forall (h : list hist_item) (t : hist_item) (e : exn),
      In t (last_turns 15 h) ->
      json_dumps w (firstn 3 (turn_preview t)) = Raise e ->
      exists e', build_history_context (json_dumps w) h = Raise e') /\
  (forall (fuel : nat) (conn : connection) (schema_txt : str) (st : console)
          (line : str) (rest : list str) (e : exn),
      stdin st = line :: rest ->
      console_command (lower (strip line)) = false ->
      nonempty (strip line) = true ->
      build_history_context (json_dumps w) (history st) = Raise e ->
      console_loop w (S fuel) conn schema_txt st =
      Some (Raise e,
            {| history := history st; stdin := rest; stdout := stdout st;
               conn_open := conn_open st; executed := executed st |})) /\
  (forall (conn : connection) (inp : web_inputs) (schema_txt : str)
          (st : web_session) (e : exn),
      nonempty (strip (question_input inp)) = true ->
      db_exists w = true ->
      build_history_context (json_dumps w)
        (app_history_arg (max_hist inp) (ss_history st)) = Raise e ->
      handle_run w conn inp schema_txt st = (Raise e, st)).
Proof.
  split; [|split].
  - intros h t e Hin He.
    rewrite build_history_context_chunks, history_chunks_console.
    destruct (turn_in_view 15 h t Hin) as (i & Hc).
    destruct (mapM_raises (chunk_text (json_dumps w)) _ _ e Hc)
      as (e' & ->); [|now exists e'].
    unfold chunk_text. cbn [chunk_preview]. now rewrite He.
  - intros fuel conn schema_txt st line rest e Hin Hcmd Hne Hctx.
    destruct (console_command_false _ Hcmd) as (H1 & H2 & H3 & H4).
    cbn [console_loop]. unfold console_iteration.
    step_with input. rewrite Hin. cbv beta iota zeta.
    rewrite H1, H2, H3, H4, Hne. cbn [negb].
    step_with get_history.
    step_with lift. rewrite Hctx. reflexivity.
  - intros conn inp schema_txt st e Hq Hdb Hctx.
    unfold handle_run. rewrite Hq, Hdb. cbn [negb].
    step_with web_history.
    step_with lift. now rewrite Hctx.
Qed.

End UnserialisedPreview.

Lemma unserialised_preview_fails_next_question_witness :
  (exists e',
     build_history_context (json_dumps sample_json_world)
       (numbered_turns 2 ++ [blob_turn]) = Raise e') /\
  @console_loop ascii_tables sample_json_world 1 sample_conn
    (lit "- Track(TrackId INTEGER)")
    {| history := [blob_turn]; stdin := [lit "How many tracks?"; lit "y"];
       stdout := []; conn_open := true; executed := [] |} =
  Some (Raise (TypeError (lit "Object of type bytes is not JSON serializable")),
        {| history := [blob_turn]; stdin := [lit "y"]; stdout := [];
           conn_open := true; executed := [] |}) /\
  @handle_run ascii_tables sample_json_world sample_conn
    (sample_inputs "How many tracks?") (lit "- Track(TrackId INTEGER)")
    {| ss_schema_txt := Some (lit "- Track(TrackId INTEGER)");
       ss_history := [blob_turn]; page := []; ss_executed := [] |} =
  (Raise (TypeError (lit "Object of type bytes is not JSON serializable")),
   {| ss_schema_txt := Some (lit "- Track(TrackId INTEGER)");
      ss_history := [blob_turn]; page := []; ss_executed := [] |}).
Proof.
  destruct (@unserialised_preview_fails_next_question ascii_tables
              sample_json_world) as (H1 & H2 & H3).
  split; [|split].
  - apply (H1 (numbered_turns 2 ++ [blob_turn]) blob_turn
              (TypeError (lit "Object of type bytes is not JSON serializable"))).
    + vm_compute. right. right. left. reflexivity.
    + reflexivity.
  - apply (H2 0%nat sample_conn (lit "- Track(TrackId INTEGER)")
              {| history := [blob_turn];
                 stdin := [lit "How many tracks?"; lit "y"];
                 stdout := []; conn_open := true; executed := [] |}
              (lit "How many tracks?") [lit "y"]);
      reflexivity.
  - apply (H3 sample_conn (sample_inputs "How many tracks?")
              (lit "- Track(TrackId INTEGER)")
              {| ss_schema_txt := Some (lit "- Track(TrackId INTEGER)");
                 ss_history := [blob_turn]; page := []; ss_executed := [] |});
      reflexivity.
Defined.

(** ** The frame of the web form *)

Section WebFrame.
Context {U : Unicode}.
Variable w : world.

(** X24. In the web form an answered query is turned into a frame
    inside the [try] and the frame is shown outside of it.  When
    [pd.DataFrame] raises, the run shows the exception as a query error
    and ends normally; when [st.dataframe] raises, nothing catches the
    exception and the run ends with it.  In both cases the statement
    has been executed and no turn is appended to the history. *)
Theorem web_frame_failure_drops_turn (conn : connection) (inp : web_inputs)
  (schema_txt : str) (st : web_session) (hist_ctx sql : str)
  (cols : list str) (rows : list row) (e : exn) :
  nonempty (strip (question_input inp)) = true ->
  db_exists w = true ->
  build_history_context (json_dumps w)
    (app_history_arg (max_hist inp) (ss_history st)) = Ok hist_ctx ->
  llm_sql w (strip (question_input inp)) schema_txt hist_ctx = Ok sql ->
  nonempty sql = true ->
  is_safe_select sql = true ->
  run_query conn sql = Ok (cols, rows) ->
  (DataFrame w rows cols = Raise e ->
   handle_run w conn inp schema_txt st =
   (Ok tt,
    {| ss_schema_txt := ss_schema_txt st;
       ss_history := ss_history st;
       page := page st ++
               [StCode sql; StError (lit "Query error: " ++ exn_message e)];
       ss_executed := ss_executed st ++ [sql] |})) /\
  (DataFrame w rows cols = Ok tt ->
   st_dataframe w cols rows = Raise e ->
   handle_run w conn inp schema_txt st =
   (Raise e,
    {| ss_schema_txt := ss_schema_txt st;
       ss_history := ss_history st;
       page := page st ++ [StCode sql];
       ss_executed := ss_executed st ++ [sql] |})).
Proof.
  intros Hq Hdb Hctx Hsql Hne Hsafe Hrun.
  assert (Hstart :
            handle_run w conn inp schema_txt st =
            (df <~ try_except
                     (cr <~ web_run_query conn sql ;;
                      lift (DataFrame w (snd cr) (fst cr)) ;;;
                      ret (Some cr))
                     (fun e =>
                        show (StError (lit "Query error: " ++ exn_message e)) ;;;
                        ret None) ;;
             match df with
             | None => ret tt
             | Some (cols, rows) =>
                 lift (st_dataframe w cols rows) ;;;
                 show (StDataframe cols rows) ;;;
                 expl <~ try_except
                           (lift (explain_results w (question_input inp) sql
                                    (if nonempty rows then slice_to 5 rows
                                     else [])))
                           (fun _ => ret []) ;;
                 (if nonempty expl then show (StExplanation expl) else ret tt) ;;;
                 h' <~ web_history ;;
                 set_web_history
                   (h' ++ [{| turn_q := question_input inp; turn_sql := sql;
                              turn_preview := preview_of rows |}]) ;;;
                 if export_enabled inp then
                   try_except
                     (lift (export_run w (slugify (question_input inp))
                              (question_input inp) sql cols rows expl) ;;;
                      show (StToast (lit "Saved to outputs/")))
                     (fun e => show (StWarning (lit "Export failed: " ++
                                                exn_message e)))
                 else ret tt
             end)
              {| ss_schema_txt := ss_schema_txt st;
                 ss_history := ss_history st;
                 page := page st ++ [StCode sql];
                 ss_executed := ss_executed st |}).
  { unfold handle_run. rewrite Hq, Hdb. cbn [negb].
    step_with web_history.
    step_with lift. rewrite Hctx.
    step_with try_except. unfold lift at 1. rewrite Hsql.
    rewrite Hne. cbn [negb].
    step_with show. rewrite Hsafe. cbn [negb]. reflexivity. }
  rewrite Hstart. split.
  - intros Hdf.
    step_with try_except. step_with web_run_query. rewrite Hrun.
    cbn [fst snd]. step_with lift. rewrite Hdf.
    step_with show. unfold ret. now rewrite <- !app_assoc.
  - intros Hdf Hshow.
    step_with try_except. step_with web_run_query. rewrite Hrun.
    cbn [fst snd]. step_with lift. rewrite Hdf.
    unfold ret at 1. step_with lift. now rewrite Hshow.
Qed.

End WebFrame.

Lemma web_frame_failure_drops_turn_witness :
  @handle_run ascii_tables sample_strict_world sample_twin_conn
    (sample_inputs "How many tracks?") (lit "- Track(TrackId INTEGER)")
    sample_session =
  (Raise (ValueError (lit "Duplicate column names found")),
   {| ss_schema_txt := Some (lit "- Track(TrackId INTEGER)");
      ss_history := [];
      page := [] ++ [StCode (lit "SELECT COUNT(*) FROM Track")];
      ss_executed := [] ++ [lit "SELECT COUNT(*) FROM Track"] |}).
Proof.
  apply (proj2
           (@web_frame_failure_drops_turn ascii_tables sample_strict_world
              sample_twin_conn (sample_inputs "How many tracks?")
              (lit "- Track(TrackId INTEGER)") sample_session []
              (lit "SELECT COUNT(*) FROM Track") [lit "Name"; lit "Name"]
              [[SqlInteger 1; SqlInteger 2]]
              (ValueError (lit "Duplicate column names found"))
              eq_refl eq_refl eq_refl eq_refl eq_refl eq_refl eq_refl));
    reflexivity.
Defined.
